(** * EchoBuy: the conversational shopping agent

    A shallow embedding of [conversational_agent.py] (class
    [ConversationalAmazonAgent]) and the properties of its intent
    detector, product extractor, link extractor, response annotation
    parser and voice text optimizer.

    Python strings are sequences of Unicode code points; they are
    modelled as lists of [N].  The regular expressions of the source are
    embedded as data and run by a backtracking matcher that follows the
    priority order of Python's [re] module (leftmost start, greedy
    repetitions longest first, lazy repetitions shortest first).

    The conversation ([chat]) and the web socket server of [main.py]
    follow the methods of the agent; the services that they talk to are
    parameters of the model. *)

From Stdlib Require Import ZArith NArith List Bool Lia String Ascii.
From Stdlib Require Import DecimalNat.
From stdpp Require Import base option list gmap.

(** ** Strings *)

Abbreviation pystr := (list N).

(** An ASCII literal of the source as a list of code points. *)
Definition str (s : string) : pystr :=
  map N_of_ascii (list_ascii_of_string s).

(** [str.isspace] on one code point, which is also what [\s] matches in
    a [str] pattern: the ASCII white space 0x09-0x0D, 0x1C-0x20 and the
    Unicode white space characters. *)
Definition is_space (c : N) : bool :=
  ((9 <=? c) && (c <=? 13) || (28 <=? c) && (c <=? 32)
   || (c =? 133) || (c =? 160) || (c =? 5760)
   || (8192 <=? c) && (c <=? 8202)
   || (c =? 8232) || (c =? 8233) || (c =? 8239) || (c =? 8287)
   || (c =? 12288))%N.

Fixpoint lstrip (s : pystr) : pystr :=
  match s with
  | c :: s' => if is_space c then lstrip s' else s
  | [] => []
  end.

Definition rstrip (s : pystr) : pystr := rev (lstrip (rev s)).

(** [s.strip()] *)
Definition strip (s : pystr) : pystr := rstrip (lstrip s).

(** [s.startswith(p)] *)
Fixpoint startswith (p s : pystr) : bool :=
  match p, s with
  | [], _ => true
  | a :: p', b :: s' => (a =? b)%N && startswith p' s'
  | _ :: _, [] => false
  end.

(** [p in s] for two strings. *)
Fixpoint contains (p s : pystr) : bool :=
  startswith p s ||
  match s with
  | [] => false
  | _ :: s' => contains p s'
  end.

(** [sep.join(l)] *)
Fixpoint join (sep : pystr) (l : list pystr) : pystr :=
  match l with
  | [] => []
  | [x] => x
  | x :: l' => x ++ sep ++ join sep l'
  end.

(** [s.split(sep)] for a non-empty separator, as the first piece and the
    pieces after it.  [skip] counts the characters of a separator that
    was just recognised and are still to be passed over. *)
Fixpoint split_go (sep : pystr) (skip : nat) (s : pystr)
  : pystr * list pystr :=
  match s with
  | [] => ([], [])
  | c :: s' =>
      match skip with
      | S k => split_go sep k s'
      | O =>
          if startswith sep s
          then ([], let (p, ps) := split_go sep (length sep - 1) s' in p :: ps)
          else let (p, ps) := split_go sep 0 s' in (c :: p, ps)
      end
  end.

Definition split (sep s : pystr) : list pystr :=
  let (p, ps) := split_go sep 0 s in p :: ps.

(** [s.split(sep)[0]] *)
Definition split_first (sep s : pystr) : pystr := fst (split_go sep 0 s).

(** [s.replace(old, new)]: every non-overlapping occurrence, left to
    right.  With an empty [old] Python inserts [new] around every
    character. *)
Fixpoint replace_go (old new : pystr) (skip : nat) (s : pystr) : pystr :=
  match s with
  | [] => []
  | c :: s' =>
      match skip with
      | S k => replace_go old new k s'
      | O =>
          if startswith old s
          then new ++ replace_go old new (length old - 1) s'
          else c :: replace_go old new 0 s'
      end
  end.

Definition replace (old new s : pystr) : pystr :=
  match old with
  | [] => new ++ flat_map (fun c => c :: new) s
  | _ :: _ => replace_go old new 0 s
  end.

(** ** Regular expressions

    The patterns of the source are sequences of single-character classes
    under a quantifier, with capturing groups around some of them; there
    is no alternation and no nested repetition.  A pattern is therefore a
    list of items. *)

Inductive cclass :=
| CChar (c : N)              (* a literal character *)
| CCharI (c : N)             (* a literal character under re.IGNORECASE *)
| CSpace                     (* \s *)
| CDigit                     (* \d *)
| CDot                       (* . *)
| CSet (cs : list N)         (* [...] *)
| CNot (cs : list N).        (* [^...] *)

Inductive quant :=
| QOne                       (* exactly one *)
| QOpt                       (* ? *)
| QStar                      (* * *)
| QPlus                      (* + *)
| QLazyStar                  (* *? *)
| QRange (lo hi : nat).      (* {lo,hi} *)

Inductive item :=
| ICls (c : cclass) (q : quant)
| IOpen                      (* ( *)
| IClose.                    (* ) *)

Abbreviation regex := (list item).

(** A literal string inside a pattern. *)
Definition lit (s : string) : regex :=
  map (fun c => ICls (CChar c) QOne) (str s).

(** A literal string of a pattern compiled with [re.IGNORECASE]: only
    letters are compared ignoring case. *)
Definition is_ascii_letter (c : N) : bool :=
  ((65 <=? c) && (c <=? 90) || (97 <=? c) && (c <=? 122))%N.

Definition litI (s : string) : regex :=
  map (fun c => ICls (if is_ascii_letter c then CCharI c else CChar c) QOne)
      (str s).

Section Matcher.
Context {R : Type}.
Variable p : N -> bool.

(** Greedy repetition of one class between [lo] and [hi] times ([hi =
    None]: unbounded): the longest run is tried first and given back
    one character at a time while the continuation [k] fails. *)
Fixpoint rep_greedy (lo : nat) (hi : option nat)
    (k : pystr -> option R) (s : pystr) : option R :=
  let stop := match lo with O => k s | S _ => None end in
  match hi with
  | Some O => stop
  | _ =>
      match s with
      | c :: s' =>
          if p c then
            match rep_greedy (pred lo) (pred <$> hi) k s' with
            | Some r => Some r
            | None => stop
            end
          else stop
      | [] => stop
      end
  end.

(** Lazy repetition (unbounded): the continuation is tried first,
    one more character is taken only when it fails. *)
Fixpoint rep_lazy (k : pystr -> option R) (s : pystr) : option R :=
  match k s with
  | Some r => Some r
  | None =>
      match s with
      | c :: s' => if p c then rep_lazy k s' else None
      | [] => None
      end
  end.

Definition m_quant (q : quant) (k : pystr -> option R) (s : pystr)
  : option R :=
  match q with
  | QOne => rep_greedy 1 (Some 1) k s
  | QOpt => rep_greedy 0 (Some 1) k s
  | QStar => rep_greedy 0 None k s
  | QPlus => rep_greedy 1 None k s
  | QLazyStar => rep_lazy k s
  | QRange lo hi => rep_greedy lo (Some hi) k s
  end.
End Matcher.

Definition ascii_lower_char (c : N) : N :=
  if ((65 <=? c) && (c <=? 90))%N then (c + 32)%N else c.

Definition ascii_digit_value (c : N) : option N :=
  if ((48 <=? c) && (c <=? 57))%N then Some (c - 48)%N else None.

(** The tables of the interpreter's Unicode database that the source
    reaches through [str.lower], [\d], [int] and [re.IGNORECASE].  They
    are a parameter of the model; all that is fixed is that among the
    ASCII characters the decimal digits are 0-9.  [ascii_db] is the
    restriction of the tables to ASCII. *)
Record unicode_db := {
  py_lower : pystr -> pystr;          (* str.lower *)
  digit_value : N -> option N;        (* decimal value of a digit character *)
  ci_eq : N -> N -> bool;             (* pattern character vs. subject character, ignoring case *)
  digit_value_ascii :
    forall c, (c < 128)%N -> digit_value c = ascii_digit_value c
}.

Definition ascii_db : unicode_db := {|
  py_lower := map ascii_lower_char;
  digit_value := ascii_digit_value;
  ci_eq := fun a b => (ascii_lower_char a =? ascii_lower_char b)%N;
  digit_value_ascii := fun c _ => eq_refl
|}.

(** The number of decimal digits up to which [int] converts a string:
    [sys.int_info.default_max_str_digits], the setting of an interpreter
    that is started without options, as the source leaves it. *)
Definition int_max_str_digits : N := 4300.

Section Regex.
Variable U : unicode_db.

Definition is_digit (c : N) : bool :=
  match digit_value U c with Some _ => true | None => false end.

Definition cmatch (c : cclass) (x : N) : bool :=
  match c with
  | CChar a => (x =? a)%N
  | CCharI a => ci_eq U a x
  | CSpace => is_space x
  | CDigit => is_digit x
  | CDot => negb (x =? 10)%N
  | CSet cs => existsb (N.eqb x) cs
  | CNot cs => negb (existsb (N.eqb x) cs)
  end.

(** Matching a pattern at the start of [s].  [mark] is the text at the
    last opening parenthesis, [caps] the groups closed so far; the
    result is the groups and the text after the match. *)
Fixpoint m_items (r : regex) (mark : pystr) (caps : list pystr)
    (s : pystr) : option (list pystr * pystr) :=
  match r with
  | [] => Some (caps, s)
  | IOpen :: r' => m_items r' s caps s
  | IClose :: r' =>
      m_items r' mark (caps ++ [take (length mark - length s) mark]) s
  | ICls c q :: r' =>
      m_quant (cmatch c) q (fun s' => m_items r' mark caps s') s
  end.

Definition rmatch (r : regex) (s : pystr) : option (list pystr * pystr) :=
  m_items r [] [] s.

(** [re.search]: the match at the leftmost position that has one. *)
Fixpoint re_search (r : regex) (s : pystr) : option (list pystr * pystr) :=
  match rmatch r s with
  | Some m => Some m
  | None =>
      match s with
      | [] => None
      | _ :: s' => re_search r s'
      end
  end.

(** [re.findall]: the groups of every non-overlapping match, left to
    right. *)
Fixpoint findall_go (r : regex) (skip : nat) (s : pystr)
  : list (list pystr) :=
  match s with
  | [] =>
      match skip, rmatch r [] with
      | O, Some (caps, _) => [caps]
      | _, _ => []
      end
  | _ :: s' =>
      match skip with
      | S k => findall_go r k s'
      | O =>
          match rmatch r s with
          | Some (caps, rest) =>
              caps :: findall_go r (length s - length rest - 1) s'
          | None => findall_go r 0 s'
          end
      end
  end.

Definition findall (r : regex) (s : pystr) : list (list pystr) :=
  findall_go r 0 s.

(** [re.sub(r, '', s)]: every non-overlapping match deleted. *)
Fixpoint sub_go (r : regex) (skip : nat) (s : pystr) : pystr :=
  match s with
  | [] => []
  | c :: s' =>
      match skip with
      | S k => sub_go r k s'
      | O =>
          match rmatch r s with
          | Some (_, rest) =>
              match length s - length rest with
              | O => c :: sub_go r 0 s'
              | S k => sub_go r k s'
              end
          | None => c :: sub_go r 0 s'
          end
      end
  end.

Definition re_sub_del (r : regex) (s : pystr) : pystr := sub_go r 0 s.

(** [int(s)] for a string of decimal digits ([None]: ValueError).  The
    source applies it only to a group of [\d+].  The interpreter refuses
    to convert more than [int_max_str_digits] digits, leading zeros
    counted. *)
Definition py_int (s : pystr) : option Z :=
  match s with
  | [] => None
  | _ :: _ =>
      if (int_max_str_digits <? N.of_nat (length s))%N then None
      else
        foldl (fun acc c =>
                 match acc, digit_value U c with
                 | Some a, Some d => Some (10 * a + Z.of_N d)%Z
                 | _, _ => None
                 end) (Some 0%Z) s
  end.
End Regex.

(** [match.group(n)], groups numbered from 1 as in Python. *)
Definition group (n : nat) (caps : list pystr) : pystr := nth (pred n) caps [].

(** ** Python values and exceptions

    Tool results are JSON-like values.  Operations that Python rejects
    on a value of the wrong type raise. *)

#[warnings="-register-all"]
Inductive pyval :=
| VNone
| VBool (b : bool)
| VInt (z : Z)
| VFloat (m e : Z)
| VStr (s : pystr)
| VList (l : list pyval)
| VDict (d : list (pystr * pyval)).

Inductive exn := TypeError | AttributeError | KeyError | ValueError.

Inductive result (A : Type) :=
| Ok (a : A)
| Raise (e : exn).
Arguments Ok {A} a.
Arguments Raise {A} e.

#[global] Instance result_ret : MRet result := @Ok.

#[global] Instance result_bind : MBind result := fun A B k m =>
  match m with
  | Ok a => k a
  | Raise e => Raise e
  end.

Definition pystr_eqb (a b : pystr) : bool := bool_decide (a = b).

(** [d.get(k)] on a dict: [None] when the key is absent. *)
Fixpoint dict_lookup (k : pystr) (d : list (pystr * pyval)) : option pyval :=
  match d with
  | [] => None
  | (k', v) :: d' => if pystr_eqb k k' then Some v else dict_lookup k d'
  end.

(** [v.get(k, default)]: only dicts have [get]. *)
Definition py_get (v : pyval) (k : pystr) (default : pyval) : result pyval :=
  match v with
  | VDict d => Ok (from_option id default (dict_lookup k d))
  | _ => Raise AttributeError
  end.

(** [needle in v] for a string [needle]: substring test on a string,
    element test on a list, key test on a dict; other values are not
    iterable. *)
Definition py_in (needle : pystr) (v : pyval) : result bool :=
  match v with
  | VStr s => Ok (contains needle s)
  | VList l =>
      Ok (existsb (fun x => match x with
                            | VStr s => pystr_eqb needle s
                            | _ => false
                            end) l)
  | VDict d => Ok (bool_decide (is_Some (dict_lookup needle d)))
  | _ => Raise TypeError
  end.

(** [for item in v]: the elements of a list, the keys of a dict, the
    characters of a string. *)
Definition py_iter (v : pyval) : result (list pyval) :=
  match v with
  | VList l => Ok l
  | VDict d => Ok (map (fun kv => VStr (fst kv)) d)
  | VStr s => Ok (map (fun c => VStr [c]) s)
  | _ => Raise TypeError
  end.

(** [v.split(sep)[0]]: only strings have [split]. *)
Definition py_split_first (sep : pystr) (v : pyval) : result pystr :=
  match v with
  | VStr s => Ok (split_first sep s)
  | _ => Raise AttributeError
  end.

(** Decimal rendering of a natural number, as in an f-string. *)
Fixpoint uint_digits (d : Decimal.uint) : pystr :=
  match d with
  | Decimal.Nil => []
  | Decimal.D0 d' => 48%N :: uint_digits d'
  | Decimal.D1 d' => 49%N :: uint_digits d'
  | Decimal.D2 d' => 50%N :: uint_digits d'
  | Decimal.D3 d' => 51%N :: uint_digits d'
  | Decimal.D4 d' => 52%N :: uint_digits d'
  | Decimal.D5 d' => 53%N :: uint_digits d'
  | Decimal.D6 d' => 54%N :: uint_digits d'
  | Decimal.D7 d' => 55%N :: uint_digits d'
  | Decimal.D8 d' => 56%N :: uint_digits d'
  | Decimal.D9 d' => 57%N :: uint_digits d'
  end.

Definition dec (n : nat) : pystr := uint_digits (Nat.to_uint n).

(** ** The data of the agent *)

Module Product.
Record t := {
  url : pyval;
  name : pystr;
  price : pystr;
  rating : pystr;
  key_features : list pystr;
  availability : pystr;
  prime_eligible : bool
}.
End Product.

Module Intent.
Record t := {
  purchase_intent : bool;
  comparison_request : bool;
  budget_mentioned : option Z
}.
End Intent.

Module Session.
Record t := {
  products_viewed : list Product.t;
  user_preferences : list (pystr * pyval);
  budget_range : option Z;
  comparison_mode : bool;
  purchase_intent : pyval;
  conversation_context : list (pystr * Intent.t)
}.
End Session.

Module Link.
Record t := { name : pystr; url : pystr }.
End Link.

Module Card.
Record t := {
  name : pystr;
  url : pystr;
  price : pystr;
  rating : pystr;
  feature1 : pystr;
  feature2 : pystr;
  image_hint : pystr
}.
End Card.

Module Purchase.
Record t := { product_name : pystr; url : pystr; price : pystr }.
End Purchase.

Module Response.
Record t := {
  spoken_text : pystr;
  links_to_display : list Link.t;
  product_cards : list Card.t;
  comparison_data : option pystr;
  purchase_intent_data : option Purchase.t
}.
End Response.

(** What [print] wrote: the message prefix and the exception. *)
Inductive log_line := Printed (prefix : pystr) (e : exn).

(** The mutable state of a [ConversationalAmazonAgent] that the modelled
    methods touch (the chat transcript and the service clients are left
    out), together with the standard output. *)
Record agent := {
  current_products : gmap pystr Product.t;
  shopping_session : Session.t;
  stdout : list log_line
}.

Definition fresh_session : Session.t := {|
  Session.products_viewed := [];
  Session.user_preferences := [];
  Session.budget_range := None;
  Session.comparison_mode := false;
  Session.purchase_intent := VNone;
  Session.conversation_context := []
|}.

(** [reset]: the product mapping and the session start afresh. *)
Definition reset (a : agent) : agent := {|
  current_products := ∅;
  shopping_session := fresh_session;
  stdout := stdout a
|}.

(** ** The patterns of the source *)

Definition ws : item := ICls CSpace QStar.
Definition not_pipe : cclass := CNot (str "|").
Definition not_close : cclass := CNot (str "]").
Definition digits1 : item := ICls CDigit QPlus.
Definition digits0 : item := ICls CDigit QStar.
Definition dot_opt : item := ICls (CChar 46) QOpt.

(** A capturing group around one quantified class. *)
Definition grp (c : cclass) (q : quant) : regex := [IOpen; ICls c q; IClose].

Inductive pattern_name :=
| display_link | product_card | compare_products | purchase_intent.

(** The [patterns] dict of [process_response_for_enhanced_features], in
    insertion order. *)
Definition pat_display_link : regex :=
  lit "[DISPLAY_LINK:" ++ [ws] ++ grp not_pipe QPlus ++ [ws] ++ lit "|"
  ++ [ws] ++ grp not_close QPlus ++ lit "]".

Definition pat_product_card : regex :=
  lit "[PRODUCT_CARD:" ++ [ws] ++ grp not_pipe QPlus ++ lit "|"
  ++ grp not_pipe QPlus ++ lit "|" ++ grp not_pipe QPlus ++ lit "|"
  ++ grp not_pipe QPlus ++ lit "|" ++ grp not_pipe QStar ++ lit "|"
  ++ grp not_pipe QStar ++ lit "|" ++ grp not_close QStar ++ lit "]".

Definition pat_compare_products : regex :=
  lit "[COMPARE_PRODUCTS:" ++ [ws] ++ grp not_close QPlus ++ lit "]".

Definition pat_purchase_intent : regex :=
  lit "[PURCHASE_INTENT:" ++ [ws] ++ grp not_pipe QPlus ++ [ws] ++ lit "|"
  ++ [ws] ++ grp not_pipe QPlus ++ [ws] ++ lit "|"
  ++ [ws] ++ grp not_close QPlus ++ lit "]".

Definition patterns : list (pattern_name * regex) :=
  [ (display_link, pat_display_link);
    (product_card, pat_product_card);
    (compare_products, pat_compare_products);
    (purchase_intent, pat_purchase_intent) ].

(** [special_formats] of [_optimize_for_voice]. *)
Definition special_format (marker : string) : regex :=
  lit marker ++ [ICls not_close QPlus] ++ lit "]".

Definition special_formats : list regex :=
  [ special_format "[DISPLAY_LINK:";
    special_format "[PRODUCT_CARD:";
    special_format "[COMPARE_PRODUCTS:";
    special_format "[PURCHASE_INTENT:" ].

(** [replacements] of [_optimize_for_voice], in insertion order. *)
Definition replacements : list (pystr * pystr) :=
  [ (str "I apologize", str "Sorry about that");
    (str "Could you please", str "Can you");
    (str "I would be happy to", str "I'd love to");
    (str "assistance", str "help");
    (str "purchase", str "buy");
    (str "provide me with", str "tell me");
    (str "information", str "info");
    (str "however", str "but");
    (str "therefore", str "so");
    (str "additionally", str "also");
    (str "Furthermore", str "Plus");
    (str "In order to", str "To");
    (str "I recommend", str "I'd suggest");
    (str "specifications", str "details");
    (str "http", []);
    (str "www.", []);
    (str "amazon.com", str "Amazon") ].

(** The prefixes of the lines that [_optimize_for_voice] drops; the
    sixth is the bullet U+2022. *)
Definition list_markers : list pystr :=
  [ str "1."; str "2."; str "3."; str "4."; str "5."; [8226%N]; str "-" ].

(** [budget_patterns] of [detect_user_intent]. *)
Definition budget_patterns : list regex :=
  [ lit "$" ++ [IOpen; digits1; IClose];
    lit "under " ++ [IOpen; digits1; IClose];
    lit "budget" ++ [ICls CDot QLazyStar; IOpen; digits1; IClose];
    lit "spend" ++ [ICls CDot QLazyStar; IOpen; digits1; IClose] ].

Definition purchase_keywords : list pystr :=
  [ str "buy"; str "purchase"; str "order"; str "i want"; str "i'll take";
    str "add to cart"; str "checkout" ].

Definition comparison_keywords : list pystr :=
  [ str "compare"; str "difference"; str "which is better"; str "vs";
    str "versus" ].

(** The patterns of [_extract_enhanced_product_info]. *)
Definition pat_title : regex :=
  lit "Amazon.com:" ++ [ws] ++ grp not_pipe QPlus.

Definition amount : regex := [IOpen; digits1; dot_opt; digits0; IClose].
Definition score : regex :=
  [IOpen; ICls CDigit QOne; dot_opt; digits0; IClose].

Definition price_patterns : list regex :=
  [ lit "$" ++ amount;
    litI "Price:" ++ [ws] ++ lit "$" ++ amount;
    amount ++ [ws] ++ litI "dollar" ++ [ICls (CCharI 115) QOpt] ].

Definition rating_patterns : list regex :=
  [ score ++ [ws] ++ litI "out of 5 stars";
    litI "Rating:" ++ [ws] ++ score;
    score ++ [ws] ++ litI "star" ++ [ICls (CCharI 115) QOpt] ].

Definition bullet_chars : list N := [8226%N; 45%N; 42%N].

Definition pat_feature : regex :=
  [ ICls (CSet bullet_chars) QOne; ws; IOpen;
    ICls (CNot (bullet_chars ++ [10%N])) (QRange 10 100); IClose ].

Definition product_key (i : nat) : pystr := str "product_" ++ dec (i + 1).

Definition print (prefix : pystr) (e : exn) (a : agent) : agent := {|
  current_products := current_products a;
  shopping_session := shopping_session a;
  stdout := stdout a ++ [Printed prefix e]
|}.

(** ** The methods of the agent *)

Section Agent.
Variable U : unicode_db.

(** *** [detect_user_intent] *)

(** The loop over [budget_patterns]: the first pattern that [re.search]
    finds decides, and [int] is applied to its group. *)
Fixpoint budget_loop (ps : list regex) (s : pystr) : result (option Z) :=
  match ps with
  | [] => Ok None
  | p :: ps' =>
      match re_search U p s with
      | Some (caps, _) =>
          match py_int U (group 1 caps) with
          | Some n => Ok (Some n)
          | None => Raise ValueError
          end
      | None => budget_loop ps' s
      end
  end.

Definition set_budget (b : option Z) (sess : Session.t) : Session.t :=
  match b with
  | Some n => {|
      Session.products_viewed := Session.products_viewed sess;
      Session.user_preferences := Session.user_preferences sess;
      Session.budget_range := Some n;
      Session.comparison_mode := Session.comparison_mode sess;
      Session.purchase_intent := Session.purchase_intent sess;
      Session.conversation_context := Session.conversation_context sess
    |}
  | None => sess
  end.

Definition detect_user_intent (user_input : pystr) (sess : Session.t)
  : result (Intent.t * Session.t) :=
  let user_input_lower := py_lower U user_input in
  b ← budget_loop budget_patterns user_input_lower;
  Ok ({| Intent.purchase_intent :=
           existsb (fun k => contains k user_input_lower) purchase_keywords;
         Intent.comparison_request :=
           existsb (fun k => contains k user_input_lower) comparison_keywords;
         Intent.budget_mentioned := b |},
      set_budget b sess).

(** *** [_optimize_for_voice] *)

Definition keep_line (line : pystr) : bool :=
  match line with
  | [] => false
  | _ :: _ => negb (existsb (fun m => startswith m line) list_markers)
  end.

Definition truncate_sentences (result : pystr) : pystr :=
  let sentences := split (str ".") result in
  if 4 <? length sentences
  then join (str ". ") (take 3 sentences) ++ str "."
  else result.

Definition _optimize_for_voice (text : pystr) : pystr :=
  let lines := split [10%N] text in
  let optimized_lines := filter (fun l => keep_line l = true) (map strip lines) in
  let result := join (str " ") optimized_lines in
  let result := foldl (fun r p => strip (re_sub_del U p r)) result special_formats in
  let result := foldl (fun r fc => replace (fst fc) (snd fc) r) result replacements in
  strip (truncate_sentences result).

(** *** [process_response_for_enhanced_features] *)

Definition link_of (m : list pystr) : Link.t := {|
  Link.name := strip (nth 0 m []);
  Link.url := strip (nth 1 m [])
|}.

(** [x.strip() if x else ''] *)
Definition strip_or_empty (x : pystr) : pystr :=
  match x with
  | [] => []
  | _ :: _ => strip x
  end.

Definition card_of (m : list pystr) : Card.t := {|
  Card.name := strip (nth 0 m []);
  Card.url := strip (nth 1 m []);
  Card.price := strip (nth 2 m []);
  Card.rating := strip (nth 3 m []);
  Card.feature1 := strip_or_empty (nth 4 m []);
  Card.feature2 := strip_or_empty (nth 5 m []);
  Card.image_hint := strip_or_empty (nth 6 m [])
|}.

Definition purchase_of (m : list pystr) : Purchase.t := {|
  Purchase.product_name := strip (nth 0 m []);
  Purchase.url := strip (nth 1 m []);
  Purchase.price := strip (nth 2 m [])
|}.

(** One round of the loop over [patterns.items()]. *)
Definition process_pattern (response_text : pystr) (r : Response.t)
    (np : pattern_name * regex) : Response.t :=
  let matches := findall U (snd np) response_text in
  match fst np, matches with
  | _, [] => r
  | display_link, _ :: _ => {|
      Response.spoken_text := Response.spoken_text r;
      Response.links_to_display := map link_of matches;
      Response.product_cards := Response.product_cards r;
      Response.comparison_data := Response.comparison_data r;
      Response.purchase_intent_data := Response.purchase_intent_data r |}
  | product_card, _ :: _ => {|
      Response.spoken_text := Response.spoken_text r;
      Response.links_to_display := Response.links_to_display r;
      Response.product_cards := map card_of matches;
      Response.comparison_data := Response.comparison_data r;
      Response.purchase_intent_data := Response.purchase_intent_data r |}
  | compare_products, m0 :: _ => {|
      Response.spoken_text := Response.spoken_text r;
      Response.links_to_display := Response.links_to_display r;
      Response.product_cards := Response.product_cards r;
      Response.comparison_data := Some (nth 0 m0 []);
      Response.purchase_intent_data := Response.purchase_intent_data r |}
  | purchase_intent, m0 :: _ => {|
      Response.spoken_text := Response.spoken_text r;
      Response.links_to_display := Response.links_to_display r;
      Response.product_cards := Response.product_cards r;
      Response.comparison_data := Response.comparison_data r;
      Response.purchase_intent_data := Some (purchase_of m0) |}
  end.

Definition set_spoken (t : pystr) (r : Response.t) : Response.t := {|
  Response.spoken_text := t;
  Response.links_to_display := Response.links_to_display r;
  Response.product_cards := Response.product_cards r;
  Response.comparison_data := Response.comparison_data r;
  Response.purchase_intent_data := Response.purchase_intent_data r
|}.

Definition process_response_for_enhanced_features (response_text : pystr)
  : Response.t :=
  let processed_response := {|
    Response.spoken_text := response_text;
    Response.links_to_display := [];
    Response.product_cards := [];
    Response.comparison_data := None;
    Response.purchase_intent_data := None |} in
  let processed_response :=
    foldl (process_pattern response_text) processed_response patterns in
  let spoken :=
    foldl (fun t np => re_sub_del U (snd np) t)
          (Response.spoken_text processed_response) patterns in
  set_spoken (_optimize_for_voice spoken) processed_response.

(** *** [_extract_enhanced_product_info] *)

(** [re.search(pattern, content)]: only strings can be searched. *)
Definition py_re_search (r : regex) (content : pyval)
  : result (option (list pystr * pystr)) :=
  match content with
  | VStr s => Ok (re_search U r s)
  | _ => Raise TypeError
  end.

(** [re.findall(pattern, content)] *)
Definition py_re_findall (r : regex) (content : pyval)
  : result (list (list pystr)) :=
  match content with
  | VStr s => Ok (findall U r s)
  | _ => Raise TypeError
  end.

(** [content.lower()]: only strings have [lower]. *)
Definition py_lower_val (content : pyval) : result pystr :=
  match content with
  | VStr s => Ok (py_lower U s)
  | _ => Raise AttributeError
  end.

(** A loop over a list of patterns that stops at the first one found;
    [fmt] builds the field from the group, [default] is the value the
    field had before the loop. *)
Fixpoint first_found (ps : list regex) (content : pyval)
    (fmt : pystr -> pystr) (default : pystr) : result pystr :=
  match ps with
  | [] => Ok default
  | p :: ps' =>
      m ← py_re_search p content;
      match m with
      | Some (caps, _) => Ok (fmt (group 1 caps))
      | None => first_found ps' content fmt default
      end
  end.

(** The body of the [try] block. *)
Definition extract_fields (content url : pyval) : result Product.t :=
  has_title ← py_in (str "Amazon.com:") content;
  name ← (if has_title : bool then
            m ← py_re_search pat_title content;
            match m with
            | Some (caps, _) => Ok (strip (group 1 caps))
            | None => Ok (str "Amazon Product")
            end
          else Ok (str "Amazon Product"));
  price ← first_found price_patterns content
            (fun x => str "$" ++ x) (str "Price not found");
  rating ← first_found rating_patterns content
            (fun x => x ++ str "/5 stars") (str "Rating not found");
  low ← py_lower_val content;
  key_features ←
    (if contains (str "features") low || contains (str "specifications") low
     then fs ← py_re_findall pat_feature content;
          Ok (take 3 (map (fun m => nth 0 m []) fs))
     else Ok []);
  Ok {| Product.url := url;
        Product.name := name;
        Product.price := price;
        Product.rating := rating;
        Product.key_features := key_features;
        Product.availability := str "Check Amazon";
        Product.prime_eligible :=
          contains (str "prime") low
          && (contains (str "eligible") low || contains (str "free") low) |}.

(** The dict returned by the [except] block. *)
Definition fallback_product (url : pyval) : Product.t := {|
  Product.url := url;
  Product.name := str "Amazon Product";
  Product.price := str "See Amazon";
  Product.rating := str "N/A";
  Product.key_features := [];
  Product.availability := str "Check Amazon";
  Product.prime_eligible := false
|}.

Definition _extract_enhanced_product_info (content url : pyval) (a : agent)
  : Product.t * agent :=
  match extract_fields content url with
  | Ok product_info => (product_info, a)
  | Raise e =>
      (fallback_product url, print (str "Error in enhanced extraction: ") e a)
  end.

(** *** [extract_product_info] *)

(** [self.current_products[product_key] = product_info] and
    [products_viewed.append(product_info)]. *)
Definition record_product (product_key : pystr) (product_info : Product.t)
    (a : agent) : agent := {|
  current_products := <[product_key := product_info]> (current_products a);
  shopping_session := {|
    Session.products_viewed :=
      Session.products_viewed (shopping_session a) ++ [product_info];
    Session.user_preferences := Session.user_preferences (shopping_session a);
    Session.budget_range := Session.budget_range (shopping_session a);
    Session.comparison_mode := Session.comparison_mode (shopping_session a);
    Session.purchase_intent := Session.purchase_intent (shopping_session a);
    Session.conversation_context :=
      Session.conversation_context (shopping_session a) |};
  stdout := stdout a
|}.

(** The product of one block of the batch; a block is a dict.  The test
    [if product_info] of the source holds for every product, a dict with
    seven keys. *)
Definition block_product (d : list (pystr * pyval)) (a : agent)
  : Product.t * agent :=
  let url := from_option id (VStr []) (dict_lookup (str "url") d) in
  let content := from_option id (VStr []) (dict_lookup (str "content") d) in
  _extract_enhanced_product_info content url a.

(** [for i, result in enumerate(results)], from index [i] on. *)
Fixpoint products_loop (i : nat) (results : list pyval) (a : agent) : agent :=
  match results with
  | [] => a
  | block :: rest =>
      match block with
      | VDict d =>
          let (product_info, a1) := block_product d a in
          products_loop (S i) rest (record_product (product_key i) product_info a1)
      | _ => products_loop (S i) rest a
      end
  end.

(** [scraped_data['data']] *)
Definition py_getitem (v : pyval) (k : pystr) : result pyval :=
  match v with
  | VDict d =>
      match dict_lookup k d with
      | Some x => Ok x
      | None => Raise KeyError
      end
  | _ => Raise TypeError
  end.

(** The body of the [try] block of [extract_product_info]: the outcome
    and the state it leaves. *)
Definition extract_product_info_body (scraped_data : pyval) (a : agent)
  : result unit * agent :=
  match scraped_data with
  | VDict d =>
      if bool_decide (is_Some (dict_lookup (str "data") d)) then
        match py_getitem scraped_data (str "data") with
        | Ok (VList results) => (Ok tt, products_loop 0 results a)
        | Ok _ => (Ok tt, a)
        | Raise e => (Raise e, a)
        end
      else (Ok tt, a)
  | _ => (Ok tt, a)
  end.

Definition extract_product_info (scraped_data : pyval) (a : agent)
  : result unit * agent :=
  match extract_product_info_body scraped_data a with
  | (Ok x, a') => (Ok x, a')
  | (Raise e, a') => (Ok tt, print (str "Error extracting product info: ") e a')
  end.

(** *** [extract_links] *)

(** The test of the [if] in the loop, with the short-circuit order of
    [and], [or] and [not in]. *)
Definition is_product_url (url : pyval) : result bool :=
  a ← py_in (str "amazon.com") url;
  if a : bool then
    b ← py_in (str "/dp/") url;
    c ← (if b : bool then Ok true else py_in (str "/gp/product/") url);
    if c : bool then
      d ← py_in (str "/s?") url;
      if d : bool then Ok false
      else e ← py_in (str "/b?") url; Ok (negb e)
    else Ok false
  else Ok false.

(** [url.split("?")[0].split("/ref=")[0]] *)
Definition clean_url (url : pyval) : result pystr :=
  u ← py_split_first (str "?") url;
  Ok (split_first (str "/ref=") u).

Fixpoint links_loop (items : list pyval) (amazon_links : list pystr)
  : result (list pystr) :=
  match items with
  | [] => Ok amazon_links
  | item :: rest =>
      url ← py_get item (str "url") (VStr []);
      ok ← is_product_url url;
      if ok : bool then
        c ← clean_url url;
        links_loop rest (amazon_links ++ [c])
      else links_loop rest amazon_links
  end.

(** [list(set(l))]: the distinct elements of [l] in the order in which
    the interpreter's set iterates, which depends on its string hashing. *)
Variable set_to_list : list pystr -> list pystr.

(** [data.get("web", {}).get("results", [])] *)
Definition web_results (search_result : pyval) : result pyval :=
  data ← py_get search_result (str "data") (VDict []);
  web ← py_get data (str "web") (VDict []);
  py_get web (str "results") (VList []).

Definition extract_links (search_result : pyval) : result (list pystr) :=
  results ← web_results search_result;
  items ← py_iter results;
  amazon_links ← links_loop items [];
  Ok (take 5 (set_to_list amazon_links)).
End Agent.

(** * Vocabulary of the statements *)

Definition qmin (q : quant) : nat :=
  match q with
  | QOne | QPlus => 1
  | QOpt | QStar | QLazyStar => 0
  | QRange lo _ => lo
  end.

(** How many times the literal character [c] stands in a pattern. *)
Fixpoint lit_count (c : N) (r : regex) : nat :=
  match r with
  | [] => 0
  | ICls (CChar a) QOne :: r' =>
      (if (a =? c)%N then 1 else 0) + lit_count c r'
  | _ :: r' => lit_count c r'
  end.

Definition group_free (r : regex) : Prop :=
  Forall (fun i => match i with ICls _ _ => True | _ => False end) r.

(** The number that a string of decimal digits spells: a digit with [k]
    digits to its right counts [10 ^ k] times its value. *)
Fixpoint decimal_value (U : unicode_db) (ds : pystr) : Z :=
  match ds with
  | [] => 0
  | d :: ds' =>
      (Z.of_N (from_option id 0%N (digit_value U d)) * 10 ^ Z.of_nat (length ds')
       + decimal_value U ds')%Z
  end.

Definition cleaned (raw : pystr) : pystr :=
  split_first (str "/ref=") (split_first (str "?") raw).

Definition url_test (raw : pystr) : bool :=
  contains (str "amazon.com") raw
  && (contains (str "/dp/") raw || contains (str "/gp/product/") raw)
  && negb (contains (str "/s?") raw) && negb (contains (str "/b?") raw).

(** What the loop adds to [amazon_links]: the cleaned URL of an item
    that passes the test. *)
Definition link_from (items : list pyval) (u : pystr) : Prop :=
  exists item raw,
    item ∈ items
    /\ py_get item (str "url") (VStr []) = Ok (VStr raw)
    /\ url_test raw = true
    /\ u = cleaned raw.

Definition two_hits : pyval :=
  VDict [(str "data", VDict [(str "web", VDict [(str "results", VList
    [ VDict [(str "url", VStr (str "https://www.amazon.com/dp/B01?tag=a"))];
      VDict [(str "url", VStr (str "https://www.amazon.com/dp/B01?psc=1&th=1"))]
    ])])])].

(** Search results with a title beside the URL: the same product found
    twice, and a product found through a redirect service. *)
Definition same_product_twice : pyval :=
  VDict [(str "data", VDict [(str "web", VDict [(str "results", VList
    [ VDict [(str "url", VStr (str "https://www.amazon.com/dp/B01?tag=a"));
             (str "title", VStr (str "Mouse"))];
      VDict [(str "title", VStr (str "Mouse (renewed)"));
             (str "url", VStr (str "https://www.amazon.com/dp/B01?psc=1&th=1"))]
    ])])])].

Definition redirect_hit : pyval :=
  VDict [(str "data", VDict [(str "web", VDict [(str "results", VList
    [ VDict [(str "title", VStr (str "Wireless Mouse - Amazon.com"));
             (str "url",
              VStr (str "https://redirect.viglink.com/?u=https://www.amazon.com/dp/B01"))]
    ])])])].

(** The blocks of a batch that are dicts, in order. *)
Definition dict_blocks (results : list pyval) : list (list (pystr * pyval)) :=
  omap (fun v => match v with VDict d => Some d | _ => None end) results.

(** The product that a block yields. *)
Definition product_of (U : unicode_db) (d : list (pystr * pyval)) : Product.t :=
  let url := from_option id (VStr []) (dict_lookup (str "url") d) in
  let content := from_option id (VStr []) (dict_lookup (str "content") d) in
  match extract_fields U content url with
  | Ok p => p
  | Raise _ => fallback_product url
  end.

(** What a block of a batch yields as its product: the fields read from
    its content when that is a string, and otherwise the product of the
    [except] branch, written out. *)
Definition block_yields (U : unicode_db) (blk : list (pystr * pyval))
    (p : Product.t) : Prop :=
  let url := from_option id (VStr []) (dict_lookup (str "url") blk) in
  match from_option id (VStr []) (dict_lookup (str "content") blk) with
  | VStr s => extract_fields U (VStr s) url = Ok p
  | _ =>
      p = {| Product.url := url;
             Product.name := str "Amazon Product";
             Product.price := str "See Amazon";
             Product.rating := str "N/A";
             Product.key_features := [];
             Product.availability := str "Check Amazon";
             Product.prime_eligible := false |}
  end.

(** A block whose content is not a string. *)
Definition bad_content (d : list (pystr * pyval)) : bool :=
  match from_option id (VStr []) (dict_lookup (str "content") d) with
  | VStr _ => false
  | _ => true
  end.

(** The agent right after construction. *)
Definition new_agent : agent := {|
  current_products := ∅;
  shopping_session := fresh_session;
  stdout := []
|}.

Definition block (u c : string) : pyval :=
  VDict [(str "url", VStr (str u)); (str "content", VStr (str c))].

Definition batch (blocks : list pyval) : pyval :=
  VDict [(str "data", VList blocks)].

Definition first_batch : list pyval :=
  [ block "https://www.amazon.com/dp/A1" "Amazon.com: Mouse | $10";
    block "https://www.amazon.com/dp/A2" "Amazon.com: Keyboard | $20" ].

Definition second_batch : list pyval :=
  [ block "https://www.amazon.com/dp/B1" "Amazon.com: Monitor | $99" ].

(** A marker opens with a bracket and has no other bracket in it. *)
Definition opens_once (m : pystr) : Prop :=
  head m = Some 91%N /\ (91%N ∉ tail m).

Definition compare_directive (a : pystr) : pystr :=
  str "[COMPARE_PRODUCTS:" ++ a ++ str "]".

Definition purchase_directive (n u p : pystr) : pystr :=
  str "[PURCHASE_INTENT:" ++ n ++ str "|" ++ u ++ str "|" ++ p ++ str "]".

Definition link_directive (n u : pystr) : pystr :=
  str "[DISPLAY_LINK:" ++ n ++ str "|" ++ u ++ str "]".

Definition card_directive (n u p r f1 f2 img : pystr) : pystr :=
  str "[PRODUCT_CARD:" ++ n ++ str "|" ++ u ++ str "|" ++ p ++ str "|" ++ r
  ++ str "|" ++ f1 ++ str "|" ++ f2 ++ str "|" ++ img ++ str "]".

(** A card or a link as it stands in the response: the text in front of
    the directive and the fields of the directive. *)
Record card_text := {
  ct_before : pystr;
  ct_name : pystr; ct_url : pystr; ct_price : pystr; ct_rating : pystr;
  ct_feature1 : pystr; ct_feature2 : pystr; ct_image_hint : pystr
}.

Record link_text := { lt_before : pystr; lt_name : pystr; lt_url : pystr }.

Definition card_text_ok (c : card_text) : Prop :=
  contains (str "[PRODUCT_CARD:") (ct_before c) = false
  /\ lstrip (ct_name c) <> [] /\ (124%N ∉ ct_name c)
  /\ ct_url c <> [] /\ (124%N ∉ ct_url c)
  /\ ct_price c <> [] /\ (124%N ∉ ct_price c)
  /\ ct_rating c <> [] /\ (124%N ∉ ct_rating c)
  /\ (124%N ∉ ct_feature1 c) /\ (124%N ∉ ct_feature2 c)
  /\ (93%N ∉ ct_image_hint c).

Definition link_text_ok (l : link_text) : Prop :=
  contains (str "[DISPLAY_LINK:") (lt_before l) = false
  /\ lstrip (lt_name l) <> [] /\ (124%N ∉ lt_name l)
  /\ lstrip (lt_url l) <> [] /\ (93%N ∉ lt_url l).

Definition render_card (c : card_text) : pystr :=
  ct_before c
  ++ card_directive (ct_name c) (ct_url c) (ct_price c) (ct_rating c)
       (ct_feature1 c) (ct_feature2 c) (ct_image_hint c).

Definition render_link (l : link_text) : pystr :=
  lt_before l ++ link_directive (lt_name l) (lt_url l).

Definition card_record (c : card_text) : Card.t := {|
  Card.name := strip (ct_name c);
  Card.url := strip (ct_url c);
  Card.price := strip (ct_price c);
  Card.rating := strip (ct_rating c);
  Card.feature1 := strip_or_empty (ct_feature1 c);
  Card.feature2 := strip_or_empty (ct_feature2 c);
  Card.image_hint := strip_or_empty (ct_image_hint c)
|}.

Definition link_record (l : link_text) : Link.t := {|
  Link.name := strip (lt_name l);
  Link.url := strip (lt_url l)
|}.

Definition count (c : N) (s : pystr) : nat := count_occ N.eq_dec s c.

Definition not_newline (c : N) : Prop := c <> 10%N.

(** ** Vocabulary of the further properties *)

(** A decimal number as the price and rating patterns capture it: digits,
    then possibly a point, then possibly more digits. *)
Definition is_amount (U : unicode_db) (x : pystr) : Prop :=
  exists ds dot fs,
    x = ds ++ dot ++ fs
    /\ ds <> [] /\ Forall (fun c => is_digit U c = true) ds
    /\ (dot = [] \/ dot = [46%N])
    /\ Forall (fun c => is_digit U c = true) fs.

(** The same with a single digit in front of the point. *)
Definition is_score (U : unicode_db) (x : pystr) : Prop :=
  exists d dot fs,
    x = d :: dot ++ fs
    /\ is_digit U d = true
    /\ (dot = [] \/ dot = [46%N])
    /\ Forall (fun c => is_digit U c = true) fs.


(** A stretch of [s] that consists of decimal digits. *)
Definition digit_run (U : unicode_db) (ds s : pystr) : Prop :=
  Forall (fun c => is_digit U c = true) ds
  /\ exists t t', s = t ++ ds ++ t'.

(** The group of the first pattern of a list that is found in [s]. *)
Fixpoint first_group (U : unicode_db) (ps : list regex) (s : pystr)
  : option pystr :=
  match ps with
  | [] => None
  | p :: ps' =>
      match re_search U p s with
      | Some (caps, _) => Some (group 1 caps)
      | None => first_group U ps' s
      end
  end.

(** A search result that the loop of [extract_links] gets through: a
    dict whose "url", if present, is a string. *)
Definition link_item_ok (item : pyval) : Prop :=
  exists d, item = VDict d
            /\ (dict_lookup (str "url") d = None
                \/ exists s, dict_lookup (str "url") d = Some (VStr s)).

(** A value that has no [in]: None, a boolean or a number. *)
Definition not_iterable (v : pyval) : bool :=
  match v with
  | VNone | VBool _ | VInt _ | VFloat _ _ => true
  | _ => false
  end.

(** A response as the model is asked to write it: stretches of text and
    directives of the four kinds. *)
Inductive segment :=
| Text (t : pystr)
| LinkD (n u : pystr)
| CardD (n u p r f1 f2 img : pystr)
| CompareD (a : pystr)
| PurchaseD (n u p : pystr).

Definition render_segment (g : segment) : pystr :=
  match g with
  | Text t => t
  | LinkD n u => link_directive n u
  | CardD n u p r f1 f2 img => card_directive n u p r f1 f2 img
  | CompareD a => compare_directive a
  | PurchaseD n u p => purchase_directive n u p
  end.

Definition render (gs : list segment) : pystr :=
  concat (map render_segment gs).

(** The directive that a segment is, if any. *)
Definition segment_kind (g : segment) : option pattern_name :=
  match g with
  | Text _ => None
  | LinkD _ _ => Some display_link
  | CardD _ _ _ _ _ _ _ => Some product_card
  | CompareD _ => Some compare_products
  | PurchaseD _ _ _ => Some purchase_intent
  end.

Definition is_kind (k : pattern_name) (g : segment) : bool :=
  match segment_kind g, k with
  | Some display_link, display_link
  | Some product_card, product_card
  | Some compare_products, compare_products
  | Some purchase_intent, purchase_intent => true
  | _, _ => false
  end.

Definition pattern_of (k : pattern_name) : regex :=
  match k with
  | display_link => pat_display_link
  | product_card => pat_product_card
  | compare_products => pat_compare_products
  | purchase_intent => pat_purchase_intent
  end.

(** Well-formed segments: no opening bracket in a text or in a field, no
    separator inside a field, and the required fields not blank. *)
Definition segment_ok (g : segment) : Prop :=
  match g with
  | Text t => 91%N ∉ t
  | LinkD n u =>
      lstrip n <> [] /\ (124%N ∉ n) /\ lstrip u <> [] /\ (93%N ∉ u)
      /\ (91%N ∉ n ++ u)
  | CardD n u p r f1 f2 img =>
      lstrip n <> [] /\ (124%N ∉ n) /\ u <> [] /\ (124%N ∉ u)
      /\ p <> [] /\ (124%N ∉ p) /\ r <> [] /\ (124%N ∉ r)
      /\ (124%N ∉ f1) /\ (124%N ∉ f2) /\ (93%N ∉ img)
      /\ (91%N ∉ n ++ u ++ p ++ r ++ f1 ++ f2 ++ img)
  | CompareD a => lstrip a <> [] /\ (93%N ∉ a) /\ (91%N ∉ a)
  | PurchaseD n u p =>
      lstrip n <> [] /\ (124%N ∉ n) /\ lstrip u <> [] /\ (124%N ∉ u)
      /\ lstrip p <> [] /\ (93%N ∉ p) /\ (91%N ∉ n ++ u ++ p)
  end.

(** The groups that the pattern of a directive captures in it. *)
Definition segment_groups (g : segment) : list pystr :=
  match g with
  | Text _ => []
  | LinkD n u => [lstrip n; lstrip u]
  | CardD n u p r f1 f2 img => [lstrip n; u; p; r; f1; f2; img]
  | CompareD a => [lstrip a]
  | PurchaseD n u p => [lstrip n; lstrip u; lstrip p]
  end.

Definition segments_of (k : pattern_name) (gs : list segment) : list segment :=
  filter (fun g => is_kind k g = true) gs.

Definition segments_but (k : pattern_name) (gs : list segment) : list segment :=
  filter (fun g => is_kind k g = false) gs.

Definition segment_link (g : segment) : option Link.t :=
  match g with
  | LinkD n u => Some {| Link.name := strip n; Link.url := strip u |}
  | _ => None
  end.

Definition segment_card (g : segment) : option Card.t :=
  match g with
  | CardD n u p r f1 f2 img =>
      Some {| Card.name := strip n; Card.url := strip u;
              Card.price := strip p; Card.rating := strip r;
              Card.feature1 := strip_or_empty f1;
              Card.feature2 := strip_or_empty f2;
              Card.image_hint := strip_or_empty img |}
  | _ => None
  end.

Definition segment_comparison (g : segment) : option pystr :=
  match g with
  | CompareD a => Some (lstrip a)
  | _ => None
  end.

Definition segment_purchase (g : segment) : option Purchase.t :=
  match g with
  | PurchaseD n u p =>
      Some {| Purchase.product_name := strip n; Purchase.url := strip u;
              Purchase.price := strip p |}
  | _ => None
  end.

Definition segment_text (g : segment) : option pystr :=
  match g with
  | Text t => Some t
  | _ => None
  end.

(** * The conversation

    [chat] talks to two services: the chat service, asked with
    [client.messages.create], and the tool executor, asked with
    [aci.handle_function_call].  What they answer is not in the hands of
    the program: the n-th answer of each is a parameter of the model, and
    the requests made are logged. *)

Inductive role := user | assistant.

(** The text that [json.dumps] makes of a value, represented by the
    value. *)
Inductive json := json_dumps (v : pyval).

(** The content of a message of the transcript: a string, a tool-use
    block or a tool-result block. *)
Inductive content :=
| text_content (text : pystr)
| tool_use (id name : pystr) (input : pyval)
| tool_result (tool_use_id : pystr) (tool_content : json).

Module Message.
Record t := { role : role; content : content }.
End Message.

(** The last content block of a response of the chat service.  A block
    that is neither text nor a tool use has no [text] attribute. *)
Inductive content_block :=
| text_block (text : pystr)
| tool_use_block (id name : pystr) (input : pyval)
| other_block.

(** An exception: one that the program itself raises, or one of a
    service. *)
Inductive failure := Raised (e : exn) | ServiceError.

(** How a call ends: with a value, with an exception, or not within the
    rounds that the model runs. *)
Inductive outcome (A : Type) :=
| Returned (a : A)
| Failed (f : failure)
| OutOfFuel.
Arguments Returned {A} a.
Arguments Failed {A} f.
Arguments OutOfFuel {A}.

(** The agent with its transcript, and the log of the requests made to
    the chat service (system prompt and transcript sent) and to the tool
    executor (name and input). *)
Record conversation := {
  agent_of : agent;
  messages : list Message.t;
  requests : list (pystr * list Message.t);
  tool_calls : list (pystr * pyval)
}.

(** The two turns that [reset] puts at the head of the transcript. *)
Definition primer : pystr :=
  str "You are a friendly, conversational personal shopping "
  ++ str "assistant having a VOICE conversation with a customer. "
  ++ str "ENHANCED CAPABILITIES:"
  ++ [10%N]
  ++ str "- Detect purchase intent: 'I want this', 'add to cart', 'buy "
  ++ str "this one', 'I'll take it'"
  ++ [10%N]
  ++ str "- Offer comparisons: 'compare these', 'show differences', "
  ++ str "'which is better'"
  ++ [10%N]
  ++ str "- Extract preferences: budget, brand preferences, use cases, "
  ++ str "priorities"
  ++ [10%N]
  ++ str "- Remember context: reference previous products and "
  ++ str "conversations"
  ++ [10%N]
  ++ str "- Handle interruptions: if user changes topic, adapt smoothly"
  ++ [10%N]
  ++ [10%N]
  ++ str "VOICE CONVERSATION RULES:"
  ++ [10%N]
  ++ str "- Keep responses short, natural, and conversational (2-3 "
  ++ str "sentences max initially)"
  ++ [10%N]
  ++ str "- Speak like a helpful friend, not a formal assistant"
  ++ [10%N]
  ++ str "- Use casual language and contractions ('I'll', 'let's', "
  ++ str "'that's')"
  ++ [10%N]
  ++ str "- Ask ONE question at a time, not numbered lists"
  ++ [10%N]
  ++ str "- Show enthusiasm and personality"
  ++ [10%N]
  ++ str "- When you find products, describe them conversationally like "
  ++ str "you're showing them to a friend"
  ++ [10%N]
  ++ str "- Keep the conversation flowing naturally"
  ++ [10%N]
  ++ str "- NEVER read URLs out loud - instead say you'll display them "
  ++ str "or send them"
  ++ [10%N]
  ++ [10%N]
  ++ str "PURCHASE INTENT HANDLING:"
  ++ [10%N]
  ++ str "- When user shows purchase intent, respond: 'Perfect! I'll "
  ++ str "help you get that ordered. Let me show you the checkout "
  ++ str "options!'"
  ++ [10%N]
  ++ str "- Then use format: [PURCHASE_INTENT: product_name | url | "
  ++ str "price]"
  ++ [10%N]
  ++ [10%N]
  ++ str "COMPARISON MODE:"
  ++ [10%N]
  ++ str "- When requested, use format: [COMPARE_PRODUCTS: "
  ++ str "product1_name|url|price|key_features vs "
  ++ str "product2_name|url|price|key_features]"
  ++ [10%N]
  ++ [10%N]
  ++ str "LINK HANDLING:"
  ++ [10%N]
  ++ str "- For single links: [DISPLAY_LINK: product_name | url]"
  ++ [10%N]
  ++ str "- For product cards: [PRODUCT_CARD: "
  ++ str "name|url|price|rating|key_feature1|key_feature2|image_hint]"
  ++ [10%N]
  ++ [10%N]
  ++ str "Your workflow:"
  ++ [10%N]
  ++ str "1. Extract user preferences and budget from conversation"
  ++ [10%N]
  ++ str "2. Use BRAVE_SEARCH__WEB_SEARCH to find Amazon product links"
  ++ [10%N]
  ++ str "3. Use FIRECRAWL__BATCH_SCRAPE to get detailed product info"
  ++ [10%N]
  ++ str "4. Present findings as rich product cards with comparisons"
  ++ [10%N]
  ++ str "5. Detect purchase intent and guide to checkout"
  ++ [10%N]
  ++ str "6. Store product info and session context"
  ++ [10%N]
  ++ [10%N]
  ++ str "Always greet the user warmly when starting.".

Definition greeting : pystr :=
  str "Hey there! I'm your personal shopping assistant, and I'm "
  ++ str "super excited to help you find exactly what you're looking "
  ++ str "for on Amazon today. What can I help you discover?".

(** The system prompt of the first request of a turn and of the requests
    that follow a tool result. *)
Definition voice_system_prompt (context_info : pystr) : pystr :=
  str "You are having a natural VOICE conversation as a personal "
  ++ str "shopping assistant. SESSION CONTEXT: "
  ++ context_info
  ++ str "Key voice conversation rules:"
  ++ [10%N]
  ++ str "- Keep responses conversational and concise (2-4 sentences)"
  ++ [10%N]
  ++ str "- Use natural speech patterns with contractions and casual "
  ++ str "language"
  ++ [10%N]
  ++ str "- Sound enthusiastic and helpful like a friend helping to shop"
  ++ [10%N]
  ++ str "- Ask ONE specific question at a time, never numbered lists"
  ++ [10%N]
  ++ str "- When presenting products, use [PRODUCT_CARD: "
  ++ str "name|url|price|rating|feature1|feature2|image_hint]"
  ++ [10%N]
  ++ str "- For purchase intent, use [PURCHASE_INTENT: product_name | "
  ++ str "url | price]"
  ++ [10%N]
  ++ str "- For comparisons, use [COMPARE_PRODUCTS: "
  ++ str "detailed_comparison_text]"
  ++ [10%N]
  ++ str "- NEVER speak URLs out loud - they're for the display system"
  ++ [10%N]
  ++ str "- Remember previous products and user preferences in "
  ++ str "conversation"
  ++ [10%N]
  ++ str "Remember: This is AUDIO - they're hearing you speak, not "
  ++ str "reading text!".

Definition followup_system_prompt (context_info : pystr) : pystr :=
  str "Continue the voice conversation naturally. You just received "
  ++ str "tool results. SESSION CONTEXT: "
  ++ context_info
  ++ str "If you found products, show them as rich product cards with "
  ++ str "[PRODUCT_CARD: format]. If user showed purchase intent, use "
  ++ str "[PURCHASE_INTENT: format]. If comparison requested, use "
  ++ str "[COMPARE_PRODUCTS: format]. Remember: NEVER speak URLs - use "
  ++ str "display formats for all visual elements. Keep it "
  ++ str "conversational and flowing - this is a voice chat!".

Definition no_products_message : pystr :=
  str "No specific products found in this search. Let me try a "
  ++ str "different approach or get more details.".

(** [reset], with the transcript. *)
Definition reset_conversation (c : conversation) : conversation := {|
  agent_of := reset (agent_of c);
  messages := [ {| Message.role := user; Message.content := text_content primer |};
                {| Message.role := assistant;
                   Message.content := text_content greeting |} ];
  requests := requests c;
  tool_calls := tool_calls c
|}.

Definition append_message (m : Message.t) (c : conversation) : conversation := {|
  agent_of := agent_of c;
  messages := messages c ++ [m];
  requests := requests c;
  tool_calls := tool_calls c
|}.

Definition set_agent (a : agent) (c : conversation) : conversation := {|
  agent_of := a;
  messages := messages c;
  requests := requests c;
  tool_calls := tool_calls c
|}.

(** An integer in an f-string. *)
Definition dec_int (z : Z) : pystr :=
  if (z <? 0)%Z then str "-" ++ dec (Z.to_nat (- z)) else dec (Z.to_nat z).

(** [conversation_context.append(...)]; the constant timestamp is left
    out. *)
Definition add_context (user_input : pystr) (intent : Intent.t)
    (sess : Session.t) : Session.t := {|
  Session.products_viewed := Session.products_viewed sess;
  Session.user_preferences := Session.user_preferences sess;
  Session.budget_range := Session.budget_range sess;
  Session.comparison_mode := Session.comparison_mode sess;
  Session.purchase_intent := Session.purchase_intent sess;
  Session.conversation_context :=
    Session.conversation_context sess ++ [(user_input, intent)]
|}.

Definition set_session (sess : Session.t) (a : agent) : agent := {|
  current_products := current_products a;
  shopping_session := sess;
  stdout := stdout a
|}.

(** The session context of the system prompts.  A budget of 0 and an
    empty list of products count as absent. *)
Definition context_info (sess : Session.t) (intent : Intent.t) : pystr :=
  (match Session.budget_range sess with
   | Some n =>
       if (n =? 0)%Z then []
       else str "User budget: $" ++ dec_int n ++ str ". "
   | None => []
   end)
  ++ (match Session.products_viewed sess with
      | [] => []
      | _ :: _ =>
          str "Products discussed: "
          ++ dec (length (Session.products_viewed sess)) ++ str " items. "
      end)
  ++ (if Intent.purchase_intent intent
      then str "User showing PURCHASE INTENT - guide to checkout! " else [])
  ++ (if Intent.comparison_request intent
      then str "User wants to COMPARE products - show comparison! " else []).

Section Chat.
Variable U : unicode_db.
Variable set_to_list : list pystr -> list pystr.

(** The answers of the services: the last block of the n-th response of
    the chat service and the result of the n-th tool call; [None] when
    the call raises. *)
Variable create : nat -> option content_block.
Variable handle_function_call : nat -> option pyval.

Definition create_message (system : pystr) (c : conversation)
  : option content_block * conversation :=
  (create (length (requests c)),
   {| agent_of := agent_of c;
      messages := messages c;
      requests := requests c ++ [(system, messages c)];
      tool_calls := tool_calls c |}).

Definition handle_tool_call (name : pystr) (input : pyval) (c : conversation)
  : option pyval * conversation :=
  (handle_function_call (length (tool_calls c)),
   {| agent_of := agent_of c;
      messages := messages c;
      requests := requests c;
      tool_calls := tool_calls c ++ [(name, input)] |}).

(** What is done with the result of a tool and what goes into the
    transcript for it. *)
Definition tool_content (name : pystr) (tool_result_data : pyval) (a : agent)
  : result pyval * agent :=
  if pystr_eqb name (str "BRAVE_SEARCH__WEB_SEARCH") then
    (product_links ← extract_links set_to_list tool_result_data;
     Ok (match product_links with
         | _ :: _ => VDict [(str "links", VList (map VStr product_links))]
         | [] => VDict [(str "message", VStr no_products_message)]
         end),
     a)
  else if pystr_eqb name (str "FIRECRAWL__BATCH_SCRAPE") then
    let (r, a') := extract_product_info U tool_result_data a in
    (_ ← r; Ok tool_result_data, a')
  else (Ok tool_result_data, a).

(** The [while] loop of [chat], for at most [fuel] tool uses. *)
Fixpoint tool_loop (fuel : nat) (context_info : pystr)
    (response_message : content_block) (c : conversation)
  : outcome pystr * conversation :=
  match response_message with
  | tool_use_block id name input =>
      match fuel with
      | O => (OutOfFuel, c)
      | S fuel' =>
          let c := append_message
                     {| Message.role := assistant;
                        Message.content := tool_use id name input |} c in
          match handle_tool_call name input c with
          | (None, c) => (Failed ServiceError, c)
          | (Some tool_result_data, c) =>
              match tool_content name tool_result_data (agent_of c) with
              | (Raise e, a) => (Failed (Raised e), set_agent a c)
              | (Ok content, a) =>
                  let c := append_message
                             {| Message.role := user;
                                Message.content :=
                                  tool_result id (json_dumps content) |}
                             (set_agent a c) in
                  match create_message (followup_system_prompt context_info) c with
                  | (None, c) => (Failed ServiceError, c)
                  | (Some b, c) => tool_loop fuel' context_info b c
                  end
              end
          end
      end
  | text_block text => (Returned text, c)
  | other_block => (Failed (Raised AttributeError), c)
  end.

Definition chat (fuel : nat) (user_input : pystr) (c : conversation)
  : outcome Response.t * conversation :=
  match detect_user_intent U user_input (shopping_session (agent_of c)) with
  | Raise e => (Failed (Raised e), c)
  | Ok (intent, sess) =>
      let a := set_session (add_context user_input intent sess) (agent_of c) in
      let c := append_message
                 {| Message.role := user;
                    Message.content := text_content user_input |}
                 (set_agent a c) in
      let context_info := context_info (shopping_session a) intent in
      match create_message (voice_system_prompt context_info) c with
      | (None, c) => (Failed ServiceError, c)
      | (Some b, c) =>
          match tool_loop fuel context_info b c with
          | (Returned final_response_text, c) =>
              (Returned
                 (process_response_for_enhanced_features U final_response_text),
               append_message
                 {| Message.role := assistant;
                    Message.content := text_content final_response_text |} c)
          | (Failed f, c) => (Failed f, c)
          | (OutOfFuel, c) => (OutOfFuel, c)
          end
      end
  end.
End Chat.

(** The conversation of a new agent; the constructor ends with
    [reset]. *)
Definition new_conversation : conversation :=
  reset_conversation
    {| agent_of := new_agent; messages := []; requests := []; tool_calls := [] |}.


(** One tool use of a turn as the transcript shows it: the tool-use
    block and the content of the result that answers it. *)
Record round := {
  round_id : pystr;
  round_name : pystr;
  round_input : pyval;
  round_content : pyval
}.

Definition round_messages (r : round) : list Message.t :=
  [ {| Message.role := assistant;
       Message.content := tool_use (round_id r) (round_name r) (round_input r) |};
    {| Message.role := user;
       Message.content := tool_result (round_id r) (json_dumps (round_content r)) |} ].

(** What the transcript holds for a search: the notice that nothing was
    found or one to five links. *)
Definition search_content (v : pyval) : Prop :=
  v = VDict [(str "message", VStr no_products_message)]
  \/ exists links, links <> [] /\ length links <= 5
                   /\ v = VDict [(str "links", VList (map VStr links))].

(** The agent after some tool results: products were added, nothing
    else of the session was touched. *)
Definition agent_extends (a a' : agent) : Prop :=
  Session.user_preferences (shopping_session a')
    = Session.user_preferences (shopping_session a)
  /\ Session.budget_range (shopping_session a')
     = Session.budget_range (shopping_session a)
  /\ Session.comparison_mode (shopping_session a')
     = Session.comparison_mode (shopping_session a)
  /\ Session.purchase_intent (shopping_session a')
     = Session.purchase_intent (shopping_session a)
  /\ Session.conversation_context (shopping_session a')
     = Session.conversation_context (shopping_session a)
  /\ (exists new,
        Session.products_viewed (shopping_session a')
        = Session.products_viewed (shopping_session a) ++ new)
  /\ (forall k, is_Some (current_products a !! k) ->
                is_Some (current_products a' !! k)).

Definition is_text_message (m : Message.t) : bool :=
  match Message.content m with
  | text_content _ => true
  | _ => false
  end.

(** The transcript is a sequence of pairs of a user turn and an
    assistant turn. *)
Fixpoint alternating (l : list Message.t) : bool :=
  match l with
  | [] => true
  | m1 :: m2 :: l' =>
      match Message.role m1, Message.role m2 with
      | user, assistant => alternating l'
      | _, _ => false
      end
  | [_] => false
  end.

(** The result of a search is in the transcript as [search_content];
    the result of any other tool as the executor gave it. *)
Definition round_ok (handle_function_call : nat -> option pyval) (r : round)
  : Prop :=
  if pystr_eqb (round_name r) (str "BRAVE_SEARCH__WEB_SEARCH")
  then search_content (round_content r)
  else exists n, handle_function_call n = Some (round_content r).

(** What a turn that does not return may leave at the end of the
    transcript: a tool use without its result. *)
Definition pending_ok {A} (o : outcome A) (pending : list Message.t) : Prop :=
  match o with
  | Returned _ => pending = []
  | _ => pending = []
         \/ exists id name input,
              pending = [ {| Message.role := assistant;
                             Message.content := tool_use id name input |} ]
  end.

Definition user_says (u : pystr) : Message.t :=
  {| Message.role := user; Message.content := text_content u |}.

Definition assistant_says (t : pystr) : Message.t :=
  {| Message.role := assistant; Message.content := text_content t |}.

(** A service that asks for one search and then answers, and a tool
    executor that finds the same product twice. *)
Definition demo_create (n : nat) : option content_block :=
  match n with
  | O => Some (tool_use_block (str "toolu_1") (str "BRAVE_SEARCH__WEB_SEARCH")
                 (VDict [(str "query", VStr (str "wireless mouse"))]))
  | S _ => Some (text_block
                   (str "Found one! [DISPLAY_LINK: Mouse | https://www.amazon.com/dp/B01]"))
  end.

Definition demo_tools (n : nat) : option pyval := Some two_hits.

Definition demo_turn : outcome Response.t * conversation :=
  chat ascii_db remove_dups demo_create demo_tools 1
    (str "a wireless mouse under $30") new_conversation.

Definition demo_response : Response.t :=
  process_response_for_enhanced_features ascii_db
    (str "Found one! [DISPLAY_LINK: Mouse | https://www.amazon.com/dp/B01]").

(** * The web socket server ([main.py])

    The server talks to the client through the web socket and to the
    speech service.  Whether a send goes through and what the speech
    service gives are parameters of the model, call by call; what the
    server does is recorded as a trace of events.  Log messages are left
    out. *)

(** The JSON messages of [handle_enhanced_features], represented by what
    they encode. *)
Inductive feature :=
| product_cards_feature (cards : list Card.t)
| purchase_intent_feature (product : Purchase.t)
| comparison_feature (data : pystr)
| display_links_feature (links : list Link.t).

Inductive frame :=
| text_frame (s : pystr)          (* send_text of a string *)
| json_frame (m : feature)        (* send_text(json.dumps(m)) *)
| bytes_frame (b : list Byte.byte). (* send_bytes *)

Inductive event :=
| sent (f : frame)
| send_failed (f : frame)
| slept (ms : N)                  (* asyncio.sleep, in milliseconds *)
| tts_called (text : pystr).      (* text_to_speech.convert *)

(** How the n-th send ends: it goes through, or it raises
    WebSocketDisconnect or another exception. *)
Inductive send_result := delivered | disconnected | send_error.

Definition is_send (e : event) : bool :=
  match e with
  | sent _ | send_failed _ => true
  | _ => false
  end.

Definition is_tts (e : event) : bool :=
  match e with
  | tts_called _ => true
  | _ => false
  end.

Definition sends (tr : list event) : nat := length (filter (fun e => is_send e = true) tr).
Definition tts_calls (tr : list event) : nat := length (filter (fun e => is_tts e = true) tr).

Definition max_retries : nat := 2.

Definition audio_fallback (text : pystr) : pystr :=
  str "I'm having trouble with audio right now. " ++ text.

Section Server.
Variable socket : nat -> send_result.

(** What the n-th call of the speech service streams: the chunks, or
    [None] when the call or the stream raises. *)
Variable text_to_speech : nat -> option (list (list Byte.byte)).

(** [await websocket.send_text(...)] or [send_bytes(...)]: the frame
    goes out or the call raises. *)
Definition send (f : frame) (tr : list event) : bool * list event :=
  match socket (sends tr) with
  | delivered => (true, tr ++ [sent f])
  | _ => (false, tr ++ [send_failed f])
  end.

(** A send followed by a pause. *)
Definition send_and_sleep (f : frame) (ms : N) (tr : list event)
  : bool * list event :=
  match send f tr with
  | (true, tr) => (true, tr ++ [slept ms])
  | (false, tr) => (false, tr)
  end.

(** [handle_enhanced_features]: the body of the [try]; an exception
    ends it and is logged. *)
Definition handle_enhanced_features (agent_response : Response.t)
    (tr : list event) : list event :=
  match
    match Response.product_cards agent_response with
    | _ :: _ =>
        send_and_sleep
          (json_frame (product_cards_feature (Response.product_cards agent_response)))
          300%N tr
    | [] => (true, tr)
    end
  with
  | (false, tr) => tr
  | (true, tr) =>
  match
    match Response.purchase_intent_data agent_response with
    | Some product =>
        send_and_sleep (json_frame (purchase_intent_feature product)) 200%N tr
    | None => (true, tr)
    end
  with
  | (false, tr) => tr
  | (true, tr) =>
  match
    match Response.comparison_data agent_response with
    | Some (c :: data) =>
        send_and_sleep (json_frame (comparison_feature (c :: data))) 200%N tr
    | _ => (true, tr)
    end
  with
  | (false, tr) => tr
  | (true, tr) =>
  match Response.links_to_display agent_response,
        Response.product_cards agent_response with
  | _ :: _, [] =>
      snd (send_and_sleep
             (json_frame (display_links_feature
                            (Response.links_to_display agent_response)))
             200%N tr)
  | _, _ => tr
  end
  end
  end
  end.

(** One attempt of [generate_and_send_audio]: [true] when the audio went
    out, [false] when the attempt raised. *)
Definition tts_attempt (text : pystr) (tr : list event) : bool * list event :=
  let audio_stream := text_to_speech (tts_calls tr) in
  let tr := tr ++ [tts_called text] in
  match audio_stream with
  | None => (false, tr)
  | Some audio_bytes_list =>
      if (length audio_bytes_list =? 0)%nat then (false, tr)
      else
        let full_audio_bytes := concat audio_bytes_list in
        if (length full_audio_bytes <? 100)%nat then (false, tr)
        else send (bytes_frame full_audio_bytes) tr
  end.

(** [for attempt in range(max_retries)], with [attempts_left] attempts to
    go: [true] when an attempt returned, [false] when the last one
    raised. *)
Fixpoint tts_attempts (attempts_left : nat) (text : pystr) (tr : list event)
  : bool * list event :=
  match attempts_left with
  | O => (true, tr)
  | S n =>
      match tts_attempt text tr with
      | (true, tr) => (true, tr)
      | (false, tr) =>
          match n with
          | O => (false, tr)
          | S _ => tts_attempts n text (tr ++ [slept 1000%N])
          end
      end
  end.

Definition generate_and_send_audio (text : pystr) (tr : list event)
  : list event :=
  match tts_attempts max_retries text tr with
  | (true, tr) => tr
  | (false, tr) => snd (send (text_frame (audio_fallback text)) tr)
  end.
End Server.

(** The features that a response calls for, in the order in which they
    are sent, each with the pause after it. *)
Definition features_of (r : Response.t) : list (feature * N) :=
  (match Response.product_cards r with
   | _ :: _ => [(product_cards_feature (Response.product_cards r), 300%N)]
   | [] => []
   end)
  ++ (match Response.purchase_intent_data r with
      | Some p => [(purchase_intent_feature p, 200%N)]
      | None => []
      end)
  ++ (match Response.comparison_data r with
      | Some (c :: data) => [(comparison_feature (c :: data), 200%N)]
      | _ => []
      end)
  ++ (match Response.links_to_display r, Response.product_cards r with
      | _ :: _, [] => [(display_links_feature (Response.links_to_display r), 200%N)]
      | _, _ => []
      end).

Definition feature_events (fs : list (feature * N)) : list event :=
  flat_map (fun fm => [sent (json_frame (fst fm)); slept (snd fm)]) fs.

(** Chunks that make an audio worth sending. *)
Definition usable (chunks : option (list (list Byte.byte))) : bool :=
  match chunks with
  | Some (c :: cs) => (100 <=? length (concat (c :: cs)))%nat
  | _ => false
  end.

Definition audio_of (chunks : option (list (list Byte.byte))) : frame :=
  bytes_frame (concat (from_option id [] chunks)).

(** The events of one attempt to speak: the call of the speech service
    and, when it gave a usable audio, the send. *)
Definition attempt_events (text : pystr)
    (chunks : option (list (list Byte.byte))) (s : send_result) : list event :=
  tts_called text
  :: (if usable chunks
      then [match s with
            | delivered => sent (audio_of chunks)
            | _ => send_failed (audio_of chunks)
            end]
      else []).

Definition attempt_succeeds (chunks : option (list (list Byte.byte)))
    (s : send_result) : bool :=
  usable chunks && match s with delivered => true | _ => false end.

Definition is_sent (e : event) : bool :=
  match e with
  | sent _ => true
  | _ => false
  end.

(** Sending a list of features until a send fails. *)
Fixpoint send_features (socket : nat -> send_result)
    (fs : list (feature * N)) (tr : list event)
  : list event :=
  match fs with
  | [] => tr
  | (m, ms) :: fs' =>
      match send_and_sleep socket (json_frame m) ms tr with
      | (true, tr) => send_features socket fs' tr
      | (false, tr) => tr
      end
  end.

(** A socket that has gone away and a speech service that always gives
    120 bytes, for the examples. *)
Definition dead_socket (n : nat) : send_result := disconnected.

Definition steady_speech (n : nat) : option (list (list Byte.byte)) :=
  Some [replicate 60 Byte.x00; replicate 60 Byte.x00].

(** ** A message with audio

    One round of the loop of [websocket_endpoint] for a received message
    that holds bytes; the commands that come as text are left out.  The
    n-th answer of the speech-to-text service is a parameter like the
    other services. *)

Record server := {
  conversation_of : conversation;
  trace : list event;
  transcriptions : nat       (* calls of speech_to_text.convert so far *)
}.

(** How the round ends: the loop goes on, the loop is left, or the turn
    of the agent did not end within the rounds that the model runs. *)
Inductive control := continue | break | unfinished.

Definition audio_too_short : pystr :=
  str "Audio too short. Please speak for at least 1 second.".

Definition not_caught : pystr :=
  str "I didn't catch that. Could you please speak again?".

Definition audio_trouble : pystr :=
  str "Sorry, I had trouble processing your audio. Please try again.".

Definition error_occurred : pystr :=
  str "An error occurred. Please try again.".

Section Endpoint.
Variable U : unicode_db.
Variable set_to_list : list pystr -> list pystr.
Variable create : nat -> option content_block.
Variable handle_function_call : nat -> option pyval.
Variable socket : nat -> send_result.
Variable text_to_speech : nat -> option (list (list Byte.byte)).
Variable speech_to_text : nat -> option pystr.
Variable fuel : nat.

(** [await websocket.send_text(s)] *)
Definition send_text (s : pystr) (sv : server) : send_result * server :=
  let r := socket (sends (trace sv)) in
  (r,
   {| conversation_of := conversation_of sv;
      trace := trace sv
               ++ [match r with
                   | delivered => sent (text_frame s)
                   | _ => send_failed (text_frame s)
                   end];
      transcriptions := transcriptions sv |}).

(** An exception in the branch: the handler of the branch tells the
    client; when that send fails in its turn, the handlers of the loop
    take over: a disconnect leaves the loop, any other exception is told
    to the client, and the loop is left when that fails too. *)
Definition audio_error (sv : server) : control * server :=
  match send_text audio_trouble sv with
  | (delivered, sv) => (continue, sv)
  | (disconnected, sv) => (break, sv)
  | (send_error, sv) =>
      match send_text error_occurred sv with
      | (delivered, sv) => (continue, sv)
      | (_, sv) => (break, sv)
      end
  end.

(** A message to the client inside the branch, followed by
    [continue]. *)
Definition tell_and_continue (s : pystr) (sv : server) : control * server :=
  match send_text s sv with
  | (delivered, sv) => (continue, sv)
  | (_, sv) => audio_error sv
  end.

Definition receive_audio (audio_data : list Byte.byte) (sv : server)
  : control * server :=
  if (N.of_nat (length audio_data) <? 1000)%N then
    tell_and_continue audio_too_short sv
  else
    let transcribed_text := speech_to_text (transcriptions sv) in
    let sv := {| conversation_of := conversation_of sv;
                 trace := trace sv;
                 transcriptions := S (transcriptions sv) |} in
    match transcribed_text with
    | None => audio_error sv
    | Some text =>
        match strip text with
        | [] => tell_and_continue not_caught sv
        | c :: q =>
            let user_query := c :: q in
            match chat U set_to_list create handle_function_call fuel
                    user_query (conversation_of sv) with
            | (Returned agent_response, conv) =>
                let spoken_text := Response.spoken_text agent_response in
                let tr := handle_enhanced_features socket agent_response
                            (trace sv) in
                let tr := match strip spoken_text with
                          | [] => tr
                          | _ :: _ =>
                              generate_and_send_audio socket text_to_speech
                                spoken_text tr
                          end in
                (continue,
                 {| conversation_of := conv; trace := tr;
                    transcriptions := transcriptions sv |})
            | (Failed _, conv) =>
                audio_error
                  {| conversation_of := conv; trace := trace sv;
                     transcriptions := transcriptions sv |}
            | (OutOfFuel, conv) =>
                (unfinished,
                 {| conversation_of := conv; trace := trace sv;
                    transcriptions := transcriptions sv |})
            end
        end
    end.
End Endpoint.

Definition is_text_event (e : event) : bool :=
  match e with
  | sent (text_frame _) | send_failed (text_frame _) => true
  | _ => false
  end.

(** A chat service that answers with a numbered list, a speech-to-text
    service that hears a request, and a second of audio, for the
    examples. *)
Definition list_reply : pystr :=
  str "1. Logitech M185" ++ [10%N] ++ str "2. Razer Viper".

Definition listing_service (n : nat) : option content_block :=
  Some (text_block list_reply).

Definition no_tools (n : nat) : option pyval := None.

Definition hears_mice (n : nat) : option pystr := Some (str " show me mice ").

Definition open_socket (n : nat) : send_result := delivered.


Definition new_server : server :=
  {| conversation_of := new_conversation; trace := []; transcriptions := 0 |}.

(** * Properties *)

(** A decidable fact about concrete data, by evaluation. *)
Ltac by_eval := apply (bool_decide_unpack _); vm_compute; exact I.

(** ** Facts about the matcher *)

Section MatcherFacts.
Context {R : Type}.
Variable p : N -> bool.
Implicit Types (k : pystr -> option R) (s xs rest : pystr).

Lemma rep_greedy_inv k s : forall lo hi r,
  rep_greedy p lo hi k s = Some r ->
  exists xs rest, s = xs ++ rest /\ Forall (fun c => p c = true) xs
                  /\ lo <= length xs /\ k rest = Some r.
Proof.
  induction s as [|c s IH]; intros lo hi r H; simpl in H.
  - exists [], []. destruct hi as [[|h]|], lo; try discriminate; auto with lia.
  - assert (Hstop : match lo with O => k (c :: s) | S _ => None end = Some r ->
       exists xs rest, c :: s = xs ++ rest /\ Forall (fun c => p c = true) xs
                  /\ lo <= length xs /\ k rest = Some r).
    { destruct lo; [|discriminate]. intros Hk. exists [], (c :: s). auto with lia. }
    destruct hi as [[|h]|]; [auto| |].
    all: destruct (p c) eqn:Hc; [|auto].
    all: match type of H with
         | match ?e with _ => _ end = _ => destruct e as [r'|] eqn:Hrec; [|auto]
         end.
    all: inversion H; subst r'; apply IH in Hrec as (xs & rest & -> & Hxs & Hlo & Hk).
    all: exists (c :: xs), rest; simpl; repeat split; auto with lia.
Qed.

Lemma rep_lazy_inv k s : forall r,
  rep_lazy p k s = Some r ->
  exists xs rest, s = xs ++ rest /\ Forall (fun c => p c = true) xs
                  /\ k rest = Some r.
Proof.
  induction s as [|c s IH]; intros r H; simpl in H.
  - destruct (k []) eqn:Hk; [|discriminate]. exists [], []. inversion H; subst. auto.
  - destruct (k (c :: s)) eqn:Hk.
    + inversion H; subst. exists [], (c :: s). auto.
    + destruct (p c) eqn:Hc; [|discriminate].
      apply IH in H as (xs & rest & -> & Hxs & Hk').
      exists (c :: xs), rest. auto.
Qed.

Lemma m_quant_inv q k s r :
  m_quant p q k s = Some r ->
  exists xs rest, s = xs ++ rest /\ Forall (fun c => p c = true) xs
                  /\ qmin q <= length xs /\ k rest = Some r.
Proof.
  destruct q; simpl; intros H;
    try (apply rep_greedy_inv in H; exact H).
  apply rep_lazy_inv in H as (xs & rest & ? & ? & ?).
  exists xs, rest. auto with lia.
Qed.

(** A greedy repetition whose continuation accepts what follows the
    longest run does not backtrack. *)
Lemma rep_greedy_max k xs rest r : forall lo,
  Forall (fun c => p c = true) xs ->
  (match rest with [] => True | c :: _ => p c = false end) ->
  lo <= length xs ->
  k rest = Some r ->
  rep_greedy p lo None k (xs ++ rest) = Some r.
Proof.
  induction xs as [|x xs IH]; intros lo Hxs Hrest Hlo Hk; simpl in *.
  - assert (lo = 0) as -> by lia.
    destruct rest as [|c rest]; simpl; [done|]. by rewrite Hrest.
  - inversion Hxs as [|? ? Hx Hxs']; subst. rewrite Hx.
    rewrite (IH (pred lo)); auto with lia.
Qed.

Lemma rep_greedy_one k s :
  rep_greedy p 1 (Some 1) k s =
  match s with
  | c :: s' => if p c then k s' else None
  | [] => None
  end.
Proof.
  destruct s as [|c s]; simpl; [done|].
  destruct (p c); [|done]. destruct s; simpl; by destruct (k _).
Qed.
End MatcherFacts.

Lemma take_app_diff {A} (xs rest : list A) :
  take (length (xs ++ rest) - length rest) (xs ++ rest) = xs.
Proof.
  rewrite length_app.
  replace (length xs + length rest - length rest) with (length xs) by lia.
  by rewrite take_app_length.
Qed.

Section RegexFacts.
Variable U : unicode_db.


Lemma digits_group_inv mark caps s caps' rest :
  m_items U [IOpen; digits1; IClose] mark caps s = Some (caps', rest) ->
  exists ds, caps' = caps ++ [ds] /\ ds <> []
             /\ Forall (fun c => is_digit U c = true) ds /\ s = ds ++ rest.
Proof.
  simpl. intros H.
  apply rep_greedy_inv in H as (xs & rest' & -> & Hxs & Hlen & Hk).
  rewrite take_app_diff in Hk. inversion Hk; subst.
  exists xs. repeat split; auto.
  intros ->. simpl in Hlen. lia.
Qed.


Lemma foldl_digits ds : forall a,
  Forall (fun c => is_digit U c = true) ds ->
  foldl (fun acc c =>
           match acc, digit_value U c with
           | Some a, Some d => Some (10 * a + Z.of_N d)%Z
           | _, _ => None
           end) (Some a) ds
  = Some (a * 10 ^ Z.of_nat (length ds) + decimal_value U ds)%Z.
Proof.
  induction ds as [|c ds IH]; intros a Hds.
  - simpl. f_equal. lia.
  - inversion Hds as [|? ? Hc Hds']; subst.
    cbn [foldl decimal_value]. unfold is_digit in Hc.
    destruct (digit_value U c) as [d|]; [|done].
    rewrite IH by done. cbn [from_option id length]. f_equal.
    rewrite Nat2Z.inj_succ, Z.pow_succ_r by lia. ring.
Qed.

(** [int] reads a string of at most 4300 digits as the number that it
    spells and refuses a longer one. *)
Lemma py_int_digits ds :
  ds <> [] -> Forall (fun c => is_digit U c = true) ds ->
  (N.of_nat (length ds) <= int_max_str_digits)%N ->
  py_int U ds = Some (decimal_value U ds).
Proof.
  intros Hne Hds Hlen. unfold py_int. destruct ds as [|d ds]; [done|].
  rewrite (proj2 (N.ltb_ge _ _) Hlen).
  by rewrite foldl_digits.
Qed.

Lemma budget_pattern_shape p :
  p ∈ budget_patterns ->
  exists pre, group_free pre /\ p = pre ++ [IOpen; digits1; IClose].
Proof.
  unfold budget_patterns. rewrite !elem_of_cons, elem_of_nil.
  intros [->|[->|[->|[->|[]]]]];
    [ exists (lit "$") | exists (lit "under ")
    | exists (lit "budget" ++ [ICls CDot QLazyStar])
    | exists (lit "spend" ++ [ICls CDot QLazyStar]) ];
    (split; [|by rewrite <- ?app_assoc]);
    unfold group_free; cbv [lit str list_ascii_of_string map app];
    repeat constructor.
Qed.




(** A pattern that begins with a literal character does not match where
    the text has another character, nor at the end of the text. *)
Lemma rmatch_first_char c r x s :
  x <> c -> rmatch U (ICls (CChar c) QOne :: r) (x :: s) = None.
Proof.
  intros Hx. unfold rmatch. cbn [m_items m_quant]. rewrite rep_greedy_one.
  cbn [cmatch]. by rewrite (proj2 (N.eqb_neq x c)).
Qed.

Lemma re_search_skip c r pre s :
  c ∉ pre ->
  re_search U (ICls (CChar c) QOne :: r) (pre ++ s)
  = re_search U (ICls (CChar c) QOne :: r) s.
Proof.
  induction pre as [|x pre IH]; intros Hpre; [done|].
  rewrite not_elem_of_cons in Hpre. destruct Hpre as [Hx Hpre].
  change ((x :: pre) ++ s) with (x :: (pre ++ s)).
  cbn [re_search]. rewrite rmatch_first_char by done. auto.
Qed.

Lemma is_digit_dot : is_digit U 46 = false.
Proof. unfold is_digit. by rewrite digit_value_ascii. Qed.


End RegexFacts.




(** ** Facts about the string operations *)

Lemma startswith_prefix p : forall s,
  startswith p s = true <-> exists t, s = p ++ t.
Proof.
  induction p as [|a p IH]; intros s; simpl.
  - split; eauto.
  - destruct s as [|b s].
    + split; [done|]. by intros [t Ht].
    + rewrite andb_true_iff, N.eqb_eq, IH. split.
      * intros [-> [t ->]]. eauto.
      * intros [t Ht]. inversion Ht; subst. eauto.
Qed.

Lemma startswith_app p a b :
  startswith p a = true -> startswith p (a ++ b) = true.
Proof.
  rewrite !startswith_prefix. intros [t ->]. exists (t ++ b).
  by rewrite app_assoc.
Qed.

Lemma contains_app_l p a b :
  contains p a = true -> contains p (a ++ b) = true.
Proof.
  induction a as [|x a IH]; simpl.
  - rewrite orb_false_r. intros H.
    destruct p; [|done]. by destruct b.
  - rewrite !orb_true_iff. intros [H|H].
    + left. by apply (startswith_app p (x :: a) b).
    + right. auto.
Qed.

Lemma contains_char c s : contains [c] s = false <-> c ∉ s.
Proof.
  induction s as [|x s IH]; simpl.
  - split; [intros _; apply not_elem_of_nil|done].
  - rewrite andb_true_r, orb_false_iff, IH, not_elem_of_cons, N.eqb_neq.
    done.
Qed.

Lemma split_go_first_prefix sep s :
  exists t, s = fst (split_go sep 0 s) ++ t.
Proof.
  induction s as [|c s [t IH]]; simpl.
  - by exists [].
  - destruct (startswith sep (c :: s)); simpl; [eauto|].
    destruct (split_go sep 0 s) as [p ps]. simpl in *.
    exists t. by rewrite <- IH.
Qed.

(** The piece before the first separator does not contain it. *)
Lemma contains_split_first sep s :
  sep <> [] -> contains sep (split_first sep s) = false.
Proof.
  intros Hsep. unfold split_first.
  induction s as [|c s IH]; simpl.
  - by destruct sep.
  - destruct (startswith sep (c :: s)) eqn:Hst; simpl.
    + by destruct sep.
    + destruct (split_go sep 0 s) as [p ps] eqn:Hgo. simpl in *.
      rewrite IH, orb_false_r.
      destruct (startswith sep (c :: p)) eqn:Hp; [|done].
      destruct (split_go_first_prefix sep s) as [t Ht]. rewrite Hgo in Ht.
      simpl in Ht. rewrite Ht in Hst.
      pose proof (startswith_app sep (c :: p) t Hp) as Hpt.
      change ((c :: p) ++ t) with (c :: p ++ t) in Hpt. congruence.
Qed.

Lemma split_first_prefix_of sep s : exists t, s = split_first sep s ++ t.
Proof. apply split_go_first_prefix. Qed.

(** ** Link extraction *)

Lemma is_product_url_str raw : is_product_url (VStr raw) = Ok (url_test raw).
Proof.
  unfold is_product_url, url_test. simpl.
  destruct (contains (str "amazon.com") raw); [|done].
  destruct (contains (str "/dp/") raw); simpl.
  - destruct (contains (str "/s?") raw); simpl; [done|].
    by destruct (contains (str "/b?") raw).
  - destruct (contains (str "/gp/product/") raw); simpl; [|done].
    destruct (contains (str "/s?") raw); simpl; [done|].
    by destruct (contains (str "/b?") raw).
Qed.

Lemma cleaned_no_query raw : contains (str "?") (cleaned raw) = false.
Proof.
  unfold cleaned.
  destruct (split_first_prefix_of (str "/ref=") (split_first (str "?") raw))
    as [t Ht].
  pose proof (contains_split_first (str "?") raw) as Hq.
  rewrite Ht in Hq.
  destruct (contains (str "?") (split_first (str "/ref=") (split_first (str "?") raw)))
    eqn:E; [|done].
  apply (contains_app_l _ _ t) in E. rewrite Hq in E; done.
Qed.

Lemma cleaned_no_ref raw : contains (str "/ref=") (cleaned raw) = false.
Proof. by apply contains_split_first. Qed.

Lemma links_loop_spec items : forall acc out,
  links_loop items acc = Ok out ->
  exists new, out = acc ++ new /\ Forall (link_from items) new.
Proof.
  induction items as [|item items IH]; intros acc out H; simpl in H.
  - inversion H; subst. exists []. by rewrite app_nil_r.
  - destruct (py_get item (str "url") (VStr [])) as [url|] eqn:Hget; [|done].
    simpl in H.
    destruct (is_product_url url) as [[|]|] eqn:Hok; simpl in H; [| |done].
    + destruct url; try done. simpl in H.
      rewrite is_product_url_str in Hok. inversion Hok as [Hok'].
      apply IH in H as (new & -> & Hnew).
      exists (cleaned s :: new). split; [by rewrite <- app_assoc|].
      constructor.
      * exists item, s. rewrite Hok'. by split; [apply list_elem_of_here|].
      * eapply Forall_impl; [exact Hnew|].
        intros u (it & raw & ? & ? & ? & ?). exists it, raw.
        by split; [apply list_elem_of_further|].
    + apply IH in H as (new & -> & Hnew). exists new. split; [done|].
      eapply Forall_impl; [exact Hnew|].
      intros u (it & raw & ? & ? & ? & ?). exists it, raw.
      by split; [apply list_elem_of_further|].
Qed.

Lemma links_loop_total items : forall acc,
  Forall (fun item => exists d, item = VDict d
            /\ (dict_lookup (str "url") d = None
                \/ exists s, dict_lookup (str "url") d = Some (VStr s))) items ->
  exists out, links_loop items acc = Ok out.
Proof.
  induction items as [|item items IH]; intros acc Hitems; simpl; [eauto|].
  inversion Hitems as [|? ? (d & -> & Hurl) Hrest]; subst. simpl.
  assert (exists s, from_option id (VStr []) (dict_lookup (str "url") d) = VStr s)
    as [s ->].
  { destruct Hurl as [->|[s ->]]; simpl; eauto. }
  rewrite is_product_url_str. simpl.
  destruct (url_test s); simpl; auto.
Qed.

Lemma links_loop_same base items : forall acc,
  Forall (fun item => exists d raw,
            item = VDict d
            /\ dict_lookup (str "url") d = Some (VStr raw)
            /\ url_test raw = true /\ cleaned raw = base) items ->
  links_loop items acc = Ok (acc ++ replicate (length items) base).
Proof.
  induction items as [|item items IH]; intros acc Hitems; simpl.
  - by rewrite app_nil_r.
  - inversion Hitems as [|? ? (d & raw & -> & Hd & Ht & Hc) Hrest]; subst.
    cbn [py_get]. rewrite Hd. cbn [from_option id].
    simpl. rewrite is_product_url_str, Ht. simpl.
    fold (cleaned raw). rewrite IH by done.
    by rewrite <- app_assoc.
Qed.

Lemma split_first_none sep s :
  contains sep s = false -> split_first sep s = s.
Proof.
  unfold split_first. induction s as [|c s IH]; [done|].
  cbn [contains]. rewrite orb_false_iff. intros [Hst Hc].
  cbn [split_go]. rewrite Hst. specialize (IH Hc).
  destruct (split_go sep 0 s) as [p0 ps]. simpl in *. by rewrite IH.
Qed.

Lemma split_first_char c pre q :
  c ∉ pre -> split_first [c] (pre ++ c :: q) = pre.
Proof.
  unfold split_first. induction pre as [|x pre IH]; intros Hc.
  - simpl. by rewrite N.eqb_refl.
  - rewrite not_elem_of_cons in Hc. destruct Hc as [Hx Hc].
    change ((x :: pre) ++ c :: q) with (x :: (pre ++ c :: q)).
    cbn [split_go startswith]. rewrite (proj2 (N.eqb_neq c x)) by done.
    cbn [andb]. specialize (IH Hc).
    destruct (split_go [c] 0 (pre ++ c :: q)) as [p0 ps]. simpl in *.
    by rewrite IH.
Qed.

Lemma NoDup_all_same {A} (b : A) (l : list A) :
  NoDup l -> b ∈ l -> (forall x, x ∈ l -> x = b) -> l = [b].
Proof.
  intros Hnd Hb Hall. destruct l as [|x [|y l]].
  - by apply elem_of_nil in Hb.
  - f_equal. apply Hall, list_elem_of_here.
  - exfalso. apply NoDup_cons in Hnd as [Hx _]. apply Hx.
    rewrite (Hall x) by apply list_elem_of_here.
    rewrite <- (Hall y) by apply list_elem_of_further, list_elem_of_here.
    apply list_elem_of_here.
Qed.

Section Links.
Variable set_to_list : list pystr -> list pystr.
Hypothesis set_to_list_spec : forall l,
  NoDup (set_to_list l) /\ forall x, x ∈ set_to_list l <-> x ∈ l.

(** X28: whatever order the set iterates in, link extraction returns at
    most 5 pairwise distinct URLs, each the cleaned form (cut at the
    first "?" and then at the first "/ref=") of the URL of a search
    result that passes the test of the loop, with no "?" and no "/ref="
    left in it; it does return when the results are a list of dicts
    whose "url", if present, is a string; and when all results pass the
    test and clean to the same URL, as duplicates that differ in their
    query string do, the outcome is that single URL. *)
Theorem link_extraction_shape (search_result : pyval) :
  (forall out, extract_links set_to_list search_result = Ok out ->
     exists results items,
       web_results search_result = Ok results
       /\ py_iter results = Ok items
       /\ length out <= 5 /\ NoDup out
       /\ forall u, u ∈ out ->
            link_from items u
            /\ contains (str "?") u = false
            /\ contains (str "/ref=") u = false)
  /\ (forall items,
      web_results search_result = Ok (VList items) ->
      Forall (fun item => exists d, item = VDict d
            /\ (dict_lookup (str "url") d = None
                \/ exists s, dict_lookup (str "url") d = Some (VStr s))) items ->
      exists out, extract_links set_to_list search_result = Ok out)
  /\ (forall items base,
      web_results search_result = Ok (VList items) ->
      items <> [] ->
      Forall (fun item => exists d raw,
                item = VDict d
                /\ dict_lookup (str "url") d = Some (VStr raw)
                /\ url_test raw = true /\ cleaned raw = base) items ->
      extract_links set_to_list search_result = Ok [base]).
Proof.
  unfold extract_links. split; [|split].
  - intros out H.
    destruct (web_results search_result) as [results|] eqn:Hweb; [|done].
    simpl in H.
    destruct (py_iter results) as [items|] eqn:Hiter; [|done].
    simpl in H.
    destruct (links_loop items []) as [links|] eqn:Hloop; [|done].
    simpl in H. inversion H; subst out; clear H.
    exists results, items. split; [done|]. split; [done|].
    apply links_loop_spec in Hloop as (new & -> & Hnew). simpl in *.
    destruct (set_to_list_spec new) as [Hnd Hin].
    split; [rewrite length_take; lia|].
    split; [exact (sublist_NoDup _ _ Hnd (sublist_take _ _))|].
    intros u Hu.
    assert (Hu' : u ∈ new) by (apply Hin; exact (subseteq_take _ _ _ Hu)).
    rewrite Forall_forall in Hnew. pose proof (Hnew u Hu') as Hlink.
    split; [done|].
    destruct Hlink as (item & raw & _ & _ & _ & ->).
    split; [apply cleaned_no_query|apply cleaned_no_ref].
  - intros items -> Hitems. simpl.
    destruct (links_loop_total items [] Hitems) as [links ->]. simpl. eauto.
  - intros items base -> Hne Hitems. simpl.
    rewrite (links_loop_same base) by done. simpl. f_equal.
    destruct (set_to_list_spec (replicate (length items) base)) as [Hnd Hin].
    rewrite (NoDup_all_same base _ Hnd); [done| |].
    + apply Hin. destruct items; [done|]. apply list_elem_of_here.
    + intros x Hx. apply Hin in Hx. by apply elem_of_replicate in Hx as [-> _].
Qed.

(** C9: the test of the loop looks for "amazon.com" and "/dp/" anywhere in
    the URL, also behind the "?" that the cleaning cuts at.  A search
    result whose URL passes the test is returned as the part in front of
    its first "?" (when that holds no "/ref="), whatever that part is:
    for the URL of a redirect service with an Amazon address in its
    query string, link extraction returns the address of the redirect
    service, which is no Amazon URL. *)
Theorem link_outside_amazon_is_returned (search_result : pyval)
    (d : list (pystr * pyval)) (pre q : pystr) :
  web_results search_result = Ok (VList [VDict d]) ->
  dict_lookup (str "url") d = Some (VStr (pre ++ str "?" ++ q)) ->
  63%N ∉ pre ->
  contains (str "/ref=") pre = false ->
  url_test (pre ++ str "?" ++ q) = true ->
  extract_links set_to_list search_result = Ok [pre].
Proof.
  intros Hweb Hd Hq Href Ht. unfold extract_links. rewrite Hweb.
  cbn [mbind result_bind py_iter links_loop py_get]. rewrite Hd.
  cbn [from_option id]. rewrite is_product_url_str, Ht.
  cbn [clean_url py_split_first mbind result_bind links_loop app].
  change (str "?") with [63%N]. change ([63%N] ++ q) with (63%N :: q).
  rewrite split_first_char by done.
  rewrite split_first_none by done. f_equal.
  destruct (set_to_list_spec [pre]) as [Hnd Hin].
  rewrite (NoDup_all_same pre _ Hnd); [done| |].
  - apply Hin, list_elem_of_here.
  - intros x Hx. apply Hin in Hx. by apply list_elem_of_singleton in Hx.
Qed.
End Links.

Lemma link_extraction_shape_witness :
  extract_links remove_dups same_product_twice
  = Ok [str "https://www.amazon.com/dp/B01"].
Proof.
  refine (proj2 (proj2 (link_extraction_shape remove_dups _ same_product_twice))
            _ _ eq_refl _ _).
  - intros l. split; [apply NoDup_remove_dups|].
    intros x. apply elem_of_remove_dups.
  - discriminate.
  - repeat constructor.
    + exists [(str "url", VStr (str "https://www.amazon.com/dp/B01?tag=a"));
              (str "title", VStr (str "Mouse"))],
        (str "https://www.amazon.com/dp/B01?tag=a"). by vm_compute.
    + exists [(str "title", VStr (str "Mouse (renewed)"));
              (str "url", VStr (str "https://www.amazon.com/dp/B01?psc=1&th=1"))],
        (str "https://www.amazon.com/dp/B01?psc=1&th=1"). by vm_compute.
Defined.

Lemma link_outside_amazon_is_returned_witness :
  extract_links remove_dups redirect_hit = Ok [str "https://redirect.viglink.com/"]
  /\ contains (str "amazon.com") (str "https://redirect.viglink.com/") = false.
Proof.
  split; [|reflexivity].
  apply (link_outside_amazon_is_returned remove_dups) with
    (d := [(str "title", VStr (str "Wireless Mouse - Amazon.com"));
           (str "url",
            VStr (str "https://redirect.viglink.com/?u=https://www.amazon.com/dp/B01"))])
    (q := str "u=https://www.amazon.com/dp/B01").
  - intros l. split; [apply NoDup_remove_dups|].
    intros x. apply elem_of_remove_dups.
  - reflexivity.
  - reflexivity.
  - by_eval.
  - reflexivity.
  - reflexivity.
Defined.

(** ** Product extraction *)

Lemma uint_digits_inj d1 : forall d2, uint_digits d1 = uint_digits d2 -> d1 = d2.
Proof.
  induction d1 as [|d1 IH|d1 IH|d1 IH|d1 IH|d1 IH|d1 IH|d1 IH|d1 IH|d1 IH|d1 IH];
    intros [|d2|d2|d2|d2|d2|d2|d2|d2|d2|d2] H; simpl in H;
    try discriminate; try reflexivity;
    f_equal; apply IH; congruence.
Qed.

Lemma dec_inj n m : dec n = dec m -> n = m.
Proof.
  intros H. by apply uint_digits_inj, DecimalNat.Unsigned.to_uint_inj in H.
Qed.

Lemma product_key_inj i j : product_key i = product_key j -> i = j.
Proof.
  unfold product_key. intros H. apply app_inv_head, dec_inj in H. lia.
Qed.

Section Extraction.
Variable U : unicode_db.

Lemma rbind_ok {A B} (m : result A) (k : A -> result B) b :
  m ≫= k = Ok b -> exists a, m = Ok a /\ k a = Ok b.
Proof. destruct m; simpl; [eauto|done]. Qed.

Lemma extract_fields_url content url p :
  extract_fields U content url = Ok p -> Product.url p = url.
Proof.
  unfold extract_fields. intros H.
  repeat (apply rbind_ok in H as (? & _ & H)).
  by inversion H.
Qed.

Lemma product_of_url d :
  Product.url (product_of U d)
  = from_option id (VStr []) (dict_lookup (str "url") d).
Proof.
  unfold product_of.
  destruct (extract_fields U _ _) eqn:E; [|done].
  by apply extract_fields_url in E.
Qed.

(** Content that is not a string makes the [try] block raise. *)
Lemma extract_fields_not_str content url :
  (forall s, content <> VStr s) ->
  extract_fields U content url = Raise TypeError.
Proof.
  intros Hc. unfold extract_fields.
  destruct content as [| | | |s|l|d]; try done.
  - by destruct (Hc s).
  - simpl. destruct (existsb _ l); simpl; done.
  - simpl. destruct (bool_decide _); simpl; done.
Qed.

Lemma first_found_str ps s fmt default :
  exists x, first_found U ps (VStr s) fmt default = Ok x.
Proof.
  induction ps as [|p ps IH]; simpl; [eauto|].
  destruct (re_search U p s) as [[caps rest]|]; eauto.
Qed.

Lemma extract_fields_str s url :
  exists p, extract_fields U (VStr s) url = Ok p.
Proof.
  unfold extract_fields, mbind, result_bind. cbn [py_in].
  destruct (contains (str "Amazon.com:") s).
  - cbn [py_re_search].
    destruct (first_found_str price_patterns s (fun x => str "$" ++ x)
                (str "Price not found")) as [pr ->].
    destruct (first_found_str rating_patterns s (fun x => x ++ str "/5 stars")
                (str "Rating not found")) as [ra ->].
    cbn [py_lower_val py_re_findall].
    destruct (re_search U pat_title s) as [[caps rest]|];
      destruct (contains (str "features") (py_lower U s)
                || contains (str "specifications") (py_lower U s)); eauto.
  - destruct (first_found_str price_patterns s (fun x => str "$" ++ x)
                (str "Price not found")) as [pr ->].
    destruct (first_found_str rating_patterns s (fun x => x ++ str "/5 stars")
                (str "Rating not found")) as [ra ->].
    cbn [py_lower_val py_re_findall].
    destruct (contains (str "features") (py_lower U s)
              || contains (str "specifications") (py_lower U s)); eauto.
Qed.

Lemma block_product_eq d a :
  exists a', block_product U d a = (product_of U d, a')
             /\ current_products a' = current_products a
             /\ shopping_session a' = shopping_session a.
Proof.
  unfold block_product, _extract_enhanced_product_info, product_of.
  destruct (extract_fields U _ _); eauto.
Qed.

Lemma products_loop_viewed rs : forall i a,
  Session.products_viewed (shopping_session (products_loop U i rs a))
  = Session.products_viewed (shopping_session a)
    ++ map (product_of U) (dict_blocks rs).
Proof.
  induction rs as [|blk rs IH]; intros i a; simpl.
  - by rewrite app_nil_r.
  - destruct blk as [| | | | | |d]; try apply IH.
    destruct (block_product_eq d a) as (a' & -> & _ & Hs).
    rewrite IH. simpl. rewrite Hs. by rewrite <- app_assoc.
Qed.

Lemma products_loop_other rs : forall i a k,
  (forall j blk, rs !! j = Some (VDict blk) -> k <> product_key (i + j)) ->
  current_products (products_loop U i rs a) !! k = current_products a !! k.
Proof.
  induction rs as [|blk rs IH]; intros i a k Hk; simpl; [done|].
  assert (Hk' : forall j b, rs !! j = Some (VDict b) -> k <> product_key (S i + j)).
  { intros j b Hj. replace (S i + j) with (i + S j) by lia. by apply (Hk (S j) b). }
  destruct blk as [| | | | | |d]; try by apply IH.
  destruct (block_product_eq d a) as (a' & -> & Hc & _).
  rewrite IH by done. simpl. rewrite lookup_insert_ne, Hc; [done|].
  specialize (Hk 0 d eq_refl). by rewrite Nat.add_0_r in Hk.
Qed.

Lemma products_loop_key rs : forall i a j blk,
  rs !! j = Some (VDict blk) ->
  current_products (products_loop U i rs a) !! product_key (i + j)
  = Some (product_of U blk).
Proof.
  induction rs as [|b rs IH]; intros i a j blk Hj; [done|].
  destruct j as [|j]; simpl in Hj.
  - inversion Hj; subst b. simpl.
    destruct (block_product_eq blk a) as (a' & -> & Hc & _).
    rewrite products_loop_other.
    + simpl. rewrite Nat.add_0_r. apply lookup_insert_eq.
    + intros j' b' _ Heq. apply product_key_inj in Heq. lia.
  - replace (i + S j) with (S i + j) by lia.
    cbn [products_loop]. destruct b as [| | | | | |d]; try by apply IH.
    destruct (block_product_eq d a) as (a' & -> & _ & _). by apply IH.
Qed.
End Extraction.

Section Batches.
Variable U : unicode_db.

Lemma extract_product_info_batch d rs a :
  dict_lookup (str "data") d = Some (VList rs) ->
  extract_product_info U (VDict d) a = (Ok tt, products_loop U 0 rs a).
Proof.
  intros Hd. unfold extract_product_info, extract_product_info_body, py_getitem.
  rewrite Hd. by rewrite bool_decide_eq_true_2.
Qed.

Lemma extract_product_info_ok scraped_data a :
  fst (extract_product_info U scraped_data a) = Ok tt.
Proof.
  unfold extract_product_info.
  destruct (extract_product_info_body U scraped_data a) as [[[]|e] a']; done.
Qed.

Lemma block_product_cases d a :
  exists p,
    block_yields U d p
    /\ block_product U d a
       = (p, if bad_content d
             then {| current_products := current_products a;
                     shopping_session := shopping_session a;
                     stdout := stdout a
                               ++ [Printed (str "Error in enhanced extraction: ")
                                     TypeError] |}
             else a).
Proof.
  unfold block_product, block_yields, bad_content,
    _extract_enhanced_product_info.
  destruct (from_option id (VStr []) (dict_lookup (str "content") d))
    as [| | | |s| |] eqn:E;
    try (rewrite extract_fields_not_str by done; eexists; split; reflexivity).
  destruct (extract_fields_str U s
              (from_option id (VStr []) (dict_lookup (str "url") d)))
    as [p Hp].
  rewrite Hp. by exists p.
Qed.

Lemma products_loop_outcome rs : forall i a,
  exists new,
    Session.products_viewed (shopping_session (products_loop U i rs a))
    = Session.products_viewed (shopping_session a) ++ new
    /\ Forall2 (fun p blk => block_yields U blk p) new (dict_blocks rs)
    /\ stdout (products_loop U i rs a)
       = stdout a
         ++ map (fun _ => Printed (str "Error in enhanced extraction: ") TypeError)
              (filter (fun d => bad_content d = true) (dict_blocks rs)).
Proof.
  induction rs as [|blk rs IH]; intros i a.
  - exists []. simpl. by rewrite !app_nil_r.
  - destruct blk as [| | | | | |d]; try apply IH.
    change (dict_blocks (VDict d :: rs)) with (d :: dict_blocks rs).
    cbn [products_loop].
    destruct (block_product_cases d a) as (p & Hp & ->).
    match goal with
    | |- context [products_loop U (S i) rs ?a1] =>
        destruct (IH (S i) a1) as (new & Hv & Hnew & Hout)
    end.
    exists (p :: new). rewrite Hv, Hout. cbn [record_product shopping_session
      Session.products_viewed stdout]. split_and!.
    + destruct (bad_content d); cbn [shopping_session]; by rewrite <- app_assoc.
    + by constructor.
    + destruct (bad_content d) eqn:Hbad.
      * rewrite filter_cons_True by done. cbn [stdout map].
        by rewrite <- app_assoc.
      * rewrite filter_cons_False by (by rewrite Hbad). done.
Qed.

(** C8, as amended: product extraction never raises to its caller.  A
    block whose content is not a string makes the inner extraction
    fail; the failure is caught, printed as one line "Error in enhanced
    extraction: " with the exception, and answered with the fallback
    product: the URL that was passed, the name "Amazon Product", the
    price "See Amazon", the rating "N/A", no key features, the
    availability "Check Amazon" and no Prime eligibility.  String content
    never fails and prints nothing.  The batch is not aborted: every dict
    block of the batch, failing or not, appends its product, in order,
    and one line is printed for each failing block. *)
Theorem extraction_failure_yields_fallback (scraped_data : pyval) (a : agent) :
  fst (extract_product_info U scraped_data a) = Ok tt
  /\ (forall content url a0,
        (forall s, content <> VStr s) ->
        _extract_enhanced_product_info U content url a0
        = ({| Product.url := url;
              Product.name := str "Amazon Product";
              Product.price := str "See Amazon";
              Product.rating := str "N/A";
              Product.key_features := [];
              Product.availability := str "Check Amazon";
              Product.prime_eligible := false |},
           {| current_products := current_products a0;
              shopping_session := shopping_session a0;
              stdout := stdout a0
                        ++ [Printed (str "Error in enhanced extraction: ")
                              TypeError] |}))
  /\ (forall s url a0,
        exists p, extract_fields U (VStr s) url = Ok p
                  /\ _extract_enhanced_product_info U (VStr s) url a0 = (p, a0))
  /\ (forall d rs,
        scraped_data = VDict d ->
        dict_lookup (str "data") d = Some (VList rs) ->
        exists new,
          Session.products_viewed
            (shopping_session (snd (extract_product_info U scraped_data a)))
          = Session.products_viewed (shopping_session a) ++ new
          /\ Forall2 (fun p blk => block_yields U blk p) new (dict_blocks rs)
          /\ stdout (snd (extract_product_info U scraped_data a))
             = stdout a
               ++ map (fun _ => Printed (str "Error in enhanced extraction: ")
                                  TypeError)
                    (filter (fun d => bad_content d = true) (dict_blocks rs))).
Proof.
  split; [apply extract_product_info_ok|]. split; [|split].
  - intros content url a0 Hc. unfold _extract_enhanced_product_info.
    by rewrite extract_fields_not_str.
  - intros s url a0. unfold _extract_enhanced_product_info.
    destruct (extract_fields_str U s url) as [p Hp]. rewrite Hp. eauto.
  - intros d rs -> Hd. rewrite (extract_product_info_batch d rs) by done.
    apply products_loop_outcome.
Qed.

(** C6, as amended: every product that a batch appends to
    [products_viewed] carries as [url] the "url" entry of its block, and
    the empty string when the block has none. *)
Theorem product_url_is_block_url (d : list (pystr * pyval))
    (rs : list pyval) (a : agent) :
  dict_lookup (str "data") d = Some (VList rs) ->
  exists new,
    Session.products_viewed
      (shopping_session (snd (extract_product_info U (VDict d) a)))
    = Session.products_viewed (shopping_session a) ++ new
    /\ Forall2 (fun p blk =>
                  Product.url p
                  = from_option id (VStr []) (dict_lookup (str "url") blk))
               new (dict_blocks rs).
Proof.
  intros Hd. exists (map (product_of U) (dict_blocks rs)).
  rewrite (extract_product_info_batch d rs) by done.
  split; [apply products_loop_viewed|].
  induction (dict_blocks rs) as [|blk l IH]; simpl; constructor; auto.
  apply product_of_url.
Qed.

(** C7, as amended: after a batch the mapping holds, under the key built
    from each dict block's position, the product of that block; every
    other key keeps the entry it had before the batch (entries of earlier
    batches stay until [reset]); and [products_viewed] grows by the
    products of the batch. *)
Theorem product_mapping_after_batch (d : list (pystr * pyval))
    (rs : list pyval) (a : agent) :
  dict_lookup (str "data") d = Some (VList rs) ->
  let a' := snd (extract_product_info U (VDict d) a) in
  (forall j blk, rs !! j = Some (VDict blk) ->
     current_products a' !! product_key j = Some (product_of U blk))
  /\ (forall k,
        (forall j blk, rs !! j = Some (VDict blk) -> k <> product_key j) ->
        current_products a' !! k = current_products a !! k)
  /\ Session.products_viewed (shopping_session a')
     = Session.products_viewed (shopping_session a)
       ++ map (product_of U) (dict_blocks rs)
  /\ current_products (reset a') = ∅.
Proof.
  intros Hd. cbv zeta. rewrite (extract_product_info_batch d rs) by done.
  cbn [snd]. split; [|split; [|split]].
  - intros j blk Hj. by apply (products_loop_key U rs 0 a j blk).
  - intros k Hk. by apply products_loop_other.
  - apply products_loop_viewed.
  - done.
Qed.
End Batches.

Lemma extraction_failure_yields_fallback_witness :
  _extract_enhanced_product_info ascii_db VNone (VStr (str "https://a/dp/1"))
    new_agent
  = ({| Product.url := VStr (str "https://a/dp/1");
        Product.name := str "Amazon Product";
        Product.price := str "See Amazon";
        Product.rating := str "N/A";
        Product.key_features := [];
        Product.availability := str "Check Amazon";
        Product.prime_eligible := false |},
     {| current_products := ∅;
        shopping_session := fresh_session;
        stdout := [Printed (str "Error in enhanced extraction: ") TypeError] |}).
Proof.
  apply (proj1 (proj2 (extraction_failure_yields_fallback ascii_db (batch [])
                         new_agent))).
  discriminate.
Defined.

Lemma fallback_is_not_the_sentinels :
  exists p,
    Session.products_viewed
      (shopping_session
         (snd (extract_product_info ascii_db
                 (batch [VDict [(str "url", VStr (str "https://www.amazon.com/dp/A1"));
                                (str "content", VNone)]])
                 new_agent)))
    = [p]
    /\ Product.price p = str "See Amazon"
    /\ Product.price p <> str "Price not found"
    /\ Product.rating p = str "N/A"
    /\ Product.rating p <> str "Rating not found".
Proof.
  eexists. split; [vm_compute; reflexivity|].
  split_and!; [reflexivity|discriminate|reflexivity|discriminate].
Qed.

Lemma product_url_is_block_url_witness :
  exists new,
    Session.products_viewed
      (shopping_session
         (snd (extract_product_info ascii_db (batch first_batch) new_agent)))
    = [] ++ new
    /\ Forall2 (fun p blk =>
                  Product.url p
                  = from_option id (VStr []) (dict_lookup (str "url") blk))
               new (dict_blocks first_batch).
Proof.
  apply (product_url_is_block_url ascii_db
           [(str "data", VList first_batch)] first_batch new_agent).
  reflexivity.
Defined.

Lemma product_url_may_be_empty :
  exists p,
    p ∈ Session.products_viewed
          (shopping_session
             (snd (extract_product_info ascii_db
                     (batch [VDict [(str "content",
                                     VStr (str "Amazon.com: Mouse | $10"))]])
                     new_agent)))
    /\ Product.url p = VStr [].
Proof.
  exists (product_of ascii_db
            [(str "content", VStr (str "Amazon.com: Mouse | $10"))]).
  split.
  - vm_compute. apply list_elem_of_here.
  - vm_compute. reflexivity.
Qed.

Lemma product_mapping_after_batch_witness :
  current_products
    (snd (extract_product_info ascii_db (batch second_batch) new_agent))
    !! product_key 0
  = Some (product_of ascii_db
            [(str "url", VStr (str "https://www.amazon.com/dp/B1"));
             (str "content", VStr (str "Amazon.com: Monitor | $99"))]).
Proof.
  apply (proj1 (product_mapping_after_batch ascii_db
                  [(str "data", VList second_batch)] second_batch new_agent
                  eq_refl) 0).
  reflexivity.
Defined.

Lemma product_mapping_keeps_old_entries :
  exists k p,
    current_products
      (snd (extract_product_info ascii_db (batch second_batch)
              (snd (extract_product_info ascii_db (batch first_batch)
                      new_agent)))) !! k = Some p
    /\ (p ∉ map (product_of ascii_db) (dict_blocks second_batch)).
Proof.
  exists (product_key 1),
    (product_of ascii_db
       [(str "url", VStr (str "https://www.amazon.com/dp/A2"));
        (str "content", VStr (str "Amazon.com: Keyboard | $20"))]).
  split.
  - vm_compute. reflexivity.
  - vm_compute. intros H. apply list_elem_of_singleton in H. discriminate H.
Qed.

(** ** The annotation parser *)

Lemma lstrip_decomp s :
  exists wsp, s = wsp ++ lstrip s /\ Forall (fun c => is_space c = true) wsp.
Proof.
  induction s as [|c s (wsp & IH & Hws)]; simpl.
  - by exists [].
  - destruct (is_space c) eqn:Hc.
    + exists (c :: wsp). split; [by rewrite IH at 1|by constructor].
    + by exists [].
Qed.

Lemma lstrip_head s :
  match lstrip s with [] => True | c :: _ => is_space c = false end.
Proof.
  induction s as [|c s IH]; simpl; [done|].
  destruct (is_space c) eqn:Hc; [done|]. by rewrite Hc.
Qed.

Lemma lstrip_idemp s : lstrip (lstrip s) = lstrip s.
Proof.
  pose proof (lstrip_head s) as H. destruct (lstrip s) as [|c t]; [done|].
  simpl. by rewrite H.
Qed.

Lemma strip_lstrip s : strip (lstrip s) = strip s.
Proof. unfold strip. by rewrite lstrip_idemp. Qed.

Section ParserFacts.
Variable U : unicode_db.

Lemma m_lit l r mark caps s :
  m_items U (lit l ++ r) mark caps (str l ++ s) = m_items U r mark caps s.
Proof.
  unfold lit. induction (str l) as [|c cs IH]; [done|].
  cbn [map app m_items m_quant]. rewrite rep_greedy_one.
  cbn [cmatch]. by rewrite N.eqb_refl.
Qed.

Lemma m_ws r mark caps wsp body res :
  Forall (fun c => is_space c = true) wsp ->
  match body with [] => True | c :: _ => is_space c = false end ->
  m_items U r mark caps body = Some res ->
  m_items U (ws :: r) mark caps (wsp ++ body) = Some res.
Proof.
  intros Hws Hbody Hk. unfold ws. cbn [m_items m_quant cmatch].
  by apply rep_greedy_max; auto with lia.
Qed.

(** A group around a repeated class that takes the run [xs] whole. *)
Lemma m_grp c q r mark caps xs rest res :
  (q = QStar \/ q = QPlus /\ xs <> []) ->
  Forall (fun x => cmatch U c x = true) xs ->
  match rest with [] => True | x :: _ => cmatch U c x = false end ->
  m_items U r (xs ++ rest) (caps ++ [xs]) rest = Some res ->
  m_items U (grp c q ++ r) mark caps (xs ++ rest) = Some res.
Proof.
  intros Hq Hxs Hrest Hk. unfold grp. cbn [app m_items].
  assert (Hgo : forall lo, lo <= length xs ->
    rep_greedy (cmatch U c) lo None
      (fun s' => m_items U (IClose :: r) (xs ++ rest) caps s') (xs ++ rest)
    = Some res).
  { intros lo Hlo. apply rep_greedy_max; auto.
    cbn [m_items]. by rewrite take_app_diff. }
  destruct Hq as [->|[-> Hne]]; cbn [m_quant]; apply Hgo; [lia|].
  destruct xs; [done|simpl; lia].
Qed.

Lemma cmatch_not1 c x : cmatch U (CNot [c]) x = negb (x =? c)%N.
Proof. cbn. by rewrite orb_false_r. Qed.

Lemma not1_run c xs :
  c ∉ xs -> Forall (fun x => cmatch U (CNot [c]) x = true) xs.
Proof.
  induction xs as [|x xs IH]; intros H; constructor.
  - apply not_elem_of_cons in H as [Hx _]. rewrite cmatch_not1.
    apply negb_true_iff, N.eqb_neq. congruence.
  - apply IH. by apply not_elem_of_cons in H as [_ ?].
Qed.

Lemma not_pipe_run xs :
  124%N ∉ xs -> Forall (fun x => cmatch U not_pipe x = true) xs.
Proof. apply (not1_run 124). Qed.

Lemma not_close_run xs :
  93%N ∉ xs -> Forall (fun x => cmatch U not_close x = true) xs.
Proof. apply (not1_run 93). Qed.

(** *** Scanning *)

Lemma findall_go_skip r xs rest :
  findall_go U r (length xs) (xs ++ rest) = findall_go U r 0 rest.
Proof. induction xs as [|x xs IH]; [done|]. exact IH. Qed.

Lemma findall_match r d rest caps :
  d <> [] ->
  rmatch U r (d ++ rest) = Some (caps, rest) ->
  findall U r (d ++ rest) = caps :: findall U r rest.
Proof.
  intros Hd Hm. destruct d as [|x d]; [done|].
  unfold findall. change ((x :: d) ++ rest) with (x :: d ++ rest) in *.
  cbn [findall_go]. rewrite Hm. f_equal.
  replace (length (x :: d ++ rest) - length rest - 1) with (length d)
    by (simpl; rewrite length_app; lia).
  apply findall_go_skip.
Qed.

(** *** The fields of the response *)

(** Each field of the response depends on the matches of its own
    pattern alone: go through the four lists of matches. *)
Ltac by_matches :=
  unfold process_response_for_enhanced_features, patterns, process_pattern;
  cbn [foldl fst snd];
  repeat match goal with
         | |- context [findall ?U ?p ?text] => destruct (findall U p text)
         end;
  reflexivity.

Lemma process_links text :
  Response.links_to_display (process_response_for_enhanced_features U text)
  = map link_of (findall U pat_display_link text).
Proof.
  by_matches.
Qed.

Lemma process_cards text :
  Response.product_cards (process_response_for_enhanced_features U text)
  = map card_of (findall U pat_product_card text).
Proof.
  by_matches.
Qed.

Lemma process_comparison text :
  Response.comparison_data (process_response_for_enhanced_features U text)
  = match findall U pat_compare_products text with
    | [] => None
    | m0 :: _ => Some (nth 0 m0 [])
    end.
Proof.
  by_matches.
Qed.

Lemma process_purchase text :
  Response.purchase_intent_data (process_response_for_enhanced_features U text)
  = match findall U pat_purchase_intent text with
    | [] => None
    | m0 :: _ => Some (purchase_of m0)
    end.
Proof.
  by_matches.
Qed.
End ParserFacts.

(** *** The directives as the model writes them *)

Lemma lstrip_elem x s : x ∈ lstrip s -> x ∈ s.
Proof.
  destruct (lstrip_decomp s) as (wsp & Hs & _). intros Hx.
  rewrite Hs. apply elem_of_app. by right.
Qed.

Lemma lstrip_head_app s t :
  lstrip s <> [] ->
  match lstrip s ++ t with [] => True | c :: _ => is_space c = false end.
Proof.
  intros Hne. pose proof (lstrip_head s) as H.
  by destruct (lstrip s).
Qed.

Section Directives.
Variable U : unicode_db.

Lemma m_lit_end l mark caps s :
  m_items U (lit l) mark caps (str l ++ s) = Some (caps, s).
Proof. rewrite <- (app_nil_r (lit l)). by rewrite m_lit. Qed.

(** \s* before a field: the white space in front of the field is
    passed over. *)
Lemma m_ws_field r mark caps f t res :
  lstrip f <> [] ->
  m_items U r mark caps (lstrip f ++ t) = Some res ->
  m_items U (ws :: r) mark caps (f ++ t) = Some res.
Proof.
  intros Hne Hk. destruct (lstrip_decomp f) as (wsp & Hf & Hws).
  rewrite Hf at 1. rewrite <- app_assoc.
  apply m_ws; [exact Hws|by apply lstrip_head_app|exact Hk].
Qed.

Lemma rmatch_compare a rest :
  lstrip a <> [] -> 93%N ∉ a ->
  rmatch U pat_compare_products (compare_directive a ++ rest)
  = Some ([lstrip a], rest).
Proof.
  intros Hne Ha. unfold rmatch, pat_compare_products, compare_directive.
  rewrite <- !app_assoc. rewrite m_lit.
  apply m_ws_field; [done|].
  apply m_grp.
  - right. done.
  - apply not_close_run. intros Hx. by apply Ha, lstrip_elem.
  - done.
  - apply m_lit_end.
Qed.

Lemma m_ws_pipe r mark caps t res :
  m_items U r mark caps t = Some res ->
  m_items U (ws :: lit "|" ++ r) mark caps (str "|" ++ t) = Some res.
Proof.
  intros Hk. apply (m_ws U _ mark caps [] (str "|" ++ t)); [constructor|done|].
  by rewrite m_lit.
Qed.

Lemma rmatch_purchase n u p rest :
  lstrip n <> [] -> 124%N ∉ n ->
  lstrip u <> [] -> 124%N ∉ u ->
  lstrip p <> [] -> 93%N ∉ p ->
  rmatch U pat_purchase_intent (purchase_directive n u p ++ rest)
  = Some ([lstrip n; lstrip u; lstrip p], rest).
Proof.
  intros Hn Hn' Hu Hu' Hp Hp'.
  unfold rmatch, pat_purchase_intent, purchase_directive.
  rewrite <- !app_assoc. rewrite m_lit.
  apply m_ws_field; [done|].
  apply m_grp;
    [by right
    |apply not_pipe_run; intros Hx; by apply Hn', lstrip_elem
    |done|].
  apply m_ws_pipe. apply m_ws_field; [done|].
  apply m_grp;
    [by right
    |apply not_pipe_run; intros Hx; by apply Hu', lstrip_elem
    |done|].
  apply m_ws_pipe. apply m_ws_field; [done|].
  apply m_grp;
    [by right
    |apply not_close_run; intros Hx; by apply Hp', lstrip_elem
    |done|].
  apply m_lit_end.
Qed.

Lemma rmatch_link n u rest :
  lstrip n <> [] -> 124%N ∉ n ->
  lstrip u <> [] -> 93%N ∉ u ->
  rmatch U pat_display_link (link_directive n u ++ rest)
  = Some ([lstrip n; lstrip u], rest).
Proof.
  intros Hn Hn' Hu Hu'.
  unfold rmatch, pat_display_link, link_directive.
  rewrite <- !app_assoc. rewrite m_lit.
  apply m_ws_field; [done|].
  apply m_grp;
    [by right
    |apply not_pipe_run; intros Hx; by apply Hn', lstrip_elem
    |done|].
  apply m_ws_pipe. apply m_ws_field; [done|].
  apply m_grp;
    [by right
    |apply not_close_run; intros Hx; by apply Hu', lstrip_elem
    |done|].
  apply m_lit_end.
Qed.

Lemma rmatch_card n u p r f1 f2 img rest :
  lstrip n <> [] -> 124%N ∉ n ->
  u <> [] -> 124%N ∉ u ->
  p <> [] -> 124%N ∉ p ->
  r <> [] -> 124%N ∉ r ->
  124%N ∉ f1 -> 124%N ∉ f2 -> 93%N ∉ img ->
  rmatch U pat_product_card (card_directive n u p r f1 f2 img ++ rest)
  = Some ([lstrip n; u; p; r; f1; f2; img], rest).
Proof.
  intros Hn Hn' Hu Hu' Hp Hp' Hr Hr' Hf1 Hf2 Himg.
  unfold rmatch, pat_product_card, card_directive.
  rewrite <- !app_assoc. rewrite m_lit.
  apply m_ws_field; [done|].
  apply m_grp;
    [by right
    |apply not_pipe_run; intros Hx; by apply Hn', lstrip_elem
    |done|].
  rewrite m_lit.
  apply m_grp; [by right|by apply not_pipe_run|done|]. rewrite m_lit.
  apply m_grp; [by right|by apply not_pipe_run|done|]. rewrite m_lit.
  apply m_grp; [by right|by apply not_pipe_run|done|]. rewrite m_lit.
  apply m_grp; [by left|by apply not_pipe_run|done|]. rewrite m_lit.
  apply m_grp; [by left|by apply not_pipe_run|done|]. rewrite m_lit.
  apply m_grp; [by left|by apply not_close_run|done|].
  apply m_lit_end.
Qed.
End Directives.

Section Occurrences.
Variable U : unicode_db.

Lemma startswith_app_absent m : forall u c s,
  c ∉ m -> startswith m (u ++ c :: s) = startswith m u.
Proof.
  induction m as [|a m IH]; intros u c s Hc; [done|].
  apply not_elem_of_cons in Hc as [Hca Hc].
  destruct u as [|y u]; simpl.
  - by rewrite (proj2 (N.eqb_neq a c)) by congruence.
  - by rewrite IH.
Qed.

(** An occurrence of a marker cannot begin before a bracket and run
    across it. *)
Lemma startswith_straddle m u s :
  opens_once m -> u <> [] ->
  startswith m (u ++ 91%N :: s) = startswith m u.
Proof.
  intros [Hh Ht] Hu. destruct m as [|x m]; [done|].
  destruct u as [|y u]; [done|]. simpl in *.
  by rewrite startswith_app_absent.
Qed.

Lemma m_lit_fail l r mark caps : forall s,
  startswith (str l) s = false -> m_items U (lit l ++ r) mark caps s = None.
Proof.
  unfold lit. induction (str l) as [|a cs IH]; intros s Hs; [done|].
  cbn [map app m_items m_quant]. rewrite rep_greedy_one.
  destruct s as [|b s]; [done|]. cbn [cmatch].
  simpl in Hs. rewrite N.eqb_sym in Hs.
  destruct (b =? a)%N; [|done]. by apply IH.
Qed.

Lemma findall_skip_marker p l r pre s :
  p = lit l ++ r -> opens_once (str l) ->
  contains (str l) pre = false ->
  findall U p (pre ++ 91%N :: s) = findall U p (91%N :: s).
Proof.
  intros -> Hm. unfold findall. induction pre as [|x pre IH]; [done|].
  cbn [contains]. rewrite orb_false_iff. intros [Hx Hpre].
  change ((x :: pre) ++ 91%N :: s) with (x :: (pre ++ 91%N :: s)).
  cbn [findall_go]. unfold rmatch at 1.
  rewrite m_lit_fail; [by apply IH|].
  change (x :: pre ++ 91%N :: s) with ((x :: pre) ++ 91%N :: s).
  by rewrite startswith_straddle.
Qed.

Lemma findall_no_marker p l r s :
  p = lit l ++ r -> contains (str l) s = false -> findall U p s = [].
Proof.
  intros ->. unfold findall. induction s as [|x s IH]; cbn [contains findall_go].
  - rewrite orb_false_r. intros Hs. unfold rmatch. by rewrite m_lit_fail.
  - rewrite orb_false_iff. intros [Hx Hs]. unfold rmatch at 1.
    rewrite m_lit_fail by done. auto.
Qed.

(** The directive that follows text without its marker is the first
    match, and the scan goes on after it. *)
Lemma findall_directive p l r pre d rest caps :
  p = lit l ++ r -> opens_once (str l) ->
  contains (str l) pre = false ->
  head d = Some 91%N ->
  rmatch U p (d ++ rest) = Some (caps, rest) ->
  findall U p (pre ++ d ++ rest) = caps :: findall U p rest.
Proof.
  intros Hp Hm Hpre Hd Hmatch. destruct d as [|x d]; [done|].
  injection Hd as ->.
  change ((91%N :: d) ++ rest) with (91%N :: d ++ rest) in *.
  rewrite (findall_skip_marker p l r) by done.
  by apply (findall_match U p (91%N :: d)).
Qed.

Lemma opens_once_link : opens_once (str "[DISPLAY_LINK:").
Proof. split; [done|]. by_eval. Qed.

Lemma opens_once_card : opens_once (str "[PRODUCT_CARD:").
Proof. split; [done|]. by_eval. Qed.

Lemma opens_once_compare : opens_once (str "[COMPARE_PRODUCTS:").
Proof. split; [done|]. by_eval. Qed.

Lemma opens_once_purchase : opens_once (str "[PURCHASE_INTENT:").
Proof. split; [done|]. by_eval. Qed.

Lemma findall_cards cs : forall post,
  Forall card_text_ok cs ->
  contains (str "[PRODUCT_CARD:") post = false ->
  map card_of (findall U pat_product_card (concat (map render_card cs) ++ post))
  = map card_record cs.
Proof.
  induction cs as [|c cs IH]; intros post Hcs Hpost; simpl.
  - by rewrite (findall_no_marker pat_product_card "[PRODUCT_CARD:" _ post eq_refl).
  - inversion Hcs as [|? ? Hc Hcs']; subst.
    destruct Hc as (Hb & Hn & Hn' & Hu & Hu' & Hp & Hp' & Hr & Hr' & H1 & H2 & Hi).
    unfold render_card at 1. rewrite <- !app_assoc.
    rewrite (findall_directive pat_product_card "[PRODUCT_CARD:" _ _ _ _
               [lstrip (ct_name c); ct_url c; ct_price c; ct_rating c;
                ct_feature1 c; ct_feature2 c; ct_image_hint c] eq_refl);
      [|apply opens_once_card|done|done|by apply rmatch_card].
    simpl. rewrite IH by done. f_equal.
    unfold card_of, card_record. simpl. by rewrite strip_lstrip.
Qed.

Lemma findall_links ls : forall post,
  Forall link_text_ok ls ->
  contains (str "[DISPLAY_LINK:") post = false ->
  map link_of (findall U pat_display_link (concat (map render_link ls) ++ post))
  = map link_record ls.
Proof.
  induction ls as [|l ls IH]; intros post Hls Hpost; simpl.
  - by rewrite (findall_no_marker pat_display_link "[DISPLAY_LINK:" _ post eq_refl).
  - inversion Hls as [|? ? Hl Hls']; subst.
    destruct Hl as (Hb & Hn & Hn' & Hu & Hu').
    unfold render_link at 1. rewrite <- !app_assoc.
    rewrite (findall_directive pat_display_link "[DISPLAY_LINK:" _ _ _ _
               [lstrip (lt_name l); lstrip (lt_url l)] eq_refl);
      [|apply opens_once_link|done|done|by apply rmatch_link].
    simpl. rewrite IH by done. f_equal.
    unfold link_of, link_record. simpl. by rewrite !strip_lstrip.
Qed.

(** C1, as amended: of several COMPARE_PRODUCTS (or PURCHASE_INTENT)
    directives the first one is kept in [comparison_data]
    ([purchase_intent_data]), whatever follows it, while every
    PRODUCT_CARD and every DISPLAY_LINK directive of the text yields a
    record, in the order of the text. *)
Theorem first_directive_kept_lists_accumulate :
  (forall pre a rest,
      contains (str "[COMPARE_PRODUCTS:") pre = false ->
      lstrip a <> [] -> 93%N ∉ a ->
      Response.comparison_data
        (process_response_for_enhanced_features U
           (pre ++ compare_directive a ++ rest))
      = Some (lstrip a))
  /\ (forall pre n u p rest,
      contains (str "[PURCHASE_INTENT:") pre = false ->
      lstrip n <> [] -> 124%N ∉ n ->
      lstrip u <> [] -> 124%N ∉ u ->
      lstrip p <> [] -> 93%N ∉ p ->
      Response.purchase_intent_data
        (process_response_for_enhanced_features U
           (pre ++ purchase_directive n u p ++ rest))
      = Some {| Purchase.product_name := strip n;
                Purchase.url := strip u;
                Purchase.price := strip p |})
  /\ (forall cs post,
      Forall card_text_ok cs ->
      contains (str "[PRODUCT_CARD:") post = false ->
      Response.product_cards
        (process_response_for_enhanced_features U
           (concat (map render_card cs) ++ post))
      = map card_record cs)
  /\ (forall ls post,
      Forall link_text_ok ls ->
      contains (str "[DISPLAY_LINK:") post = false ->
      Response.links_to_display
        (process_response_for_enhanced_features U
           (concat (map render_link ls) ++ post))
      = map link_record ls).
Proof.
  split; [|split; [|split]].
  - intros pre a rest Hpre Ha Ha'. rewrite process_comparison.
    rewrite (findall_directive pat_compare_products "[COMPARE_PRODUCTS:"
               _ _ _ _ [lstrip a] eq_refl);
      [done|apply opens_once_compare|done|done|by apply rmatch_compare].
  - intros pre n u p rest Hpre Hn Hn' Hu Hu' Hp Hp'. rewrite process_purchase.
    rewrite (findall_directive pat_purchase_intent "[PURCHASE_INTENT:"
               _ _ _ _ [lstrip n; lstrip u; lstrip p] eq_refl);
      [|apply opens_once_purchase|done|done|by apply rmatch_purchase].
    unfold purchase_of. simpl. by rewrite !strip_lstrip.
  - intros cs post Hcs Hpost. rewrite process_cards. by apply findall_cards.
  - intros ls post Hls Hpost. rewrite process_links. by apply findall_links.
Qed.

(** A match holds every literal character of its pattern. *)
Lemma m_items_lit_count c r : forall mark caps s caps' rest,
  m_items U r mark caps s = Some (caps', rest) ->
  exists m, s = m ++ rest /\ lit_count c r <= count c m.
Proof.
  induction r as [|i r IH]; intros mark caps s caps' rest H.
  - inversion H; subst. exists []. split; [done|simpl; lia].
  - destruct i as [cl q| |]; cbn [m_items] in H; [|by eapply IH..].
    apply m_quant_inv in H as (xs & rest1 & -> & Hxs & Hmin & Hk).
    apply IH in Hk as (m & -> & Hm).
    exists (xs ++ m). split; [by rewrite <- app_assoc|].
    unfold count in *. rewrite count_occ_app.
    destruct cl as [a| | | | | |]; cbn [lit_count]; try lia.
    destruct q; cbn [lit_count]; try lia.
    destruct (N.eqb_spec a c) as [->|_]; [|lia].
    destruct xs as [|x xs]; [simpl in Hmin; lia|].
    inversion Hxs as [|? ? Hx _]; subst. cbn [cmatch] in Hx.
    apply N.eqb_eq in Hx as ->. cbn [count_occ].
    destruct (N.eq_dec c c); [lia|done].
Qed.

(** Every match of the PRODUCT_CARD pattern takes six "|" from the
    text. *)
Lemma findall_cards_pipes : forall s skip,
  6 * length (findall_go U pat_product_card skip s) <= count 124 (drop skip s).
Proof.
  induction s as [|c s IH]; intros skip.
  - destruct skip; simpl; lia.
  - destruct skip as [|k]; [|apply IH].
    cbn [findall_go drop].
    destruct (rmatch U pat_product_card (c :: s)) as [[caps rest]|] eqn:E.
    + unfold rmatch in E.
      apply (m_items_lit_count 124) in E as (m & Hs & Hm).
      change (lit_count 124 pat_product_card) with 6 in Hm.
      destruct m as [|x m]; [simpl in Hm; lia|].
      inversion Hs; subst x s.
      replace (length (c :: m ++ rest) - length rest - 1) with (length m)
        by (cbn [length]; rewrite length_app; lia).
      specialize (IH (length m)). rewrite drop_app_length in IH.
      change (c :: m ++ rest) with ((c :: m) ++ rest).
      unfold count in *. rewrite count_occ_app. cbn [length]. lia.
    + specialize (IH 0). rewrite drop_0 in IH.
      unfold count in *. cbn [count_occ]. destruct (N.eq_dec c 124%N); lia.
Qed.

(** C4, as amended: the last three fields of a PRODUCT_CARD directive
    may be empty, but their separators must be written.  The directive
    with the four leading fields and "|||" is extracted as one card
    whose [feature1], [feature2] and [image_hint] are the empty string.
    A directive that leaves the separators out is not a card of its own:
    every card that is extracted takes six "|" from the response, so a
    response with fewer than six holds no card, and a response with
    fewer than twelve holds at most one. *)
Theorem card_optional_fields_may_be_empty :
  (forall pre n u p r post,
      contains (str "[PRODUCT_CARD:") pre = false ->
      contains (str "[PRODUCT_CARD:") post = false ->
      lstrip n <> [] -> 124%N ∉ n ->
      u <> [] -> 124%N ∉ u ->
      p <> [] -> 124%N ∉ p ->
      r <> [] -> 124%N ∉ r ->
      Response.product_cards
        (process_response_for_enhanced_features U
           (pre ++ str "[PRODUCT_CARD:" ++ n ++ str "|" ++ u ++ str "|" ++ p
                ++ str "|" ++ r ++ str "|||]" ++ post))
      = [ {| Card.name := strip n; Card.url := strip u;
             Card.price := strip p; Card.rating := strip r;
             Card.feature1 := []; Card.feature2 := [];
             Card.image_hint := [] |} ])
  /\ (forall text,
        6 * length (Response.product_cards
                      (process_response_for_enhanced_features U text))
        <= count 124 text)
  /\ (forall text,
        count 124 text < 6 ->
        Response.product_cards (process_response_for_enhanced_features U text)
        = []).
Proof.
  assert (Hpipes : forall text,
            6 * length (Response.product_cards
                          (process_response_for_enhanced_features U text))
            <= count 124 text).
  { intros text. rewrite process_cards, length_map.
    pose proof (findall_cards_pipes text 0) as H. by rewrite drop_0 in H. }
  split; [|split; [done|]].
  - intros pre n u p r post Hpre Hpost Hn Hn' Hu Hu' Hp Hp' Hr Hr'.
    pose (c := {| ct_before := pre; ct_name := n; ct_url := u; ct_price := p;
                  ct_rating := r; ct_feature1 := []; ct_feature2 := [];
                  ct_image_hint := [] |}).
    rewrite process_cards.
    assert (Htext :
      pre ++ str "[PRODUCT_CARD:" ++ n ++ str "|" ++ u ++ str "|" ++ p
          ++ str "|" ++ r ++ str "|||]" ++ post
      = concat (map render_card [c]) ++ post).
    { unfold render_card, card_directive. cbn [map concat c ct_before ct_name
        ct_url ct_price ct_rating ct_feature1 ct_feature2 ct_image_hint].
      rewrite app_nil_r, <- !app_assoc. reflexivity. }
    rewrite Htext. apply findall_cards; [|done].
    repeat constructor; try done; apply not_elem_of_nil.
  - intros text Hlt. specialize (Hpipes text).
    destruct (Response.product_cards _) as [|c0 cs]; [done|].
    cbn [length] in Hpipes. lia.
Qed.
End Occurrences.

Lemma first_directive_kept_lists_accumulate_witness :
  Response.comparison_data
    (process_response_for_enhanced_features ascii_db
       (str "Sure! " ++ compare_directive (str " A vs B")
        ++ str " or [COMPARE_PRODUCTS: C vs D]"))
  = Some (lstrip (str " A vs B")).
Proof.
  apply (proj1 (first_directive_kept_lists_accumulate ascii_db)).
  - by_eval.
  - vm_compute. discriminate.
  - by_eval.
Defined.

Lemma last_directive_not_kept :
  Response.comparison_data
    (process_response_for_enhanced_features ascii_db
       (str "[COMPARE_PRODUCTS: A vs B] or [COMPARE_PRODUCTS: C vs D]"))
  = Some (str "A vs B")
  /\ Response.comparison_data
       (process_response_for_enhanced_features ascii_db
          (str "[COMPARE_PRODUCTS: A vs B] or [COMPARE_PRODUCTS: C vs D]"))
     <> Some (str "C vs D")
  /\ Response.purchase_intent_data
       (process_response_for_enhanced_features ascii_db
          (str "[PURCHASE_INTENT: Mouse | u1 | $10][PURCHASE_INTENT: Keyboard | u2 | $20]"))
     = Some {| Purchase.product_name := str "Mouse";
               Purchase.url := str "u1";
               Purchase.price := str "$10" |}.
Proof.
  split; [|split].
  - vm_compute. reflexivity.
  - vm_compute. discriminate.
  - vm_compute. reflexivity.
Qed.

Lemma card_optional_fields_may_be_empty_witness :
  Response.product_cards
    (process_response_for_enhanced_features ascii_db
       (str "Look: " ++ str "[PRODUCT_CARD:" ++ str " Wireless Mouse"
        ++ str "|" ++ str "https://amazon.com/dp/ABC123" ++ str "|"
        ++ str "$19.99" ++ str "|" ++ str "4.5" ++ str "|||]" ++ str " ok"))
  = [ {| Card.name := strip (str " Wireless Mouse");
         Card.url := strip (str "https://amazon.com/dp/ABC123");
         Card.price := strip (str "$19.99");
         Card.rating := strip (str "4.5");
         Card.feature1 := []; Card.feature2 := []; Card.image_hint := [] |} ].
Proof.
  apply (proj1 (card_optional_fields_may_be_empty ascii_db));
    try by_eval;
    vm_compute; discriminate.
Defined.

Lemma card_without_optional_fields_dropped :
  Response.product_cards
    (process_response_for_enhanced_features ascii_db
       (str "[PRODUCT_CARD: Wireless Mouse|https://amazon.com/dp/ABC123|$19.99|4.5]"))
  = []
  /\ Response.product_cards
       (process_response_for_enhanced_features ascii_db
          (str "[PRODUCT_CARD: A|u1|$1|4] [PRODUCT_CARD: B|u2|$2|5]"))
     = [ {| Card.name := str "A"; Card.url := str "u1";
            Card.price := str "$1";
            Card.rating := str "4] [PRODUCT_CARD: B";
            Card.feature1 := str "u2"; Card.feature2 := str "$2";
            Card.image_hint := str "5" |} ].
Proof. split; vm_compute; reflexivity. Qed.

(** C2 at a failing input: the response below has no directive that the
    patterns match until the inner PURCHASE_INTENT marker is deleted by
    the last clean-up pattern; the DISPLAY_LINK directive that appears
    then stays in [spoken_text]. *)
Lemma spoken_text_keeps_directive :
  Response.spoken_text
    (process_response_for_enhanced_features ascii_db
       (str "[DISPLAY_LINK[PURCHASE_INTENT: x]: a | b]"))
  = str "[DISPLAY_LINK: a | b]"
  /\ re_search ascii_db pat_display_link (str "[DISPLAY_LINK: a | b]")
     = Some ([str "a "; str "b"], []).
Proof. split; vm_compute; reflexivity. Qed.

(** ** The voice text optimizer *)

Section CharInvariant.
Variable Q : N -> Prop.

Lemma Forall_lstrip s : Forall Q s -> Forall Q (lstrip s).
Proof.
  destruct (lstrip_decomp s) as (wsp & Hs & _). intros H.
  rewrite Hs in H. by apply Forall_app in H as [_ ?].
Qed.

Lemma Forall_strip s : Forall Q s -> Forall Q (strip s).
Proof.
  intros H. unfold strip, rstrip.
  apply Forall_rev, Forall_lstrip, Forall_rev. by apply Forall_lstrip.
Qed.

Lemma Forall_join sep l :
  Forall Q sep -> Forall (Forall Q) l -> Forall Q (join sep l).
Proof.
  intros Hsep Hl. induction Hl as [|x l Hx Hl IH]; simpl; [constructor|].
  destruct l as [|y l]; [done|].
  apply Forall_app. split; [done|]. apply Forall_app. by split.
Qed.

Lemma Forall_replace_go old new s : forall skip,
  Forall Q new -> Forall Q s -> Forall Q (replace_go old new skip s).
Proof.
  induction s as [|c s IH]; intros skip Hnew Hs; simpl; [constructor|].
  inversion Hs; subst. destruct skip; [|auto].
  destruct (startswith old (c :: s)).
  - apply Forall_app. auto.
  - constructor; auto.
Qed.

Lemma Forall_replace old new s :
  Forall Q new -> Forall Q s -> Forall Q (replace old new s).
Proof.
  intros Hnew Hs. destruct old; simpl; [|by apply Forall_replace_go].
  apply Forall_app. split; [done|].
  induction Hs; simpl; [constructor|]. constructor; [done|].
  apply Forall_app. by split.
Qed.

Lemma Forall_split_go sep s : forall skip,
  Forall Q s ->
  Forall Q (fst (split_go sep skip s))
  /\ Forall (Forall Q) (snd (split_go sep skip s)).
Proof.
  induction s as [|c s IH]; intros skip Hs; simpl; [by split; constructor|].
  inversion Hs as [|? ? Hc Hs']; subst. destruct skip; [|auto].
  destruct (startswith sep (c :: s)); simpl.
  - destruct (IH (length sep - 1)) as [H1 H2]; [done|].
    destruct (split_go sep (length sep - 1) s). simpl in *.
    split; [constructor|by constructor].
  - destruct (IH 0) as [H1 H2]; [done|].
    destruct (split_go sep 0 s). simpl in *. split; [by constructor|done].
Qed.

Lemma Forall_split sep s : Forall Q s -> Forall (Forall Q) (split sep s).
Proof.
  intros Hs. unfold split. destruct (Forall_split_go sep s 0 Hs) as [H1 H2].
  destruct (split_go sep 0 s). by constructor.
Qed.
End CharInvariant.

Lemma Forall_sub_go (Q : N -> Prop) U r s : forall skip,
  Forall Q s -> Forall Q (sub_go U r skip s).
Proof.
  induction s as [|c s IH]; intros skip Hs; cbn [sub_go]; [constructor|].
  inversion Hs; subst. destruct skip; [|auto].
  destruct (rmatch U r (c :: s)) as [[caps rest]|].
  - destruct (length (c :: s) - length rest); [constructor|]; auto.
  - constructor; auto.
Qed.

(** The pieces of a split at a character do not contain it. *)
Lemma split_char_pieces c s :
  Forall (fun piece => c ∉ piece) (split [c] s).
Proof.
  unfold split. induction s as [|x s IH]; simpl.
  - repeat constructor. apply not_elem_of_nil.
  - rewrite andb_true_r.
    destruct (split_go [c] 0 s) as [p ps]. inversion IH; subst.
    destruct (c =? x)%N eqn:E.
    + repeat constructor; auto. apply not_elem_of_nil.
    + constructor; [|done]. apply not_elem_of_cons. split; [|done].
      apply N.eqb_neq in E. congruence.
Qed.

Lemma lstrip_snoc u c : is_space c = false -> lstrip (u ++ [c]) = lstrip u ++ [c].
Proof.
  intros Hc. induction u as [|x u IH]; simpl.
  - by rewrite Hc.
  - by destruct (is_space x).
Qed.

Lemma rstrip_cons_nonspace c t :
  is_space c = false -> rstrip (c :: t) = c :: rstrip t.
Proof.
  intros Hc. unfold rstrip. simpl.
  by rewrite lstrip_snoc, rev_app_distr.
Qed.

Lemma lstrip_strip s : lstrip (strip s) = strip s.
Proof.
  unfold strip. pose proof (lstrip_head s) as H.
  destruct (lstrip s) as [|c t]; [done|].
  rewrite rstrip_cons_nonspace by done. simpl. by rewrite H.
Qed.

Lemma rstrip_idemp s : rstrip (rstrip s) = rstrip s.
Proof. unfold rstrip. by rewrite rev_involutive, lstrip_idemp. Qed.

Lemma strip_idemp s : strip (strip s) = strip s.
Proof.
  unfold strip at 1. rewrite lstrip_strip. unfold strip. apply rstrip_idemp.
Qed.

(** *** Counting the full stops *)

Lemma split_char_length c s : length (split [c] s) = S (count c s).
Proof.
  unfold split, count. induction s as [|x s IH]; simpl; [done|].
  rewrite andb_true_r. destruct (split_go [c] 0 s) as [p ps]. simpl in IH.
  destruct (N.eq_dec x c) as [->|Hne].
  - rewrite N.eqb_refl. simpl. by rewrite IH.
  - rewrite (proj2 (N.eqb_neq c x)) by congruence. simpl. by rewrite IH.
Qed.

Lemma count_app c s t : count c (s ++ t) = count c s + count c t.
Proof. apply count_occ_app. Qed.

Lemma count_lstrip c s : count c (lstrip s) <= count c s.
Proof.
  destruct (lstrip_decomp s) as (wsp & Hs & _).
  rewrite Hs at 2. rewrite count_app. lia.
Qed.

Lemma count_rev c s : count c (rev s) = count c s.
Proof. apply count_occ_rev. Qed.

Lemma count_strip c s : count c (strip s) <= count c s.
Proof.
  unfold strip, rstrip. rewrite count_rev.
  etrans; [apply count_lstrip|]. rewrite count_rev. apply count_lstrip.
Qed.

Lemma count_absent c s : c ∉ s -> count c s = 0.
Proof.
  intros H. apply count_occ_not_In. by rewrite <- list_elem_of_In.
Qed.

(** *** Operations that find nothing to do *)

Lemma split_none sep s : contains sep s = false -> split sep s = [s].
Proof.
  unfold split. induction s as [|c s IH]; [done|].
  cbn [contains split_go]. rewrite orb_false_iff. intros [-> Hc].
  specialize (IH Hc). destruct (split_go sep 0 s). by inversion IH.
Qed.

Lemma replace_none old new s : contains old s = false -> replace old new s = s.
Proof.
  destruct old as [|o old]; [by destruct s|].
  unfold replace. induction s as [|c s IH]; [done|].
  cbn [contains replace_go]. rewrite orb_false_iff. intros [-> Hc].
  by rewrite IH.
Qed.

Lemma sub_none U r s : re_search U r s = None -> re_sub_del U r s = s.
Proof.
  unfold re_sub_del. induction s as [|c s IH]; [done|].
  cbn [re_search sub_go].
  destruct (rmatch U r (c :: s)); [done|]. intros H. by rewrite IH.
Qed.

Section Optimizer.
Variable U : unicode_db.

Lemma not_newline_check s :
  forallb (fun c => negb (c =? 10)%N) s = true -> Forall not_newline s.
Proof.
  induction s as [|c s IH]; simpl; [constructor|].
  rewrite andb_true_iff, negb_true_iff, N.eqb_neq. intros [Hc Hs].
  constructor; auto.
Qed.

Lemma replacements_no_newline :
  Forall (fun fc => Forall not_newline (snd fc)) replacements.
Proof.
  unfold replacements.
  repeat (apply List.Forall_cons; [apply not_newline_check; reflexivity|]).
  apply List.Forall_nil.
Qed.

Lemma foldl_sub_invariant (Q : N -> Prop) ps : forall r,
  Forall Q r ->
  Forall Q (foldl (fun r p => strip (re_sub_del U p r)) r ps).
Proof.
  induction ps as [|p ps IH]; intros r Hr; simpl; [done|].
  apply IH, Forall_strip. by apply Forall_sub_go.
Qed.

Lemma foldl_replace_invariant (Q : N -> Prop) (reps : list (pystr * pystr)) :
  Forall (fun fc => Forall Q (snd fc)) reps ->
  forall r, Forall Q r ->
  Forall Q (foldl (fun r fc => replace (fst fc) (snd fc) r) r reps).
Proof.
  induction 1 as [|fc reps Hfc _ IH]; intros r Hr; simpl; [done|].
  apply IH. by apply Forall_replace.
Qed.

Lemma truncate_invariant (Q : N -> Prop) r :
  Q 46%N -> Q 32%N -> Forall Q r -> Forall Q (truncate_sentences r).
Proof.
  intros Hdot Hsp Hr. unfold truncate_sentences.
  destruct (4 <? length (split (str ".") r)); [|done].
  apply Forall_app. split; [|by repeat constructor].
  apply Forall_join; [by repeat constructor|].
  by apply Forall_take, Forall_split.
Qed.

Lemma optimize_no_newline x : Forall not_newline (_optimize_for_voice U x).
Proof.
  unfold _optimize_for_voice.
  apply Forall_strip, truncate_invariant; [done|done|].
  apply foldl_replace_invariant; [apply replacements_no_newline|].
  apply foldl_sub_invariant.
  apply Forall_join; [by repeat constructor|].
  apply Forall_forall. intros l Hl.
  apply list_elem_of_filter in Hl as [_ Hl].
  apply list_elem_of_fmap in Hl as (l0 & -> & Hl0).
  apply Forall_strip.
  pose proof (split_char_pieces 10 x) as Hp.
  rewrite Forall_forall in Hp. specialize (Hp l0 Hl0).
  apply Forall_forall. intros c Hc Heq. apply Hp. by rewrite <- Heq.
Qed.

Lemma truncate_sentences_count r : count 46 (truncate_sentences r) <= 3.
Proof.
  unfold truncate_sentences.
  pose proof (split_char_pieces 46 r) as Hp.
  pose proof (split_char_length 46 r) as Hl.
  change (str ".") with [46%N].
  destruct (4 <? length (split [46%N] r)) eqn:E.
  - apply Nat.ltb_lt in E.
    destruct (split [46%N] r) as [|a [|b [|c [|d l]]]]; simpl in E; try lia.
    inversion Hp as [|? ? Ha Hp1]; subst.
    inversion Hp1 as [|? ? Hb Hp2]; subst.
    inversion Hp2 as [|? ? Hc _]; subst.
    cbn [take join]. rewrite !count_app.
    rewrite (count_absent 46 a), (count_absent 46 b), (count_absent 46 c) by done.
    vm_compute. lia.
  - apply Nat.ltb_ge in E. lia.
Qed.

Lemma optimize_sentences x :
  length (split (str ".") (_optimize_for_voice U x)) <= 4.
Proof.
  change (str ".") with [46%N]. rewrite split_char_length.
  unfold _optimize_for_voice.
  etrans; [apply le_n_S, count_strip|].
  apply le_n_S, truncate_sentences_count.
Qed.

Lemma foldl_sub_none ps y :
  strip y = y ->
  Forall (fun p => re_search U p y = None) ps ->
  foldl (fun r p => strip (re_sub_del U p r)) y ps = y.
Proof.
  intros Hy. induction 1 as [|p ps Hp _ IH]; simpl; [done|].
  by rewrite sub_none, Hy.
Qed.

Lemma foldl_replace_none (reps : list (pystr * pystr)) y :
  Forall (fun fc => contains (fst fc) y = false) reps ->
  foldl (fun r fc => replace (fst fc) (snd fc) r) y reps = y.
Proof.
  induction 1 as [|fc reps Hfc _ IH]; simpl; [done|].
  by rewrite replace_none.
Qed.

(** C3, as amended: a second run of the optimizer never truncates
    further, and it returns the optimized text unchanged whenever that
    text does not begin with a list marker, holds no bracketed directive
    and holds none of the phrases to replace. *)
Theorem optimizer_idempotent_on_settled_text (x : pystr) :
  let y := _optimize_for_voice U x in
  truncate_sentences y = y
  /\ (existsb (fun m => startswith m y) list_markers = false ->
      Forall (fun p => re_search U p y = None) special_formats ->
      Forall (fun fc => contains (fst fc) y = false) replacements ->
      _optimize_for_voice U y = y).
Proof.
  intros y.
  assert (Hstrip : strip y = y) by apply strip_idemp.
  assert (Htrunc : truncate_sentences y = y).
  { unfold truncate_sentences.
    pose proof (optimize_sentences x) as Hlen. fold y in Hlen.
    by rewrite (proj2 (Nat.ltb_ge _ _) Hlen). }
  split; [done|]. intros Hmark Hfmt Hrep.
  assert (Hnl : contains [10%N] y = false).
  { apply contains_char. intros Hin.
    pose proof (optimize_no_newline x) as Hq. fold y in Hq.
    rewrite Forall_forall in Hq. by apply (Hq _ Hin). }
  unfold _optimize_for_voice at 1.
  rewrite (split_none _ _ Hnl). cbn [map]. rewrite Hstrip.
  destruct y as [|c y'] eqn:Ey.
  - reflexivity.
  - rewrite <- Ey in *.
    assert (Hkeep : keep_line y = true).
    { rewrite Ey. cbn [keep_line]. rewrite <- Ey. by rewrite Hmark. }
    rewrite filter_cons_True by done. rewrite filter_nil. cbn [join].
    by rewrite foldl_sub_none, foldl_replace_none, Htrunc.
Qed.
End Optimizer.

Lemma optimizer_idempotent_on_settled_text_witness :
  _optimize_for_voice ascii_db
    (_optimize_for_voice ascii_db (str "I apologize. a. b. c. d. e"))
  = _optimize_for_voice ascii_db (str "I apologize. a. b. c. d. e").
Proof.
  apply (proj2 (optimizer_idempotent_on_settled_text ascii_db
                  (str "I apologize. a. b. c. d. e"))).
  - vm_compute. reflexivity.
  - repeat (apply List.Forall_cons; [vm_compute; reflexivity|]).
    apply List.Forall_nil.
  - repeat (apply List.Forall_cons; [vm_compute; reflexivity|]).
    apply List.Forall_nil.
Defined.

Lemma optimizer_not_idempotent :
  _optimize_for_voice ascii_db (str "hthttptp") = str "http"
  /\ _optimize_for_voice ascii_db
       (_optimize_for_voice ascii_db (str "hthttptp")) = []
  /\ _optimize_for_voice ascii_db
       (_optimize_for_voice ascii_db (str "hthttptp"))
     <> _optimize_for_voice ascii_db (str "hthttptp")
  /\ _optimize_for_voice ascii_db (str "www.3.com has it") = str "3.com has it"
  /\ _optimize_for_voice ascii_db (str "3.com has it") = [].
Proof.
  repeat split; vm_compute; try reflexivity. discriminate.
Qed.

(** * Further properties *)

(** ** The fields of a product *)

Section BoundedRepetition.
Context {R : Type}.
Variable p : N -> bool.

Lemma rep_greedy_inv_hi (k : pystr -> option R) s : forall lo hi r,
  rep_greedy p lo (Some hi) k s = Some r ->
  exists xs rest, s = xs ++ rest /\ Forall (fun c => p c = true) xs
                  /\ lo <= length xs <= hi /\ k rest = Some r.
Proof.
  induction s as [|c s IH]; intros lo hi r H; simpl in H.
  - exists [], []. destruct hi as [|h], lo; try discriminate; simpl; auto with lia.
  - assert (Hstop : match lo with O => k (c :: s) | S _ => None end = Some r ->
       exists xs rest, c :: s = xs ++ rest /\ Forall (fun c => p c = true) xs
                  /\ lo <= length xs <= hi /\ k rest = Some r).
    { destruct lo; [|discriminate]. intros Hk. exists [], (c :: s).
      simpl. auto with lia. }
    destruct hi as [|h]; [auto|].
    destruct (p c) eqn:Hc; [|auto].
    simpl in H.
    destruct (rep_greedy p (pred lo) (Some h) k s) as [r'|] eqn:Hrec; [|auto].
    inversion H; subst r'.
    apply IH in Hrec as (xs & rest & -> & Hxs & Hlo & Hk).
    exists (c :: xs), rest; simpl; repeat split; auto with lia.
Qed.
End BoundedRepetition.

Section FieldFacts.
Variable U : unicode_db.

Lemma m_items_group_free_caps r : forall mark caps s caps' rest,
  group_free r ->
  m_items U r mark caps s = Some (caps', rest) -> caps' = caps.
Proof.
  induction r as [|i r IH]; intros mark caps s caps' rest Hr H; simpl in H.
  - by inversion H.
  - inversion Hr as [|? ? Hi Hr']; subst.
    destruct i as [c q| |]; try done.
    apply m_quant_inv in H as (xs & rest' & _ & _ & _ & Hk).
    eauto.
Qed.

(** The text that a pattern without groups passes over is a prefix of
    the text. *)
Lemma m_items_group_free_suffix pre r mark caps : forall s res,
  group_free pre ->
  m_items U (pre ++ r) mark caps s = Some res ->
  exists t s1, s = t ++ s1 /\ m_items U r mark caps s1 = Some res.
Proof.
  induction pre as [|i pre IH]; intros s res Hpre H; simpl in H.
  - exists [], s. auto.
  - inversion Hpre as [|? ? Hi Hpre']; subst.
    destruct i as [c q| |]; try done.
    apply m_quant_inv in H as (xs & rest & -> & _ & _ & Hk).
    apply IH in Hk as (t & s1 & -> & Hk); [|done].
    exists (xs ++ t), s1. by rewrite <- app_assoc.
Qed.

(** What the group of a number captures; [q] is the quantifier of the
    digits in front of the point. *)
Lemma number_group_inv q r mark caps s res :
  m_items U ([IOpen; ICls CDigit q; dot_opt; digits0; IClose] ++ r) mark caps s
    = Some res ->
  exists ds dot fs rest,
    s = ds ++ dot ++ fs ++ rest
    /\ qmin q <= length ds
    /\ (q = QOne -> length ds = 1)
    /\ Forall (fun c => is_digit U c = true) ds
    /\ (dot = [] \/ dot = [46%N])
    /\ Forall (fun c => is_digit U c = true) fs
    /\ m_items U r s (caps ++ [ds ++ dot ++ fs]) rest = Some res.
Proof.
  unfold dot_opt, digits0. cbn [app m_items]. intros H.
  assert (Hds : exists ds s1, s = ds ++ s1 /\ qmin q <= length ds
            /\ (q = QOne -> length ds = 1)
            /\ Forall (fun c => is_digit U c = true) ds
            /\ m_quant (cmatch U (CChar 46)) QOpt
                 (fun s' => m_quant (cmatch U CDigit) QStar
                    (fun s'' => m_items U r s
                       (caps ++ [take (length s - length s'') s]) s'') s') s1
               = Some res).
  { assert (q = QOne \/ q <> QOne) as [->|Hq]
      by (destruct q; auto; right; discriminate).
    - cbn [m_quant] in H.
      apply rep_greedy_inv_hi in H as (ds & s1 & -> & Hds & Hlen & Hk).
      exists ds, s1. simpl. repeat split; auto with lia.
    - apply m_quant_inv in H as (ds & s1 & -> & Hds & Hlen & Hk).
      exists ds, s1. repeat split; auto with lia. done. }
  destruct Hds as (ds & s1 & -> & Hlen & Hone & Hds & H1).
  cbn [m_quant] in H1.
  apply rep_greedy_inv_hi in H1 as (dot & s2 & -> & Hdot & Hdlen & H2).
  apply rep_greedy_inv in H2 as (fs & rest & -> & Hfs & _ & H3).
  exists ds, dot, fs, rest. repeat split; auto.
  - destruct dot as [|c [|c' dot]]; [auto| |simpl in Hdlen; lia].
    right. inversion Hdot as [|? ? Hc _]; subst. simpl in Hc.
    apply N.eqb_eq in Hc. by subst.
  - replace (take _ _) with (ds ++ dot ++ fs) in H3; [done|].
    rewrite !app_assoc. by rewrite take_app_diff.
Qed.

Lemma amount_inv pre post s caps rest :
  group_free pre -> group_free post ->
  rmatch U (pre ++ amount ++ post) s = Some (caps, rest) ->
  exists x t u, caps = [x] /\ is_amount U x /\ s = t ++ x ++ u.
Proof.
  intros Hpre Hpost H. unfold rmatch in H.
  apply m_items_group_free_suffix in H as (t & s1 & -> & H); [|done].
  unfold amount, digits1 in H.
  apply number_group_inv in H
    as (ds & dot & fs & rest' & -> & Hlen & _ & Hds & Hdot & Hfs & H).
  apply m_items_group_free_caps in H; [|done]. subst caps.
  exists (ds ++ dot ++ fs), t, rest'. split_and!; [done| |by rewrite <- !app_assoc].
  exists ds, dot, fs. repeat split; auto.
  intros ->. simpl in Hlen. lia.
Qed.

Lemma score_inv pre post s caps rest :
  group_free pre -> group_free post ->
  rmatch U (pre ++ score ++ post) s = Some (caps, rest) ->
  exists x t u, caps = [x] /\ is_score U x /\ s = t ++ x ++ u.
Proof.
  intros Hpre Hpost H. unfold rmatch in H.
  apply m_items_group_free_suffix in H as (t & s1 & -> & H); [|done].
  unfold score in H.
  apply number_group_inv in H
    as (ds & dot & fs & rest' & -> & _ & Hone & Hds & Hdot & Hfs & H).
  apply m_items_group_free_caps in H; [|done]. subst caps.
  destruct ds as [|d [|d' ds]]; try (specialize (Hone eq_refl); simpl in Hone; lia).
  exists ([d] ++ dot ++ fs), t, rest'.
  split_and!; [done| |by rewrite <- !app_assoc].
  exists d, dot, fs. repeat split; auto. by inversion Hds.
Qed.

Lemma group_free_lit l : group_free (lit l).
Proof. unfold group_free, lit. apply Forall_map, Forall_true. done. Qed.

Lemma group_free_litI l : group_free (litI l).
Proof.
  unfold group_free, litI. apply Forall_map, Forall_true.
  intros c. simpl. by destruct (is_ascii_letter c).
Qed.

Lemma group_free_app r1 r2 : group_free r1 -> group_free r2 -> group_free (r1 ++ r2).
Proof. apply Forall_app_2. Qed.

Lemma group_free_nil : group_free [].
Proof. apply List.Forall_nil. Qed.

Lemma group_free_cls c q : group_free [ICls c q].
Proof. by repeat constructor. Qed.

Lemma price_pattern_shape p :
  p ∈ price_patterns ->
  exists pre post, group_free pre /\ group_free post /\ p = pre ++ amount ++ post.
Proof.
  unfold price_patterns. rewrite !elem_of_cons, elem_of_nil.
  intros [->|[->|[->|[]]]].
  - exists (lit "$"), []. rewrite app_nil_r.
    split_and!; [apply group_free_lit|apply group_free_nil|done].
  - exists (litI "Price:" ++ [ws] ++ lit "$"), []. rewrite app_nil_r.
    split_and!; [|apply group_free_nil|by rewrite <- !app_assoc].
    repeat apply group_free_app;
      [apply group_free_litI|apply group_free_cls|apply group_free_lit].
  - exists [], ([ws] ++ litI "dollar" ++ [ICls (CCharI 115) QOpt]).
    split_and!; [apply group_free_nil| |done].
    repeat apply group_free_app;
      [apply group_free_cls|apply group_free_litI|apply group_free_cls].
Qed.

Lemma rating_pattern_shape p :
  p ∈ rating_patterns ->
  exists pre post, group_free pre /\ group_free post /\ p = pre ++ score ++ post.
Proof.
  unfold rating_patterns. rewrite !elem_of_cons, elem_of_nil.
  intros [->|[->|[->|[]]]].
  - exists [], ([ws] ++ litI "out of 5 stars").
    split_and!; [apply group_free_nil| |done].
    repeat apply group_free_app; [apply group_free_cls|apply group_free_litI].
  - exists (litI "Rating:" ++ [ws]), []. rewrite app_nil_r.
    split_and!; [|apply group_free_nil|by rewrite <- !app_assoc].
    repeat apply group_free_app; [apply group_free_litI|apply group_free_cls].
  - exists [], ([ws] ++ litI "star" ++ [ICls (CCharI 115) QOpt]).
    split_and!; [apply group_free_nil| |done].
    repeat apply group_free_app;
      [apply group_free_cls|apply group_free_litI|apply group_free_cls].
Qed.

Lemma first_found_first_group ps s fmt default :
  first_found U ps (VStr s) fmt default
  = Ok (from_option fmt default (first_group U ps s)).
Proof.
  induction ps as [|p ps IH]; simpl; [done|].
  unfold mbind, result_bind.
  destruct (re_search U p s) as [[caps rest]|]; [done|apply IH].
Qed.

Lemma re_search_inv_suffix r : forall s res,
  re_search U r s = Some res ->
  exists t s1, s = t ++ s1 /\ rmatch U r s1 = Some res.
Proof.
  induction s as [|c s IH]; intros res H; simpl in H.
  - destruct (rmatch U r []) eqn:E; [|done]. inversion H; subst.
    by exists [], [].
  - destruct (rmatch U r (c :: s)) eqn:E.
    + inversion H; subst. by exists [], (c :: s).
    + apply IH in H as (t & s1 & -> & H). by exists (c :: t), s1.
Qed.

(** [re.search] finds a match wherever there is one. *)
Lemma re_search_complete r s1 m : forall t,
  rmatch U r s1 = Some m -> re_search U r (t ++ s1) <> None.
Proof.
  induction t as [|c t IH]; intros Hm; simpl.
  - destruct s1; simpl; by rewrite Hm.
  - destruct (rmatch U r (c :: t ++ s1)); [done|auto].
Qed.

Lemma first_group_inv ps s x :
  first_group U ps s = Some x ->
  exists p t s1 caps rest,
    p ∈ ps /\ s = t ++ s1 /\ rmatch U p s1 = Some (caps, rest)
    /\ x = group 1 caps.
Proof.
  induction ps as [|p ps IH]; simpl; [done|].
  destruct (re_search U p s) as [[caps rest]|] eqn:E.
  - intros [= <-]. apply re_search_inv_suffix in E as (t & s1 & -> & E).
    exists p, t, s1, caps, rest.
    split_and!; [apply list_elem_of_here|done|done|done].
  - intros H. apply IH in H as (p' & t & s1 & caps & rest & Hp & -> & Hm & ->).
    exists p', t, s1, caps, rest.
    split_and!; [by apply list_elem_of_further|done|done|done].
Qed.

Lemma price_group_amount s x :
  first_group U price_patterns s = Some x ->
  is_amount U x /\ exists t u, s = t ++ x ++ u.
Proof.
  intros H.
  apply first_group_inv in H as (p & t & s1 & caps & rest & Hp & -> & Hm & ->).
  apply price_pattern_shape in Hp as (pre & post & Hpre & Hpost & ->).
  apply amount_inv in Hm as (x & t' & u & -> & Hx & ->); [|done..].
  split; [done|]. exists (t ++ t'), u. by rewrite <- app_assoc.
Qed.

Lemma rating_group_score s x :
  first_group U rating_patterns s = Some x ->
  is_score U x /\ exists t u, s = t ++ x ++ u.
Proof.
  intros H.
  apply first_group_inv in H as (p & t & s1 & caps & rest & Hp & -> & Hm & ->).
  apply rating_pattern_shape in Hp as (pre & post & Hpre & Hpost & ->).
  apply score_inv in Hm as (x & t' & u & -> & Hx & ->); [|done..].
  split; [done|]. exists (t ++ t'), u. by rewrite <- app_assoc.
Qed.

Lemma findall_go_inv r s : forall skip caps,
  caps ∈ findall_go U r skip s ->
  exists s1 rest, rmatch U r s1 = Some (caps, rest).
Proof.
  induction s as [|c s IH]; intros skip caps; simpl.
  - destruct skip; [|by rewrite elem_of_nil].
    destruct (rmatch U r []) as [[caps0 rest]|] eqn:E; [|by rewrite elem_of_nil].
    rewrite list_elem_of_singleton. intros ->. eauto.
  - destruct skip as [|k]; [|apply IH].
    destruct (rmatch U r (c :: s)) as [[caps0 rest]|] eqn:E; [|apply IH].
    rewrite elem_of_cons. intros [->|H]; [eauto|]. by apply IH in H.
Qed.

Lemma feature_inv s caps rest :
  rmatch U pat_feature s = Some (caps, rest) ->
  exists f, caps = [f] /\ 10 <= length f <= 100
            /\ Forall (fun c => c ∉ bullet_chars ++ [10%N]) f.
Proof.
  unfold rmatch, pat_feature, ws. cbn [m_items]. intros H.
  apply m_quant_inv in H as (b & s1 & -> & _ & _ & H).
  apply m_quant_inv in H as (w & s2 & -> & _ & _ & H).
  cbn [m_quant] in H.
  apply rep_greedy_inv_hi in H as (f & s3 & -> & Hf & Hlen & H).
  rewrite take_app_diff in H. cbn [m_items app] in H. inversion H; subst.
  exists f. split_and!; [done|lia|lia|].
  eapply Forall_impl; [exact Hf|]. intros c Hc. cbn [cmatch] in Hc.
  apply negb_true_iff in Hc. intros Hin.
  assert (existsb (N.eqb c) (bullet_chars ++ [10%N]) = true); [|congruence].
  apply existsb_exists. exists c. split; [|apply N.eqb_refl].
  by apply list_elem_of_In.
Qed.

Lemma extract_fields_str_eq s url :
  extract_fields U (VStr s) url = Ok {|
    Product.url := url;
    Product.name :=
      if contains (str "Amazon.com:") s then
        match re_search U pat_title s with
        | Some (caps, _) => strip (group 1 caps)
        | None => str "Amazon Product"
        end
      else str "Amazon Product";
    Product.price :=
      from_option (fun x => str "$" ++ x) (str "Price not found")
        (first_group U price_patterns s);
    Product.rating :=
      from_option (fun x => x ++ str "/5 stars") (str "Rating not found")
        (first_group U rating_patterns s);
    Product.key_features :=
      if contains (str "features") (py_lower U s)
         || contains (str "specifications") (py_lower U s)
      then take 3 (map (fun m => nth 0 m []) (findall U pat_feature s))
      else [];
    Product.availability := str "Check Amazon";
    Product.prime_eligible :=
      contains (str "prime") (py_lower U s)
      && (contains (str "eligible") (py_lower U s)
          || contains (str "free") (py_lower U s)) |}.
Proof.
  unfold extract_fields. rewrite !first_found_first_group.
  unfold mbind, result_bind. cbn [py_in py_re_search py_lower_val py_re_findall].
  destruct (contains (str "Amazon.com:") s);
    [destruct (re_search U pat_title s) as [[caps rest]|]|];
    by destruct (contains (str "features") (py_lower U s)
                 || contains (str "specifications") (py_lower U s)).
Qed.

(** X1: whatever the scraped content is, the product record has the URL it was
    given, a price that is one of the two placeholders or a dollar sign and
    a decimal number, a rating that is a placeholder or a decimal number
    with one digit before the point followed by "/5 stars", and at most
    three features, each of 10 to 100 characters without a bullet
    character or a line break. *)
Theorem product_fields_shape (content url : pyval) (a : agent) :
  let p := fst (_extract_enhanced_product_info U content url a) in
  Product.url p = url
  /\ Product.availability p = str "Check Amazon"
  /\ (Product.price p = str "Price not found"
      \/ Product.price p = str "See Amazon"
      \/ exists x t u, is_amount U x /\ content = VStr (t ++ x ++ u)
                      /\ Product.price p = str "$" ++ x)
  /\ (Product.rating p = str "Rating not found"
      \/ Product.rating p = str "N/A"
      \/ exists x t u, is_score U x /\ content = VStr (t ++ x ++ u)
                      /\ Product.rating p = x ++ str "/5 stars")
  /\ length (Product.key_features p) <= 3
  /\ Forall (fun f => 10 <= length f <= 100
                      /\ Forall (fun c => c ∉ bullet_chars ++ [10%N]) f)
            (Product.key_features p).
Proof.
  unfold _extract_enhanced_product_info.
  destruct content as [| | | |s| |];
    try (rewrite extract_fields_not_str by done; cbn;
         split_and!; auto; constructor).
  rewrite extract_fields_str_eq. cbn [fst Product.url Product.availability
    Product.price Product.rating Product.key_features].
  split_and!; [done|done| | | |].
  - destruct (first_group U price_patterns s) as [x|] eqn:E; [|by left].
    right; right. apply price_group_amount in E as (Hx & t & u & ->).
    by exists x, t, u.
  - destruct (first_group U rating_patterns s) as [x|] eqn:E; [|by left].
    right; right. apply rating_group_score in E as (Hx & t & u & ->).
    by exists x, t, u.
  - destruct (_ || _); [|simpl; lia]. rewrite length_take. lia.
  - destruct (_ || _); [|constructor]. apply Forall_take.
    apply Forall_map, Forall_forall. intros caps Hin.
    apply findall_go_inv in Hin as (s1 & rest & Hm).
    apply feature_inv in Hm as (f & -> & Hlen & Hf). simpl. auto.
Qed.


(** X2: the second price pattern, "Price: $N", never decides: where it is
    found the first pattern, "$N", is found as well and is tried before. *)
Theorem second_price_pattern_never_decides (content : pyval)
    (fmt : pystr -> pystr) (default : pystr) :
  first_found U price_patterns content fmt default
  = first_found U [lit "$" ++ amount;
                   amount ++ [ws] ++ litI "dollar" ++ [ICls (CCharI 115) QOpt]]
      content fmt default.
Proof.
  destruct content as [| | | |s| |]; try done.
  rewrite !first_found_first_group. f_equal. f_equal.
  unfold price_patterns. cbn [first_group].
  destruct (re_search U (lit "$" ++ amount) s) as [[caps rest]|] eqn:E1; [done|].
  destruct (re_search U (litI "Price:" ++ [ws] ++ lit "$" ++ amount) s)
    as [[caps rest]|] eqn:E2; [|done].
  exfalso. apply re_search_inv_suffix in E2 as (t & s1 & -> & Hm).
  unfold rmatch in Hm.
  replace (litI "Price:" ++ [ws] ++ lit "$" ++ amount)
    with ((litI "Price:" ++ [ws]) ++ lit "$" ++ amount) in Hm
    by (by rewrite <- app_assoc).
  apply m_items_group_free_suffix in Hm as (t' & s2 & -> & Hm).
  - apply (re_search_complete _ _ _ (t ++ t')) in Hm.
    by rewrite <- app_assoc in Hm.
  - apply group_free_app; [apply group_free_litI|apply group_free_cls].
Qed.

Lemma amount_has_digit x : is_amount U x -> exists c, c ∈ x /\ is_digit U c = true.
Proof.
  intros (ds & dot & fs & -> & Hne & Hds & _).
  destruct ds as [|d ds]; [done|]. exists d. split; [apply list_elem_of_here|].
  by inversion Hds.
Qed.

Lemma score_has_digit x : is_score U x -> exists c, c ∈ x /\ is_digit U c = true.
Proof.
  intros (d & dot & fs & -> & Hd & _). exists d. split; [apply list_elem_of_here|done].
Qed.

(** X3: content without any digit gets the placeholders "Price not found"
    and "Rating not found". *)
Theorem no_digit_no_price_no_rating (s : pystr) (url : pyval) :
  Forall (fun c => is_digit U c = false) s ->
  exists p, extract_fields U (VStr s) url = Ok p
            /\ Product.price p = str "Price not found"
            /\ Product.rating p = str "Rating not found".
Proof.
  intros Hs. rewrite extract_fields_str_eq. eexists. split; [done|].
  cbn [Product.price Product.rating].
  assert (Hno : forall x t u, s = t ++ x ++ u ->
                 (exists c, c ∈ x /\ is_digit U c = true) -> False).
  { intros x t u -> (c & Hc & Hd). rewrite Forall_forall in Hs.
    rewrite Hs in Hd; [done|]. rewrite !elem_of_app. auto. }
  split.
  - destruct (first_group U price_patterns s) as [x|] eqn:E; [|done].
    apply price_group_amount in E as (Hx & t & u & E).
    destruct (Hno x t u E). by apply amount_has_digit.
  - destruct (first_group U rating_patterns s) as [x|] eqn:E; [|done].
    apply rating_group_score in E as (Hx & t & u & E).
    destruct (Hno x t u E). by apply score_has_digit.
Qed.

Lemma startswith_straddle_at m c u s :
  head m = Some c -> c ∉ tail m -> u <> [] ->
  startswith m (u ++ c :: s) = startswith m u.
Proof.
  destruct m as [|a m]; [done|]. intros [= ->] Hc Hu.
  destruct u as [|x u]; [done|]. simpl.
  by rewrite startswith_app_absent.
Qed.

Lemma re_search_skip_lit l r c pre s :
  head (str l) = Some c -> c ∉ tail (str l) ->
  contains (str l) pre = false ->
  re_search U (lit l ++ r) (pre ++ c :: s) = re_search U (lit l ++ r) (c :: s).
Proof.
  intros Hh Ht. induction pre as [|x pre IH]; intros Hpre; [done|].
  change (contains (str l) (x :: pre))
    with (startswith (str l) (x :: pre) || contains (str l) pre) in Hpre.
  apply orb_false_iff in Hpre as [Hst Hpre].
  change ((x :: pre) ++ c :: s) with (x :: (pre ++ c :: s)).
  cbn [re_search]. unfold rmatch at 1.
  rewrite m_lit_fail; [auto|].
  change (x :: pre ++ c :: s) with ((x :: pre) ++ c :: s).
  by rewrite (startswith_straddle_at _ c).
Qed.

Lemma contains_intro p : forall pre rest, contains p (pre ++ p ++ rest) = true.
Proof.
  induction pre as [|x pre IH]; intros rest.
  - simpl. destruct (p ++ rest) eqn:E; simpl.
    + apply app_eq_nil in E as [-> _]. done.
    + rewrite <- E. apply orb_true_iff. left.
      apply startswith_prefix. eauto.
  - simpl. by rewrite IH, orb_true_r.
Qed.

Lemma rmatch_title t rest :
  lstrip t <> [] -> 124%N ∉ t ->
  match rest with [] => True | c :: _ => c = 124%N end ->
  rmatch U pat_title (str "Amazon.com:" ++ t ++ rest) = Some ([lstrip t], rest).
Proof.
  intros Hne Ht Hrest. unfold rmatch, pat_title. rewrite m_lit.
  change ([ws] ++ grp not_pipe QPlus) with (ws :: grp not_pipe QPlus).
  apply m_ws_field; [done|].
  rewrite <- (app_nil_r (grp not_pipe QPlus)).
  apply m_grp; [by right| | |done].
  - apply not_pipe_run. intros H. by apply lstrip_elem in H.
  - destruct rest as [|c rest]; [done|]. subst c. done.
Qed.

(** X4: a page title "Amazon.com: <title>" that runs to the next "|" or to
    the end of the content gives the product its name, the title without
    the white space around it. *)
Theorem title_becomes_name (pre t rest : pystr) (url : pyval) :
  contains (str "Amazon.com:") pre = false ->
  lstrip t <> [] -> 124%N ∉ t ->
  match rest with [] => True | c :: _ => c = 124%N end ->
  exists p,
    extract_fields U (VStr (pre ++ str "Amazon.com:" ++ t ++ rest)) url = Ok p
    /\ Product.name p = strip t.
Proof.
  intros Hpre Hne Ht Hrest. rewrite extract_fields_str_eq.
  eexists. split; [done|]. cbn [Product.name].
  rewrite contains_intro.
  change (str "Amazon.com:" ++ t ++ rest)
    with (65%N :: str "mazon.com:" ++ t ++ rest).
  unfold pat_title at 1.
  rewrite (re_search_skip_lit "Amazon.com:" _ 65); [|done|by_eval|done].
  cbn [re_search].
  change (65%N :: str "mazon.com:" ++ t ++ rest)
    with (str "Amazon.com:" ++ t ++ rest).
  fold pat_title. rewrite rmatch_title by done.
  simpl. apply strip_lstrip.
Qed.

Lemma rep_greedy_opt_take {R} (q : N -> bool) (k : pystr -> option R) c s r :
  q c = true -> k s = Some r -> rep_greedy q 0 (Some 1) k (c :: s) = Some r.
Proof. intros Hc Hk. simpl. rewrite Hc. destruct s; simpl; by rewrite Hk. Qed.

Lemma rmatch_dollar_decimal ds fs rest :
  ds <> [] -> Forall (fun c => is_digit U c = true) ds ->
  Forall (fun c => is_digit U c = true) fs ->
  match rest with [] => True | c :: _ => is_digit U c = false end ->
  rmatch U (lit "$" ++ amount) (str "$" ++ ds ++ str "." ++ fs ++ rest)
  = Some ([ds ++ str "." ++ fs], rest).
Proof.
  intros Hne Hds Hfs Hrest. unfold rmatch. rewrite m_lit.
  unfold amount, digits1, dot_opt, digits0. cbn [m_items m_quant].
  apply rep_greedy_max; [done|apply is_digit_dot|destruct ds; [done|simpl; lia]|].
  change (str "." ++ fs ++ rest) with (46%N :: fs ++ rest).
  apply rep_greedy_opt_take; [done|].
  apply rep_greedy_max; [done|done|lia|].
  cbn [m_items app].
  change (ds ++ 46%N :: fs ++ rest) with (ds ++ str "." ++ fs ++ rest).
  replace (ds ++ str "." ++ fs ++ rest) with ((ds ++ str "." ++ fs) ++ rest)
    by (by rewrite <- !app_assoc).
  by rewrite take_app_diff.
Qed.

(** X5: the price keeps the decimals of the first dollar amount of the
    content, unlike the budget of an utterance: "$19.99" gives the price
    "$19.99"; a point that merely ends the sentence is kept as well. *)
Theorem price_keeps_decimals (pre ds fs rest : pystr) (url : pyval) :
  36%N ∉ pre ->
  ds <> [] -> Forall (fun c => is_digit U c = true) ds ->
  Forall (fun c => is_digit U c = true) fs ->
  match rest with [] => True | c :: _ => is_digit U c = false end ->
  exists p,
    extract_fields U (VStr (pre ++ str "$" ++ ds ++ str "." ++ fs ++ rest)) url
      = Ok p
    /\ Product.price p = str "$" ++ ds ++ str "." ++ fs.
Proof.
  intros Hpre Hne Hds Hfs Hrest. rewrite extract_fields_str_eq.
  eexists. split; [done|]. cbn [Product.price].
  unfold price_patterns. cbn [first_group].
  change (lit "$" ++ amount) with (ICls (CChar 36) QOne :: amount).
  rewrite re_search_skip by done.
  change (ICls (CChar 36) QOne :: amount) with (lit "$" ++ amount).
  change (str "$" ++ ds ++ str "." ++ fs ++ rest)
    with (36%N :: ds ++ str "." ++ fs ++ rest).
  cbn [re_search].
  change (36%N :: ds ++ str "." ++ fs ++ rest)
    with (str "$" ++ ds ++ str "." ++ fs ++ rest).
  by rewrite rmatch_dollar_decimal.
Qed.

End FieldFacts.

Lemma no_digit_no_price_no_rating_witness :
  exists p, extract_fields ascii_db
              (VStr (str "Amazon.com: Wireless Mouse | Black")) VNone = Ok p
            /\ Product.price p = str "Price not found"
            /\ Product.rating p = str "Rating not found".
Proof.
  apply (no_digit_no_price_no_rating ascii_db
           (str "Amazon.com: Wireless Mouse | Black") VNone).
  vm_compute. repeat constructor.
Defined.

Lemma title_becomes_name_witness :
  exists p,
    extract_fields ascii_db
      (VStr (str "Home | " ++ str "Amazon.com:" ++ str " Wireless Mouse "
             ++ str "| Electronics")) VNone = Ok p
    /\ Product.name p = strip (str " Wireless Mouse ").
Proof.
  apply (title_becomes_name ascii_db (str "Home | ") (str " Wireless Mouse ")
           (str "| Electronics") VNone).
  - reflexivity.
  - discriminate.
  - by_eval.
  - reflexivity.
Defined.

Lemma price_keeps_decimals_witness :
  exists p,
    extract_fields ascii_db
      (VStr (str "Now " ++ str "$" ++ str "5" ++ str "." ++ [] ++ str " Great"))
      VNone = Ok p
    /\ Product.price p = str "$" ++ str "5" ++ str "." ++ [].
Proof.
  apply (price_keeps_decimals ascii_db (str "Now ") (str "5") [] (str " Great")
           VNone).
  - by_eval.
  - discriminate.
  - repeat constructor.
  - constructor.
  - reflexivity.
Defined.

(** ** Intent detection, extraction and links *)

Section IntentFacts.
Variable U : unicode_db.

Lemma py_int_nonneg s n : py_int U s = Some n -> (0 <= n)%Z.
Proof.
  unfold py_int. destruct s as [|c0 s0]; [done|].
  destruct (int_max_str_digits <? _)%N; [done|].
  generalize (c0 :: s0). clear c0 s0. intros s.
  assert (forall acc, (forall a, acc = Some a -> (0 <= a)%Z) ->
            foldl (fun acc c =>
               match acc, digit_value U c with
               | Some a, Some d => Some (10 * a + Z.of_N d)%Z
               | _, _ => None
               end) acc s = Some n -> (0 <= n)%Z) as H.
  { induction s as [|c s IH]; intros acc Hacc; simpl.
    - intros ->. by apply Hacc.
    - apply IH. intros a. destruct acc as [a0|]; [|done].
      destruct (digit_value U c) as [d|]; [|done].
      intros [= <-]. specialize (Hacc a0 eq_refl). lia. }
  apply H. intros a [= <-]. lia.
Qed.

(** The group of a budget pattern is a run of digits of the text. *)
Lemma budget_group_run p s caps rest :
  p ∈ budget_patterns ->
  re_search U p s = Some (caps, rest) ->
  group 1 caps <> [] /\ digit_run U (group 1 caps) s.
Proof.
  intros Hp E. apply budget_pattern_shape in Hp as (pre & Hpre & ->).
  apply re_search_inv_suffix in E as (t & s1 & -> & Hm). unfold rmatch in Hm.
  apply m_items_group_free_suffix in Hm as (t' & s2 & -> & Hm); [|done].
  apply digits_group_inv in Hm as (ds & -> & Hne & Hds & ->).
  change (group 1 ([] ++ [ds])) with ds. split; [done|]. split; [done|].
  exists (t ++ t'), rest. by rewrite <- !app_assoc.
Qed.

(** The loop over the budget patterns ends with a budget, without one,
    or with the ValueError of [int] on a run of more than 4300 digits. *)
Lemma budget_loop_spec ps s :
  Forall (fun p => p ∈ budget_patterns) ps ->
  match budget_loop U ps s with
  | Ok b =>
      (b = None <-> Forall (fun p => re_search U p s = None) ps)
      /\ (forall n, b = Some n -> (0 <= n)%Z)
  | Raise e =>
      e = ValueError
      /\ exists ds, digit_run U ds s
                    /\ (int_max_str_digits < N.of_nat (length ds))%N
  end.
Proof.
  induction 1 as [|p ps Hp _ IH]; simpl.
  - split; [|done]. split; [constructor|done].
  - destruct (re_search U p s) as [[caps rest]|] eqn:E.
    + destruct (budget_group_run p s caps rest Hp E) as [Hne Hrun].
      destruct (py_int U (group 1 caps)) as [n|] eqn:Hn.
      * split.
        -- split; [done|]. intros H. inversion H; congruence.
        -- intros ? [= <-]. by apply py_int_nonneg in Hn.
      * split; [done|]. exists (group 1 caps). split; [done|].
        destruct (N.lt_ge_cases int_max_str_digits
                    (N.of_nat (length (group 1 caps)))) as [Hlt|Hge]; [done|].
        rewrite py_int_digits in Hn; [done..|by destruct Hrun|done].
    + destruct (budget_loop U ps s) as [b|e]; [|done].
      destruct IH as [Hnone Hpos]. split; [|done].
      rewrite Hnone. split; [by constructor|]. intros H. by inversion H.
Qed.

Lemma detect_user_intent_spec (u : pystr) (sess : Session.t) :
  match detect_user_intent U u sess with
  | Ok (i, sess') =>
      (Intent.budget_mentioned i = None
       <-> Forall (fun p => re_search U p (py_lower U u) = None) budget_patterns)
      /\ (Intent.budget_mentioned i = None -> sess' = sess)
      /\ (forall n, Intent.budget_mentioned i = Some n ->
            (0 <= n)%Z /\ Session.budget_range sess' = Some n)
      /\ Session.products_viewed sess' = Session.products_viewed sess
      /\ Session.user_preferences sess' = Session.user_preferences sess
      /\ Session.comparison_mode sess' = Session.comparison_mode sess
      /\ Session.purchase_intent sess' = Session.purchase_intent sess
      /\ Session.conversation_context sess' = Session.conversation_context sess
  | Raise e =>
      e = ValueError
      /\ exists ds, digit_run U ds (py_lower U u)
                    /\ (int_max_str_digits < N.of_nat (length ds))%N
  end.
Proof.
  unfold detect_user_intent.
  pose proof (budget_loop_spec budget_patterns (py_lower U u)) as H.
  destruct (budget_loop U budget_patterns (py_lower U u)) as [b|e];
    unfold mbind, result_bind.
  - destruct H as [Hnone Hpos]; [apply Forall_forall; auto|].
    cbn [Intent.budget_mentioned].
    split_and!; [done| | |by destruct b..].
    + by intros ->.
    + intros n ->. split; [by apply Hpos|done].
  - apply H. apply Forall_forall. auto.
Qed.

(** Intent detection succeeds on an utterance without a run of more than
    4300 digits. *)
Lemma detect_user_intent_ok (u : pystr) (sess : Session.t) :
  (forall ds, digit_run U ds (py_lower U u) ->
              (N.of_nat (length ds) <= int_max_str_digits)%N) ->
  exists i sess', detect_user_intent U u sess = Ok (i, sess').
Proof.
  intros Hruns. pose proof (detect_user_intent_spec u sess) as H.
  destruct (detect_user_intent U u sess) as [[i sess']|e]; [eauto|].
  destruct H as (_ & ds & Hrun & Hlen). specialize (Hruns ds Hrun). lia.
Qed.


(** X6: intent detection fails in one way only: with ValueError, and
    only when the lowered utterance holds a run of more than 4300 digits,
    which [int] refuses; an utterance without such a run never makes it
    fail.  When it returns it reports a budget exactly when one of the
    four budget patterns is found in the lowered utterance; the budget
    is a natural number, which replaces the session's budget; without
    one the session is left as it is.  No other field of the session is
    touched. *)
Theorem intent_detection_fails_only_on_long_amount (u : pystr)
    (sess : Session.t) :
  match detect_user_intent U u sess with
  | Ok (i, sess') =>
      (Intent.budget_mentioned i = None
       <-> Forall (fun p => re_search U p (py_lower U u) = None) budget_patterns)
      /\ (Intent.budget_mentioned i = None -> sess' = sess)
      /\ (forall n, Intent.budget_mentioned i = Some n ->
            (0 <= n)%Z /\ Session.budget_range sess' = Some n)
      /\ Session.products_viewed sess' = Session.products_viewed sess
      /\ Session.user_preferences sess' = Session.user_preferences sess
      /\ Session.comparison_mode sess' = Session.comparison_mode sess
      /\ Session.purchase_intent sess' = Session.purchase_intent sess
      /\ Session.conversation_context sess' = Session.conversation_context sess
  | Raise e =>
      e = ValueError
      /\ exists ds, digit_run U ds (py_lower U u)
                    /\ (int_max_str_digits < N.of_nat (length ds))%N
  end
  /\ ((forall ds, digit_run U ds (py_lower U u) ->
                  (N.of_nat (length ds) <= int_max_str_digits)%N) ->
      exists i sess', detect_user_intent U u sess = Ok (i, sess')).
Proof.
  split; [apply detect_user_intent_spec|apply detect_user_intent_ok].
Qed.

(** X7: an utterance whose lowered form has no digit never sets a budget:
    the session stays as it is. *)
Theorem no_digit_no_budget (u : pystr) (sess : Session.t) :
  Forall (fun c => is_digit U c = false) (py_lower U u) ->
  exists i, detect_user_intent U u sess = Ok (i, sess)
            /\ Intent.budget_mentioned i = None.
Proof.
  intros Hno.
  destruct (detect_user_intent_ok u sess) as (i & sess' & Hd).
  { intros ds [Hds (t & t' & Hs)]. destruct ds as [|d ds]; [done|].
    exfalso. inversion Hds as [|? ? Hd' _]; subst.
    rewrite Hs in Hno. rewrite !Forall_app in Hno.
    destruct Hno as (_ & Hno & _). inversion Hno; congruence. }
  pose proof (detect_user_intent_spec u sess) as H. rewrite Hd in H.
  destruct H as (Hnone & Hsame & _).
  assert (Hb : Intent.budget_mentioned i = None).
  { apply Hnone. apply Forall_forall. intros p Hp.
    destruct (re_search U p (py_lower U u)) as [[caps rest]|] eqn:E; [|done].
    exfalso.
    destruct (budget_group_run p _ caps rest Hp E)
      as [Hne [Hds (t & t' & Hs)]].
    destruct (group 1 caps) as [|d ds]; [done|].
    inversion Hds as [|? ? Hd' _]; subst.
    rewrite Hs in Hno. rewrite !Forall_app in Hno.
    destruct Hno as (_ & Hno & _). inversion Hno; congruence. }
  exists i. rewrite Hd. by rewrite (Hsame Hb).
Qed.
End IntentFacts.

Lemma no_digit_no_budget_witness :
  exists i, detect_user_intent ascii_db (str "I want a cheap mouse, under budget")
              fresh_session = Ok (i, fresh_session)
            /\ Intent.budget_mentioned i = None.
Proof.
  apply (no_digit_no_budget ascii_db (str "I want a cheap mouse, under budget")
           fresh_session).
  vm_compute. repeat constructor.
Defined.

Lemma map_const_replicate {A B} (x : B) (l : list A) :
  map (fun _ => x) l = replicate (length l) x.
Proof. induction l; simpl; congruence. Qed.

Section ExtractionFacts.
Variable U : unicode_db.

Lemma block_product_log d a :
  snd (block_product U d a)
  = if bad_content d
    then print (str "Error in enhanced extraction: ") TypeError a
    else a.
Proof.
  unfold block_product, bad_content, _extract_enhanced_product_info.
  destruct (from_option id (VStr []) (dict_lookup (str "content") d))
    as [| | | |s| |] eqn:E;
    try (rewrite extract_fields_not_str by done; done).
  by destruct (extract_fields_str U s
                 (from_option id (VStr []) (dict_lookup (str "url") d)))
    as [p ->].
Qed.

Lemma products_loop_frame rs : forall i a,
  let a' := products_loop U i rs a in
  Session.user_preferences (shopping_session a')
    = Session.user_preferences (shopping_session a)
  /\ Session.budget_range (shopping_session a')
     = Session.budget_range (shopping_session a)
  /\ Session.comparison_mode (shopping_session a')
     = Session.comparison_mode (shopping_session a)
  /\ Session.purchase_intent (shopping_session a')
     = Session.purchase_intent (shopping_session a)
  /\ Session.conversation_context (shopping_session a')
     = Session.conversation_context (shopping_session a)
  /\ (forall k, is_Some (current_products a !! k) ->
                is_Some (current_products a' !! k))
  /\ stdout a'
     = stdout a
       ++ map (fun _ => Printed (str "Error in enhanced extraction: ") TypeError)
            (filter (fun d => bad_content d = true) (dict_blocks rs)).
Proof.
  induction rs as [|b rs IH]; intros i a.
  - simpl. rewrite app_nil_r. split_and!; done.
  - cbn [products_loop].
    destruct b as [| | | | | |d]; try apply IH.
    pose proof (block_product_log d a) as Hlog.
    destruct (block_product_eq U d a) as (a1 & Hbp & Hcp & Hss).
    rewrite Hbp in Hlog |- *. cbn [snd] in Hlog.
    specialize (IH (S i) (record_product (product_key i) (product_of U d) a1)).
    cbn zeta in IH |- *.
    destruct IH as (H1 & H2 & H3 & H4 & H5 & H6 & H7).
    cbn [record_product shopping_session current_products stdout
         Session.user_preferences Session.budget_range Session.comparison_mode
         Session.purchase_intent Session.conversation_context] in *.
    rewrite Hss in *. rewrite Hcp in *.
    split_and!; try done.
    + intros k Hk. apply H6.
      destruct (decide (k = product_key i)) as [->|Hne].
      * rewrite lookup_insert_eq. eauto.
      * by rewrite lookup_insert_ne.
    + rewrite H7. change (dict_blocks (VDict d :: rs)) with (d :: dict_blocks rs).
      subst a1. destruct (bad_content d) eqn:Eb.
      * rewrite filter_cons_True by done. simpl. by rewrite <- app_assoc.
      * rewrite filter_cons_False by (by rewrite Eb). done.
Qed.

Lemma extract_product_info_frame (scraped_data : pyval) (a : agent) :
  let a' := snd (extract_product_info U scraped_data a) in
  Session.user_preferences (shopping_session a')
    = Session.user_preferences (shopping_session a)
  /\ Session.budget_range (shopping_session a')
     = Session.budget_range (shopping_session a)
  /\ Session.comparison_mode (shopping_session a')
     = Session.comparison_mode (shopping_session a)
  /\ Session.purchase_intent (shopping_session a')
     = Session.purchase_intent (shopping_session a)
  /\ Session.conversation_context (shopping_session a')
     = Session.conversation_context (shopping_session a)
  /\ (exists new,
        Session.products_viewed (shopping_session a')
        = Session.products_viewed (shopping_session a) ++ new)
  /\ (forall k, is_Some (current_products a !! k) ->
                is_Some (current_products a' !! k))
  /\ (exists n,
        stdout a'
        = stdout a
          ++ replicate n (Printed (str "Error in enhanced extraction: ") TypeError))
  /\ (forall d rs, scraped_data = VDict d ->
        dict_lookup (str "data") d = Some (VList rs) ->
        stdout a'
        = stdout a
          ++ map (fun _ => Printed (str "Error in enhanced extraction: ") TypeError)
               (filter (fun d => bad_content d = true) (dict_blocks rs)))
  /\ ((forall d rs, scraped_data = VDict d ->
         dict_lookup (str "data") d <> Some (VList rs)) ->
      a' = a).
Proof.
  assert (Hcase : (exists d rs, scraped_data = VDict d
                     /\ dict_lookup (str "data") d = Some (VList rs))
                  \/ (extract_product_info U scraped_data a = (Ok tt, a)
                      /\ forall d rs, scraped_data = VDict d ->
                           dict_lookup (str "data") d <> Some (VList rs))).
  { destruct scraped_data as [| | | | | |d]; try (right; split; done).
    destruct (dict_lookup (str "data") d) as [v|] eqn:E.
    - destruct v as [| | | | |rs|]; try (right; split;
        [unfold extract_product_info, extract_product_info_body;
         simpl; rewrite E; simpl; done
        |intros d' rs' [= <-]; rewrite E; done]).
      left. eauto.
    - right. split.
      + unfold extract_product_info, extract_product_info_body.
        by rewrite E.
      + intros d' rs' [= <-]. by rewrite E. }
  destruct Hcase as [(d & rs & -> & Hdata)|[Heq Hno]].
  - rewrite (extract_product_info_batch U d rs a Hdata). cbn [snd].
    destruct (products_loop_frame rs 0 a) as (H1 & H2 & H3 & H4 & H5 & H6 & H7).
    split_and!; try done.
    + eexists. apply products_loop_viewed.
    + exists (length (filter (fun d => bad_content d = true) (dict_blocks rs))).
      rewrite H7. f_equal. apply map_const_replicate.
    + intros d' rs' [= <-]. rewrite Hdata. by intros [= <-].
    + intros Hno. destruct (Hno d rs eq_refl Hdata).
  - rewrite Heq. cbn [snd]. split_and!; try done.
    + exists []. by rewrite app_nil_r.
    + exists 0. simpl. by rewrite app_nil_r.
    + intros d rs Hd Hl. destruct (Hno d rs Hd Hl).
Qed.
(** X8: extraction only adds products.  Whatever the payload, the budget,
    the preferences, the modes and the conversation context of the session
    stay as they are, the products viewed before stay in front of the
    list, no entry of the product mapping is removed, and the only lines
    printed are "Error in enhanced extraction" lines, one for
    each block of the batch whose content is not a string - the message of
    the outer handler, "Error extracting product info", is never
    printed.  A payload that is not a dict with a list under "data" leaves
    the agent exactly as it is. *)
Theorem extraction_only_adds_products (scraped_data : pyval) (a : agent) :
  let a' := snd (extract_product_info U scraped_data a) in
  Session.user_preferences (shopping_session a')
    = Session.user_preferences (shopping_session a)
  /\ Session.budget_range (shopping_session a')
     = Session.budget_range (shopping_session a)
  /\ Session.comparison_mode (shopping_session a')
     = Session.comparison_mode (shopping_session a)
  /\ Session.purchase_intent (shopping_session a')
     = Session.purchase_intent (shopping_session a)
  /\ Session.conversation_context (shopping_session a')
     = Session.conversation_context (shopping_session a)
  /\ (exists new,
        Session.products_viewed (shopping_session a')
        = Session.products_viewed (shopping_session a) ++ new)
  /\ (forall k, is_Some (current_products a !! k) ->
                is_Some (current_products a' !! k))
  /\ (exists n,
        stdout a'
        = stdout a
          ++ replicate n (Printed (str "Error in enhanced extraction: ") TypeError))
  /\ (forall d rs, scraped_data = VDict d ->
        dict_lookup (str "data") d = Some (VList rs) ->
        stdout a'
        = stdout a
          ++ map (fun _ => Printed (str "Error in enhanced extraction: ") TypeError)
               (filter (fun d => bad_content d = true) (dict_blocks rs)))
  /\ ((forall d rs, scraped_data = VDict d ->
         dict_lookup (str "data") d <> Some (VList rs)) ->
      a' = a).
Proof. apply extract_product_info_frame. Qed.
End ExtractionFacts.

Lemma links_loop_complete items : forall acc out,
  links_loop items acc = Ok out ->
  forall u, u ∈ acc \/ link_from items u -> u ∈ out.
Proof.
  induction items as [|item items IH]; intros acc out H u Hu; simpl in H.
  - inversion H; subst. destruct Hu as [Hu|(it & raw & Hin & _)]; [done|].
    by apply elem_of_nil in Hin.
  - apply rbind_ok in H as (url & Hget & H).
    apply rbind_ok in H as (ok & Htest & H).
    assert (Hstep : forall acc', links_loop items acc' = Ok out ->
              (forall x, x ∈ acc -> x ∈ acc') ->
              (forall raw, url = VStr raw -> url_test raw = true ->
                 cleaned raw ∈ acc') ->
              u ∈ out).
    { intros acc' Hloop Hacc Hnew. apply (IH acc' out Hloop).
      destruct Hu as [Hu|(it & raw & Hin & Hg & Ht & ->)]; [auto|].
      apply elem_of_cons in Hin as [->|Hin].
      - left. apply Hnew; [congruence|done].
      - right. by exists it, raw. }
    destruct ok.
    + apply rbind_ok in H as (c & Hc & H).
      apply (Hstep _ H).
      * intros x Hx. apply elem_of_app. by left.
      * intros raw -> Ht. simpl in Hc. inversion Hc; subst.
        apply elem_of_app. right. apply list_elem_of_here.
    + apply (Hstep _ H); [done|].
      intros raw -> Ht. rewrite is_product_url_str in Htest. congruence.
Qed.

Lemma links_loop_app good : forall acc,
  Forall link_item_ok good ->
  exists new, forall rest,
    links_loop (good ++ rest) acc = links_loop rest (acc ++ new).
Proof.
  induction good as [|item good IH]; intros acc Hgood.
  - exists []. intros rest. by rewrite app_nil_r.
  - inversion Hgood as [|? ? (d & -> & Hurl) Hgood']; subst.
    assert (exists raw, py_get (VDict d) (str "url") (VStr []) = Ok (VStr raw))
      as [raw Hget].
    { simpl. destruct Hurl as [->|[s ->]]; simpl; eauto. }
    destruct (url_test raw) eqn:Ht.
    + destruct (IH (acc ++ [cleaned raw]) Hgood') as [new Hnew].
      exists (cleaned raw :: new). intros rest.
      change ((VDict d :: good) ++ rest) with (VDict d :: (good ++ rest)).
      cbn [links_loop]. rewrite Hget. unfold mbind at 1, result_bind at 1.
      rewrite is_product_url_str, Ht. unfold mbind at 1, result_bind at 1.
      simpl. fold (cleaned raw). rewrite Hnew. by rewrite <- app_assoc.
    + destruct (IH acc Hgood') as [new Hnew].
      exists new. intros rest.
      change ((VDict d :: good) ++ rest) with (VDict d :: (good ++ rest)).
      cbn [links_loop]. rewrite Hget. unfold mbind at 1, result_bind at 1.
      rewrite is_product_url_str, Ht. unfold mbind at 1, result_bind at 1.
      apply Hnew.
Qed.

Section LinkFacts.
Variable set_to_list : list pystr -> list pystr.
Hypothesis set_to_list_spec : forall l,
  NoDup (set_to_list l) /\ forall x, x ∈ set_to_list l <-> x ∈ l.

Lemma set_to_list_nil : set_to_list [] = [].
Proof.
  destruct (set_to_list []) as [|x l] eqn:E; [done|].
  destruct (set_to_list_spec []) as [_ H]. specialize (H x).
  rewrite E in H. exfalso. apply (not_elem_of_nil x), H, list_elem_of_here.
Qed.

(** X9: a search result in which a level of "data" / "web" / "results" is
    missing, or whose list of results is empty, gives no link and no
    error; a result whose "data" is null, or that is not a dict at all,
    makes link extraction fail with an AttributeError. *)
Theorem links_of_incomplete_result (d : list (pystr * pyval)) :
  (dict_lookup (str "data") d = None ->
     extract_links set_to_list (VDict d) = Ok [])
  /\ (forall dd, dict_lookup (str "data") d = Some (VDict dd) ->
        dict_lookup (str "web") dd = None ->
        extract_links set_to_list (VDict d) = Ok [])
  /\ (forall dd w, dict_lookup (str "data") d = Some (VDict dd) ->
        dict_lookup (str "web") dd = Some (VDict w) ->
        dict_lookup (str "results") w = None
        \/ dict_lookup (str "results") w = Some (VList []) ->
        extract_links set_to_list (VDict d) = Ok [])
  /\ (dict_lookup (str "data") d = Some VNone ->
        extract_links set_to_list (VDict d) = Raise AttributeError)
  /\ (forall v, (forall d', v <> VDict d') ->
        extract_links set_to_list v = Raise AttributeError).
Proof.
  unfold extract_links, web_results. split_and!.
  - intros E. simpl. rewrite E. simpl. by rewrite set_to_list_nil.
  - intros dd E1 E2. simpl. rewrite E1. simpl. rewrite E2. simpl.
    by rewrite set_to_list_nil.
  - intros dd w E1 E2 E3. simpl. rewrite E1. simpl. rewrite E2. simpl.
    destruct E3 as [-> | ->]; simpl; by rewrite set_to_list_nil.
  - intros E. simpl. by rewrite E.
  - intros v Hv. destruct v; try done. by destruct (Hv d0).
Qed.

(** X10: when fewer than five links are returned none was dropped: every
    search result that passes the detail-page test has its cleaned URL
    among them. *)
Theorem fewer_than_five_links_are_all (search_result : pyval) (out : list pystr) :
  extract_links set_to_list search_result = Ok out ->
  length out < 5 ->
  exists results items,
    web_results search_result = Ok results
    /\ py_iter results = Ok items
    /\ forall u, link_from items u -> u ∈ out.
Proof.
  unfold extract_links. intros H Hlen.
  apply rbind_ok in H as (results & Hweb & H).
  apply rbind_ok in H as (items & Hiter & H).
  apply rbind_ok in H as (links & Hloop & H).
  inversion H; subst out; clear H.
  exists results, items. split_and!; [done..|].
  intros u Hu.
  rewrite take_ge by (rewrite length_take in Hlen; lia).
  apply set_to_list_spec. apply (links_loop_complete _ _ _ Hloop). by right.
Qed.

(** X11: one malformed search result makes link extraction fail, also when
    it comes after results that yield links: a result that is not a dict
    fails with an AttributeError and a dict whose "url" is null, a boolean
    or a number with a TypeError. *)
Theorem bad_result_aborts_links (search_result : pyval)
    (good : list pyval) (bad : pyval) (rest : list pyval) :
  web_results search_result = Ok (VList (good ++ bad :: rest)) ->
  Forall link_item_ok good ->
  ((forall d, bad <> VDict d) ->
     extract_links set_to_list search_result = Raise AttributeError)
  /\ (forall d v, bad = VDict d -> dict_lookup (str "url") d = Some v ->
        not_iterable v = true ->
        extract_links set_to_list search_result = Raise TypeError).
Proof.
  intros Hweb Hgood. unfold extract_links. rewrite Hweb. simpl.
  destruct (links_loop_app good [] Hgood) as [new ->].
  split.
  - intros Hbad. destruct bad; try done. by destruct (Hbad d).
  - intros d v -> Hurl Hv. simpl. rewrite Hurl. simpl.
    by destruct v.
Qed.
End LinkFacts.

Lemma remove_dups_spec (l : list pystr) :
  NoDup (remove_dups l) /\ forall x, x ∈ remove_dups l <-> x ∈ l.
Proof.
  split; [apply NoDup_remove_dups|]. intros x. apply elem_of_remove_dups.
Qed.

Lemma links_of_incomplete_result_witness :
  extract_links remove_dups (VDict [(str "error", VStr (str "rate limited"))])
  = Ok [].
Proof.
  apply (proj1 (links_of_incomplete_result remove_dups remove_dups_spec
                  [(str "error", VStr (str "rate limited"))])).
  reflexivity.
Defined.

Lemma fewer_than_five_links_are_all_witness :
  exists results items,
    web_results two_hits = Ok results
    /\ py_iter results = Ok items
    /\ forall u, link_from items u -> u ∈ [str "https://www.amazon.com/dp/B01"].
Proof.
  apply (fewer_than_five_links_are_all remove_dups remove_dups_spec two_hits
           [str "https://www.amazon.com/dp/B01"]).
  - vm_compute. reflexivity.
  - simpl. lia.
Defined.

Lemma bad_result_aborts_links_witness :
  extract_links remove_dups
    (VDict [(str "data", VDict [(str "web", VDict [(str "results", VList
       ([VDict [(str "url", VStr (str "https://www.amazon.com/dp/B01"))]]
        ++ VDict [(str "url", VNone)] :: []))])])])
  = Raise TypeError.
Proof.
  apply (proj2 (bad_result_aborts_links remove_dups
           (VDict [(str "data", VDict [(str "web", VDict [(str "results", VList
              ([VDict [(str "url", VStr (str "https://www.amazon.com/dp/B01"))]]
               ++ VDict [(str "url", VNone)] :: []))])])])
           [VDict [(str "url", VStr (str "https://www.amazon.com/dp/B01"))]]
           (VDict [(str "url", VNone)]) [] eq_refl
           ltac:(repeat constructor; eexists; split; [reflexivity|right; eexists; reflexivity]))
         [(str "url", VNone)] VNone eq_refl eq_refl eq_refl).
Defined.

(** ** The optimizer on whole texts *)

Section OptimizerFacts.
Variable U : unicode_db.

(** X12: the text to speak is a single line without white space at either
    end and with at most three full stops, whatever the input. *)
Theorem optimizer_output_shape (x : pystr) :
  let y := _optimize_for_voice U x in
  (10%N ∉ y) /\ strip y = y /\ count 46 y <= 3.
Proof.
  intros y. split_and!.
  - intros Hin. pose proof (optimize_no_newline U x) as Hq. fold y in Hq.
    rewrite Forall_forall in Hq. by apply (Hq _ Hin).
  - apply strip_idemp.
  - pose proof (optimize_sentences U x) as Hlen. fold y in Hlen.
    change (str ".") with [46%N] in Hlen. rewrite split_char_length in Hlen. lia.
Qed.












Lemma re_search_no_open c r s :
  c ∉ s -> re_search U (ICls (CChar c) QOne :: r) s = None.
Proof.
  intros Hs. rewrite <- (app_nil_r s). rewrite re_search_skip by done.
  cbn [re_search]. unfold rmatch. cbn [m_items m_quant].
  by rewrite rep_greedy_one.
Qed.

(** X14: a plain one-line text passes through unchanged: no line break, no
    opening bracket, no white space at either end, no list marker in
    front, none of the phrases that are replaced and at most three full
    stops. *)
Theorem plain_text_unchanged (x : pystr) :
  10%N ∉ x -> 91%N ∉ x -> strip x = x ->
  existsb (fun m => startswith m x) list_markers = false ->
  Forall (fun fc => contains (fst fc) x = false) replacements ->
  count 46 x <= 3 ->
  _optimize_for_voice U x = x.
Proof.
  intros Hnl Hbr Hstrip Hmark Hrep Hcount.
  unfold _optimize_for_voice.
  rewrite (split_none [10%N] x) by (by apply contains_char).
  cbn [map]. rewrite Hstrip.
  destruct x as [|c x'] eqn:Ex; [reflexivity|]. rewrite <- Ex in *.
  assert (Hkeep : keep_line x = true).
  { rewrite Ex. cbn [keep_line]. rewrite <- Ex. by rewrite Hmark. }
  rewrite filter_cons_True by done. rewrite filter_nil. cbn [join].
  rewrite foldl_sub_none; [|done|].
  - rewrite foldl_replace_none by done.
    unfold truncate_sentences. change (str ".") with [46%N].
    rewrite split_char_length.
    by rewrite (proj2 (Nat.ltb_ge _ _)) by lia.
  - unfold special_formats, special_format.
    repeat (apply List.Forall_cons; [by apply re_search_no_open|]).
    apply List.Forall_nil.
Qed.
End OptimizerFacts.


Lemma plain_text_unchanged_witness :
  _optimize_for_voice ascii_db (str "Great choice! It ships tomorrow.")
  = str "Great choice! It ships tomorrow.".
Proof.
  apply (plain_text_unchanged ascii_db (str "Great choice! It ships tomorrow.")).
  - by_eval.
  - by_eval.
  - reflexivity.
  - reflexivity.
  - repeat (apply List.Forall_cons; [reflexivity|]). apply List.Forall_nil.
  - vm_compute. lia.
Defined.

(** ** Well-formed responses *)

Lemma sub_go_skip U r xs rest :
  sub_go U r (length xs) (xs ++ rest) = sub_go U r 0 rest.
Proof. induction xs as [|x xs IH]; simpl; [by destruct rest|done]. Qed.

Section Segments.
Variable U : unicode_db.

Lemma sub_match r d rest caps :
  d <> [] ->
  rmatch U r (d ++ rest) = Some (caps, rest) ->
  re_sub_del U r (d ++ rest) = re_sub_del U r rest.
Proof.
  intros Hd Hm. unfold re_sub_del. destruct d as [|c d]; [done|].
  change ((c :: d) ++ rest) with (c :: (d ++ rest)) in *.
  cbn [sub_go]. rewrite Hm.
  replace (length (c :: d ++ rest) - length rest) with (S (length d))
    by (simpl; rewrite length_app; lia).
  apply sub_go_skip.
Qed.

(** A stretch without the first character of a pattern is passed over. *)
Lemma findall_plain c r t rest :
  c ∉ t ->
  findall U (ICls (CChar c) QOne :: r) (t ++ rest)
  = findall U (ICls (CChar c) QOne :: r) rest.
Proof.
  unfold findall. induction t as [|x t IH]; intros Ht; [done|].
  rewrite not_elem_of_cons in Ht. destruct Ht as [Hx Ht].
  change ((x :: t) ++ rest) with (x :: (t ++ rest)).
  cbn [findall_go]. rewrite rmatch_first_char by done. auto.
Qed.

Lemma sub_plain c r t rest :
  c ∉ t ->
  re_sub_del U (ICls (CChar c) QOne :: r) (t ++ rest)
  = t ++ re_sub_del U (ICls (CChar c) QOne :: r) rest.
Proof.
  unfold re_sub_del. induction t as [|x t IH]; intros Ht; [done|].
  rewrite not_elem_of_cons in Ht. destruct Ht as [Hx Ht].
  change ((x :: t) ++ rest) with (x :: (t ++ rest)).
  cbn [sub_go]. rewrite rmatch_first_char by done. simpl. f_equal. auto.
Qed.

(** A directive of another kind is passed over. *)
Lemma findall_other l r d rest :
  91%N ∉ d ->
  startswith (str l) (91%N :: d ++ rest) = false ->
  head (str l) = Some 91%N ->
  findall U (lit l ++ r) (91%N :: d ++ rest) = findall U (lit l ++ r) rest.
Proof.
  intros Hd Hst Hh. unfold findall. cbn [findall_go]. unfold rmatch at 1.
  rewrite m_lit_fail by done.
  assert (exists r', lit l ++ r = ICls (CChar 91) QOne :: r') as [r' ->].
  { unfold lit. destruct (str l) as [|c m]; [done|]. inversion Hh; subst.
    simpl. eauto. }
  by apply findall_plain.
Qed.

Lemma sub_other l r d rest :
  91%N ∉ d ->
  startswith (str l) (91%N :: d ++ rest) = false ->
  head (str l) = Some 91%N ->
  re_sub_del U (lit l ++ r) (91%N :: d ++ rest)
  = 91%N :: d ++ re_sub_del U (lit l ++ r) rest.
Proof.
  intros Hd Hst Hh. unfold re_sub_del. cbn [sub_go]. unfold rmatch at 1.
  rewrite m_lit_fail by done. f_equal.
  assert (exists r', lit l ++ r = ICls (CChar 91) QOne :: r') as [r' ->].
  { unfold lit. destruct (str l) as [|c m]; [done|]. inversion Hh; subst.
    simpl. eauto. }
  by apply sub_plain.
Qed.

Lemma pattern_of_lit k :
  exists l r, pattern_of k = lit l ++ r /\ head (str l) = Some 91%N
              /\ str l = match k with
                         | display_link => str "[DISPLAY_LINK:"
                         | product_card => str "[PRODUCT_CARD:"
                         | compare_products => str "[COMPARE_PRODUCTS:"
                         | purchase_intent => str "[PURCHASE_INTENT:"
                         end.
Proof.
  destruct k; eexists _, _; (split; [reflexivity|split; reflexivity]).
Qed.

Lemma segment_hit k g rest :
  segment_ok g -> is_kind k g = true ->
  rmatch U (pattern_of k) (render_segment g ++ rest)
  = Some (segment_groups g, rest).
Proof.
  destruct g, k; try done; simpl; intros Hok _.
  - destruct Hok as (? & ? & ? & ? & ?). by apply rmatch_link.
  - destruct Hok as (? & ? & ? & ? & ? & ? & ? & ? & ? & ? & ? & ?).
    by apply rmatch_card.
  - destruct Hok as (? & ? & ?). by apply rmatch_compare.
  - destruct Hok as (? & ? & ? & ? & ? & ? & ?). by apply rmatch_purchase.
Qed.

Lemma render_segment_nonempty g : segment_kind g <> None -> render_segment g <> [].
Proof. by destruct g. Qed.

(** A directive is an opening bracket and a text without another. *)
Lemma render_directive g :
  segment_ok g -> segment_kind g <> None ->
  exists d, render_segment g = 91%N :: d /\ 91%N ∉ d.
Proof.
  destruct g; try done; simpl; intros Hok _.
  - destruct Hok as (_ & _ & _ & _ & Hbr).
    exists (str "DISPLAY_LINK:" ++ n ++ str "|" ++ u ++ str "]").
    split; [reflexivity|]. revert Hbr.
    rewrite !not_elem_of_app. intros (? & ?).
    split_and!; try done; by_eval.
  - destruct Hok as (_ & _ & _ & _ & _ & _ & _ & _ & _ & _ & _ & Hbr).
    exists (str "PRODUCT_CARD:" ++ n ++ str "|" ++ u ++ str "|" ++ p
            ++ str "|" ++ r ++ str "|" ++ f1 ++ str "|" ++ f2 ++ str "|"
            ++ img ++ str "]").
    split; [reflexivity|]. revert Hbr.
    rewrite !not_elem_of_app. intros (? & ? & ? & ? & ? & ? & ?).
    split_and!; try done; by_eval.
  - destruct Hok as (_ & _ & Hbr).
    exists (str "COMPARE_PRODUCTS:" ++ a ++ str "]").
    split; [reflexivity|].
    rewrite !not_elem_of_app. split_and!; try done; by_eval.
  - destruct Hok as (_ & _ & _ & _ & _ & _ & Hbr).
    exists (str "PURCHASE_INTENT:" ++ n ++ str "|" ++ u ++ str "|" ++ p
            ++ str "]").
    split; [reflexivity|]. revert Hbr.
    rewrite !not_elem_of_app. intros (? & ? & ?).
    split_and!; try done; by_eval.
Qed.

Lemma segment_marker_differs k g rest :
  segment_kind g <> None -> is_kind k g = false ->
  startswith (match k with
              | display_link => str "[DISPLAY_LINK:"
              | product_card => str "[PRODUCT_CARD:"
              | compare_products => str "[COMPARE_PRODUCTS:"
              | purchase_intent => str "[PURCHASE_INTENT:"
              end) (render_segment g ++ rest) = false.
Proof. destruct g, k; done. Qed.

Lemma segment_miss k g rest :
  segment_ok g -> is_kind k g = false ->
  findall U (pattern_of k) (render_segment g ++ rest)
    = findall U (pattern_of k) rest
  /\ re_sub_del U (pattern_of k) (render_segment g ++ rest)
     = render_segment g ++ re_sub_del U (pattern_of k) rest.
Proof.
  intros Hok Hk.
  destruct (pattern_of_lit k) as (l & r & -> & Hh & Hl).
  destruct (segment_kind g) eqn:Ekind.
  - destruct (render_directive g Hok) as (d & Hd & Hbr); [congruence|].
    pose proof (segment_marker_differs k g rest) as Hdiff.
    rewrite <- Hl, Hd in Hdiff. rewrite Hd.
    change ((91%N :: d) ++ rest) with (91%N :: d ++ rest) in *.
    split; [apply findall_other|apply sub_other]; auto; apply Hdiff;
      congruence.
  - destruct g; try done. simpl in *.
    assert (exists r', lit l ++ r = ICls (CChar 91) QOne :: r') as [r' ->].
    { unfold lit. destruct (str l) as [|c m]; [done|]. inversion Hh; subst.
      simpl. eauto. }
    split; [by apply findall_plain|by apply sub_plain].
Qed.

Lemma render_cons g gs : render (g :: gs) = render_segment g ++ render gs.
Proof. done. Qed.

(** What a pattern finds in a well-formed response, and what its removal
    leaves. *)
Lemma findall_render k gs :
  Forall segment_ok gs ->
  findall U (pattern_of k) (render gs) = map segment_groups (segments_of k gs).
Proof.
  induction 1 as [|g gs Hg _ IH].
  - destruct k; reflexivity.
  - rewrite render_cons. unfold segments_of in *.
    destruct (is_kind k g) eqn:Ek.
    + rewrite filter_cons_True by done. cbn [map]. rewrite <- IH.
      apply findall_match; [|by apply segment_hit].
      apply render_segment_nonempty. by destruct g, k.
    + rewrite filter_cons_False by (by rewrite Ek).
      rewrite <- IH. by apply segment_miss.
Qed.

Lemma sub_render k gs :
  Forall segment_ok gs ->
  re_sub_del U (pattern_of k) (render gs) = render (segments_but k gs).
Proof.
  induction 1 as [|g gs Hg _ IH].
  - destruct k; reflexivity.
  - rewrite render_cons. unfold segments_but in *.
    destruct (is_kind k g) eqn:Ek.
    + rewrite filter_cons_False by (by rewrite Ek). rewrite <- IH.
      apply (sub_match _ _ _ (segment_groups g)); [|by apply segment_hit].
      apply render_segment_nonempty. by destruct g, k.
    + rewrite filter_cons_True by done. rewrite render_cons, <- IH.
      by apply segment_miss.
Qed.

Lemma segments_but_ok k gs :
  Forall segment_ok gs -> Forall segment_ok (segments_but k gs).
Proof.
  unfold segments_but. induction 1 as [|g gs Hg _ IH]; [constructor|].
  destruct (is_kind k g) eqn:Ek.
  - by rewrite filter_cons_False by (by rewrite Ek).
  - rewrite filter_cons_True by done. by constructor.
Qed.

Lemma process_spoken text :
  Response.spoken_text (process_response_for_enhanced_features U text)
  = _optimize_for_voice U
      (foldl (fun t np => re_sub_del U (snd np) t) text patterns).
Proof.
  unfold process_response_for_enhanced_features. cbn [set_spoken Response.spoken_text].
  f_equal. f_equal.
  unfold patterns, process_pattern. cbn [foldl fst snd].
  repeat match goal with
         | |- context [findall ?U ?p ?text] => destruct (findall U p text)
         end; reflexivity.
Qed.

Lemma segments_text gs :
  render (segments_but purchase_intent
            (segments_but compare_products
               (segments_but product_card (segments_but display_link gs))))
  = concat (omap segment_text gs).
Proof.
  induction gs as [|g gs IH]; [done|].
  destruct g; unfold segments_but in *; simpl in *;
    rewrite ?filter_cons_True by done; simpl;
    rewrite ?filter_cons_True by done; simpl;
    rewrite ?filter_cons_True by done; simpl;
    rewrite ?filter_cons_True by done; simpl;
    rewrite ?filter_cons_False by done; simpl;
    rewrite ?IH; try done.
  all: rewrite render_cons; simpl; by rewrite IH.
Qed.

Lemma map_segments_of {A} k (f : segment -> option A) (h : list pystr -> A) gs :
  (forall g, is_kind k g = true -> segment_ok g -> f g = Some (h (segment_groups g))) ->
  (forall g, is_kind k g = false -> f g = None) ->
  Forall segment_ok gs ->
  map h (map segment_groups (segments_of k gs)) = omap f gs.
Proof.
  intros Hyes Hno. induction 1 as [|g gs Hg _ IH]; [done|].
  unfold segments_of in *. destruct (is_kind k g) eqn:Ek.
  - rewrite filter_cons_True by done. simpl. rewrite (Hyes g Ek Hg).
    by rewrite IH.
  - rewrite filter_cons_False by (by rewrite Ek). simpl.
    by rewrite (Hno g Ek).
Qed.

Lemma process_render (gs : list segment) :
  Forall segment_ok gs ->
  let r := process_response_for_enhanced_features U (render gs) in
  Response.spoken_text r = _optimize_for_voice U (concat (omap segment_text gs))
  /\ Response.links_to_display r = omap segment_link gs
  /\ Response.product_cards r = omap segment_card gs
  /\ Response.comparison_data r = head (omap segment_comparison gs)
  /\ Response.purchase_intent_data r = head (omap segment_purchase gs).
Proof.
  intros Hgs r. subst r. split_and!.
  - rewrite process_spoken. f_equal. unfold patterns. cbn [foldl snd].
    rewrite (sub_render display_link) by done.
    rewrite (sub_render product_card) by (by apply segments_but_ok).
    rewrite (sub_render compare_products) by (by repeat apply segments_but_ok).
    rewrite (sub_render purchase_intent) by (by repeat apply segments_but_ok).
    apply segments_text.
  - rewrite process_links, (findall_render display_link) by done.
    apply map_segments_of; [| |done].
    + intros g Hk Hok. destruct g; try done. simpl. unfold link_of. simpl.
      by rewrite !strip_lstrip.
    + intros g Hk. by destruct g.
  - rewrite process_cards, (findall_render product_card) by done.
    apply map_segments_of; [| |done].
    + intros g Hk Hok. destruct g; try done. simpl. unfold card_of. simpl.
      by rewrite !strip_lstrip.
    + intros g Hk. by destruct g.
  - rewrite process_comparison, (findall_render compare_products) by done.
    rewrite <- (map_segments_of compare_products segment_comparison
                  (fun m => nth 0 m []) gs); [| | |done].
    + by destruct (map segment_groups _).
    + intros g Hk Hok. by destruct g.
    + intros g Hk. by destruct g.
  - rewrite process_purchase, (findall_render purchase_intent) by done.
    rewrite <- (map_segments_of purchase_intent segment_purchase purchase_of gs);
      [| | |done].
    + by destruct (map segment_groups _).
    + intros g Hk Hok. destruct g; try done. simpl. unfold purchase_of. simpl.
      by rewrite !strip_lstrip.
    + intros g Hk. by destruct g.
Qed.

(** X15: a response made of texts without an opening bracket and of
    well-formed directives, in any number and order, is taken apart
    exactly: every link and card directive gives its record, in order; the
    first comparison and the first purchase directive give theirs; and the
    text to speak is the optimizer's rendering of the texts alone, joined
    as they stand. *)
Theorem well_formed_response_parsed (gs : list segment) :
  Forall segment_ok gs ->
  let r := process_response_for_enhanced_features U (render gs) in
  Response.spoken_text r = _optimize_for_voice U (concat (omap segment_text gs))
  /\ Response.links_to_display r = omap segment_link gs
  /\ Response.product_cards r = omap segment_card gs
  /\ Response.comparison_data r = head (omap segment_comparison gs)
  /\ Response.purchase_intent_data r = head (omap segment_purchase gs).
Proof. apply process_render. Qed.
End Segments.

Lemma well_formed_response_parsed_witness :
  let gs := [ Text (str "Great choice! ");
              PurchaseD (str " Wireless Mouse ") (str " https://amazon.com/dp/B01 ")
                        (str " $19.99");
              Text (str " Anything else?");
              CardD (str " Mouse") (str "u") (str "$5") (str "4") [] [] [] ] in
  let r := process_response_for_enhanced_features ascii_db (render gs) in
  Response.spoken_text r
    = _optimize_for_voice ascii_db (concat (omap segment_text gs))
  /\ Response.links_to_display r = omap segment_link gs
  /\ Response.product_cards r = omap segment_card gs
  /\ Response.comparison_data r = head (omap segment_comparison gs)
  /\ Response.purchase_intent_data r = head (omap segment_purchase gs).
Proof.
  intros gs. apply (well_formed_response_parsed ascii_db gs).
  repeat (apply List.Forall_cons; [|]); [| | | |apply List.Forall_nil];
    cbn [segment_ok]; split_and?; try discriminate; by_eval.
Defined.

(** ** Turns of the conversation *)

Lemma agent_extends_refl a : agent_extends a a.
Proof.
  unfold agent_extends. split_and!; try done.
  exists []. by rewrite app_nil_r.
Qed.

Lemma agent_extends_trans a b c :
  agent_extends a b -> agent_extends b c -> agent_extends a c.
Proof.
  intros (H1 & H2 & H3 & H4 & H5 & [n1 H6] & H7)
         (G1 & G2 & G3 & G4 & G5 & [n2 G6] & G7).
  unfold agent_extends. split_and!; try congruence.
  - exists (n1 ++ n2). rewrite G6, H6. by rewrite <- app_assoc.
  - auto.
Qed.

Section ChatFacts.
Variable U : unicode_db.
Variable set_to_list : list pystr -> list pystr.
Variable create : nat -> option content_block.
Variable handle_function_call : nat -> option pyval.

Local Abbreviation content_of := (tool_content U set_to_list).
Local Abbreviation loop := (tool_loop U set_to_list create handle_function_call).
Local Abbreviation turn := (chat U set_to_list create handle_function_call).

Lemma tool_content_spec name data a r a' :
  content_of name data a = (r, a') ->
  agent_extends a a'
  /\ (forall tc, r = Ok tc ->
        if pystr_eqb name (str "BRAVE_SEARCH__WEB_SEARCH")
        then search_content tc
        else tc = data).
Proof.
  unfold tool_content.
  destruct (pystr_eqb name (str "BRAVE_SEARCH__WEB_SEARCH")).
  - intros [= <- <-]. split; [apply agent_extends_refl|].
    intros tc Htc. apply rbind_ok in Htc as (links & Hl & Htc).
    inversion Htc; subst tc. unfold extract_links in Hl.
    apply rbind_ok in Hl as (results & _ & Hl).
    apply rbind_ok in Hl as (items & _ & Hl).
    apply rbind_ok in Hl as (ls & _ & Hl). inversion Hl as [Hlinks].
    destruct (take 5 (set_to_list ls)) as [|l0 l1] eqn:E; [by left|].
    right. exists (l0 :: l1). split_and!; [done| |done].
    rewrite <- E, length_take. lia.
  - destruct (pystr_eqb name (str "FIRECRAWL__BATCH_SCRAPE")).
    + destruct (extract_product_info U data a) as [r0 a0] eqn:E.
      intros [= <- <-]. split.
      * pose proof (extract_product_info_frame U data a) as H.
        rewrite E in H. cbn [snd] in H.
        destruct H as (H1 & H2 & H3 & H4 & H5 & H6 & H7 & _).
        unfold agent_extends. by split_and!.
      * intros tc Htc. apply rbind_ok in Htc as (? & _ & Htc). by inversion Htc.
    + intros [= <- <-]. split; [apply agent_extends_refl|].
      by intros tc [= <-].
Qed.


Lemma tool_loop_spec fuel ctx : forall b c o c',
  loop fuel ctx b c = (o, c') ->
  exists rounds pending later,
    messages c' = messages c ++ flat_map round_messages rounds ++ pending
    /\ pending_ok o pending
    /\ Forall (round_ok handle_function_call) rounds
    /\ requests c' = requests c ++ later
    /\ Forall (fun rq => fst rq = followup_system_prompt ctx) later
    /\ length later <= length rounds
    /\ agent_extends (agent_of c) (agent_of c').
Proof.
  induction fuel as [|fuel IH]; intros b c o c' H.
  - destruct b as [text|id name input|]; simpl in H; inversion H; subst;
      exists [], [], []; simpl; rewrite ?app_nil_r;
      split_and!; auto using agent_extends_refl.
  - destruct b as [text|id name input|];
      try (simpl in H; inversion H; subst;
           exists [], [], []; simpl; rewrite ?app_nil_r;
           split_and!; auto using agent_extends_refl; fail).
    cbn [tool_loop] in H.
    unfold handle_tool_call in H. cbn [agent_of messages requests tool_calls append_message] in H.
    destruct (handle_function_call (length (tool_calls c))) as [data|] eqn:Hdata.
    + destruct (content_of name data (agent_of c)) as [[tc|e] a1] eqn:Htc.
      * apply tool_content_spec in Htc as [Hext Hok].
        specialize (Hok tc eq_refl).
        set (r := {| round_id := id; round_name := name; round_input := input;
                     round_content := tc |}).
        assert (Hr : round_ok handle_function_call r).
        { unfold round_ok. simpl.
          destruct (pystr_eqb name (str "BRAVE_SEARCH__WEB_SEARCH")); [done|].
          subst tc. eauto. }
        unfold create_message in H.
        cbn [agent_of messages requests tool_calls append_message set_agent] in H.
        destruct (create (length (requests c))) as [b'|] eqn:Hb.
        -- apply IH in H
             as (rounds & pending & later & Hm & Hp & Hrs & Hrq & Hl & Hlen & Ha).
           cbn [agent_of messages requests tool_calls] in *.
           eexists (r :: rounds), pending, (_ :: later).
           split_and!; try done.
           ++ rewrite Hm. simpl. by rewrite <- !app_assoc.
           ++ by constructor.
           ++ rewrite Hrq. by rewrite <- app_assoc.
           ++ by constructor.
           ++ simpl. lia.
           ++ by apply (agent_extends_trans _ a1).
        -- inversion H; subst. cbn [agent_of messages requests tool_calls].
           eexists [r], [], [_].
           split_and!; try done.
           ++ simpl. by rewrite <- !app_assoc.
           ++ by left.
           ++ by repeat constructor.
           ++ by repeat constructor.
      * apply tool_content_spec in Htc as [Hext _].
        inversion H; subst. cbn [agent_of messages requests tool_calls set_agent].
        eexists [], [_], []. simpl. rewrite ?app_nil_r.
        split_and!; try done. right. eauto.
    + inversion H; subst. cbn [agent_of messages requests tool_calls].
      eexists [], [_], []. simpl. rewrite ?app_nil_r.
      split_and!; auto using agent_extends_refl. right. eauto.
Qed.

Lemma context_info_add_context u i sess :
  context_info (add_context u i sess) i = context_info sess i.
Proof. done. Qed.

(** A turn whose utterance intent detection cannot read fails at once
    and leaves the conversation as it was. *)
Lemma chat_raises fuel u c e :
  detect_user_intent U u (shopping_session (agent_of c)) = Raise e ->
  turn fuel u c = (Failed (Raised e), c).
Proof. intros Hd. unfold chat. by rewrite Hd. Qed.

(** The state of a turn when the first request has been made. *)
Lemma chat_unfold fuel u c i sess :
  detect_user_intent U u (shopping_session (agent_of c)) = Ok (i, sess) ->
  exists c1,
    c1 = {| agent_of := set_session (add_context u i sess) (agent_of c);
            messages := messages c ++ [user_says u];
            requests := requests c
              ++ [(voice_system_prompt (context_info sess i),
                   messages c ++ [user_says u])];
            tool_calls := tool_calls c |}
    /\ turn fuel u c
       = match create (length (requests c)) with
         | None => (Failed ServiceError, c1)
         | Some b =>
             match loop fuel (context_info sess i) b c1 with
             | (Returned text, c2) =>
                 (Returned (process_response_for_enhanced_features U text),
                  append_message (assistant_says text) c2)
             | (Failed f, c2) => (Failed f, c2)
             | (OutOfFuel, c2) => (OutOfFuel, c2)
             end
         end.
Proof.
  intros Hd. eexists. split; [reflexivity|].
  unfold chat. rewrite Hd. unfold create_message.
  cbn [agent_of messages requests tool_calls append_message set_agent
       shopping_session set_session].
  rewrite context_info_add_context.
  by destruct (create (length (requests c))).
Qed.

(** A turn that returns has read its utterance. *)
Lemma chat_returned fuel u c r c' :
  turn fuel u c = (Returned r, c') ->
  exists i sess,
    detect_user_intent U u (shopping_session (agent_of c)) = Ok (i, sess).
Proof.
  intros Hturn.
  destruct (detect_user_intent U u (shopping_session (agent_of c)))
    as [[i sess]|e] eqn:Hd; [eauto|].
  by rewrite (chat_raises fuel u c e Hd) in Hturn.
Qed.



(** X17: a turn is on record once its utterance has been read.  When
    intent detection returns, its result joins the conversation context
    with the utterance, and the utterance joins the transcript, before
    anything is asked of a service; nothing of this is undone when the
    turn fails later.  A turn that returns ends the transcript with the
    model's text; a turn that does not return adds no text after the
    utterance, only tool uses and tool results.  When intent detection
    raises, which is the ValueError of an amount of more than 4300
    digits, the turn fails with it before anything is recorded: the
    conversation is left exactly as it was. *)
Theorem turn_is_recorded (fuel : nat) (u : pystr) (c : conversation) :
  let o := fst (turn fuel u c) in
  let c' := snd (turn fuel u c) in
  match detect_user_intent U u (shopping_session (agent_of c)) with
  | Raise e => e = ValueError /\ o = Failed (Raised ValueError) /\ c' = c
  | Ok (i, sess) =>
      exists new,
        Session.conversation_context (shopping_session (agent_of c'))
        = Session.conversation_context (shopping_session (agent_of c))
          ++ [(u, i)]
        /\ messages c' = messages c ++ user_says u :: new
        /\ match o with
           | Returned r =>
               exists text, last new = Some (assistant_says text)
                            /\ r = process_response_for_enhanced_features U text
           | _ => Forall (fun m => is_text_message m = false) new
           end
  end.
Proof.
  cbv zeta.
  pose proof (detect_user_intent_spec U u (shopping_session (agent_of c)))
    as Hspec.
  destruct (detect_user_intent U u (shopping_session (agent_of c)))
    as [[i sess]|e] eqn:Hd.
  2:{ destruct Hspec as [-> _].
      by rewrite (chat_raises fuel u c ValueError Hd). }
  destruct Hspec as (_ & _ & _ & _ & _ & _ & _ & Hctx).
  destruct (chat_unfold fuel u c i sess Hd) as (c1 & Hc1 & ->).
  assert (Hc1ctx : Session.conversation_context (shopping_session (agent_of c1))
                   = Session.conversation_context (shopping_session (agent_of c))
                     ++ [(u, i)]).
  { rewrite Hc1. simpl. by rewrite Hctx. }
  assert (Hflat : forall rounds,
            Forall (fun m => is_text_message m = false)
                   (flat_map round_messages rounds)).
  { induction rounds; simpl; repeat constructor; done. }
  destruct (create (length (requests c))) as [b|].
  - destruct (loop fuel (context_info sess i) b c1) as [o c2] eqn:Hloop.
    apply tool_loop_spec in Hloop
      as (rounds & pending & later & Hm & Hp & _ & _ & _ & _ & Hext).
    destruct Hext as (_ & _ & _ & _ & Hctx2 & _).
    assert (Hm1 : messages c1 = messages c ++ [user_says u]) by (by rewrite Hc1).
    destruct o as [text|f|]; cbn [fst snd messages agent_of append_message].
    + simpl in Hp. subst pending.
      exists (flat_map round_messages rounds ++ [assistant_says text]).
      split_and!.
      * by rewrite Hctx2.
      * rewrite Hm, Hm1. by rewrite app_nil_r, <- !app_assoc.
      * exists text. by rewrite last_snoc.
    + exists (flat_map round_messages rounds ++ pending).
      split_and!.
      * by rewrite Hctx2.
      * rewrite Hm, Hm1. by rewrite <- !app_assoc.
      * apply Forall_app. split; [apply Hflat|].
        destruct Hp as [->|(id & name & input & ->)]; repeat constructor.
    + exists (flat_map round_messages rounds ++ pending).
      split_and!.
      * by rewrite Hctx2.
      * rewrite Hm, Hm1. by rewrite <- !app_assoc.
      * apply Forall_app. split; [apply Hflat|].
        destruct Hp as [->|(id & name & input & ->)]; repeat constructor.
  - exists []. cbn [fst snd]. split_and!; [done| |constructor].
    by rewrite Hc1.
Qed.

(** X18: a turn changes the session only by recording itself, by setting
    the budget that the utterance mentions and by adding the products
    that the tools bring, however it ends: the preferences, the
    comparison mode and the purchase intent of the session are never
    written, the budget is the one that intent detection reports or else
    the one before (also when intent detection raises), the products
    viewed before are still there, in front, and no entry of the product
    mapping is removed. *)
Theorem turn_changes_budget_and_products_only (fuel : nat) (u : pystr)
    (c : conversation) :
  let s := shopping_session (agent_of c) in
  let s' := shopping_session (agent_of (snd (turn fuel u c))) in
  Session.user_preferences s' = Session.user_preferences s
  /\ Session.comparison_mode s' = Session.comparison_mode s
  /\ Session.purchase_intent s' = Session.purchase_intent s
  /\ Session.budget_range s'
     = match detect_user_intent U u s with
       | Ok (i, _) =>
           match Intent.budget_mentioned i with
           | Some n => Some n
           | None => Session.budget_range s
           end
       | Raise _ => Session.budget_range s
       end
  /\ (exists new,
        Session.products_viewed s' = Session.products_viewed s ++ new)
  /\ (forall k, is_Some (current_products (agent_of c) !! k) ->
        is_Some (current_products (agent_of (snd (turn fuel u c))) !! k)).
Proof.
  intros s s'. subst s s'.
  pose proof (detect_user_intent_spec U u (shopping_session (agent_of c)))
    as Hspec.
  destruct (detect_user_intent U u (shopping_session (agent_of c)))
    as [[i sess]|e] eqn:Hd.
  2:{ rewrite (chat_raises fuel u c e Hd). cbn [snd].
      split_and!; [done..| |done]. exists []. by rewrite app_nil_r. }
  destruct Hspec as (_ & Hnone & Hsome & Hv & Hp & Hcm & Hpi & _).
  destruct (chat_unfold fuel u c i sess Hd) as (c1 & Hc1 & ->).
  assert (Hgoal : forall c2, agent_extends (agent_of c1) (agent_of c2) ->
            Session.user_preferences (shopping_session (agent_of c2))
              = Session.user_preferences (shopping_session (agent_of c))
            /\ Session.comparison_mode (shopping_session (agent_of c2))
               = Session.comparison_mode (shopping_session (agent_of c))
            /\ Session.purchase_intent (shopping_session (agent_of c2))
               = Session.purchase_intent (shopping_session (agent_of c))
            /\ Session.budget_range (shopping_session (agent_of c2))
               = match Intent.budget_mentioned i with
                 | Some n => Some n
                 | None => Session.budget_range (shopping_session (agent_of c))
                 end
            /\ (exists new,
                  Session.products_viewed (shopping_session (agent_of c2))
                  = Session.products_viewed (shopping_session (agent_of c)) ++ new)
            /\ (forall k, is_Some (current_products (agent_of c) !! k) ->
                  is_Some (current_products (agent_of c2) !! k))).
  { intros c2 H2.
    destruct H2 as (G1 & G2 & G3 & G4 & _ & [new G6] & G7).
    rewrite Hc1 in G1, G2, G3, G4, G6, G7.
    simpl in *. split_and!; try congruence.
    - rewrite G2. destruct (Intent.budget_mentioned i) as [n|] eqn:Eb.
      + by destruct (Hsome n eq_refl).
      + by rewrite (Hnone eq_refl).
    - exists new. by rewrite G6, Hv.
    - done. }
  destruct (create (length (requests c))) as [b|].
  - destruct (loop fuel (context_info sess i) b c1) as [o c2] eqn:Hloop.
    apply tool_loop_spec in Hloop as (_ & _ & _ & _ & _ & _ & _ & _ & _ & Hext).
    destruct o; cbn [snd agent_of append_message]; by apply Hgoal.
  - cbn [snd]. apply Hgoal, agent_extends_refl.
Qed.

(** X19: the session context of the system prompts is fixed when the turn
    begins.  Once intent detection has returned, the first request
    carries the voice prompt and the transcript up to the utterance, and
    every later request of the turn carries the follow-up prompt with the
    same context, made of the budget after intent detection and the
    number of products viewed before the turn: products that a tool
    brings during the turn are not counted until the next turn.  When
    intent detection raises, no request is made at all. *)
Theorem context_fixed_for_turn (fuel : nat) (u : pystr) (c : conversation) :
  match detect_user_intent U u (shopping_session (agent_of c)) with
  | Ok (i, sess) =>
      exists later,
        Session.products_viewed sess
        = Session.products_viewed (shopping_session (agent_of c))
        /\ requests (snd (turn fuel u c))
           = requests c
             ++ (voice_system_prompt (context_info sess i),
                 messages c ++ [user_says u]) :: later
        /\ Forall (fun rq => fst rq = followup_system_prompt (context_info sess i))
                  later
  | Raise _ => requests (snd (turn fuel u c)) = requests c
  end.
Proof.
  pose proof (detect_user_intent_spec U u (shopping_session (agent_of c)))
    as Hspec.
  destruct (detect_user_intent U u (shopping_session (agent_of c)))
    as [[i sess]|e] eqn:Hd.
  2:{ by rewrite (chat_raises fuel u c e Hd). }
  destruct Hspec as (_ & _ & _ & Hv & _).
  destruct (chat_unfold fuel u c i sess Hd) as (c1 & Hc1 & ->).
  assert (Hrq : requests c1 = requests c
            ++ [(voice_system_prompt (context_info sess i),
                 messages c ++ [user_says u])]) by (by rewrite Hc1).
  destruct (create (length (requests c))) as [b|].
  - destruct (loop fuel (context_info sess i) b c1) as [o c2] eqn:Hloop.
    apply tool_loop_spec in Hloop
      as (rounds & pending & later & _ & _ & _ & Hr & Hl & _).
    exists later. split_and!; [done| |done].
    destruct o; cbn [snd requests append_message];
      rewrite Hr, Hrq; by rewrite <- app_assoc.
  - exists []. cbn [snd]. split_and!; [done| |constructor].
    by rewrite Hrq.
Qed.

Lemma alternating_app l1 l2 :
  alternating l1 = true -> alternating (l1 ++ l2) = alternating l2.
Proof.
  revert l1. fix IH 1. intros [|m1 [|m2 l1]]; simpl; [done|done|].
  destruct (Message.role m1), (Message.role m2); try done. apply IH.
Qed.

Lemma alternating_pair m1 m2 l :
  alternating (m1 :: m2 :: l)
  = match Message.role m1, Message.role m2 with
    | user, assistant => alternating l
    | _, _ => false
    end.
Proof. done. Qed.

Lemma alternating_rounds m rounds text :
  Message.role m = user ->
  alternating (m :: flat_map round_messages rounds ++ [assistant_says text])
  = true.
Proof.
  revert m. induction rounds as [|r rounds IH]; intros m Hm.
  - simpl. by rewrite Hm.
  - cbn [flat_map round_messages app]. rewrite alternating_pair, Hm.
    cbn [Message.role]. by apply IH.
Qed.

(** X20: the transcript stays a sequence of user turns each followed by an
    assistant turn, ending with a text of the assistant: [reset] makes it
    so, and every turn that returns keeps it so. *)
Theorem transcript_alternates (fuel : nat) (u : pystr) (c c' : conversation)
    (r : Response.t) :
  alternating (messages c) = true ->
  turn fuel u c = (Returned r, c') ->
  alternating (messages c') = true
  /\ (exists text, last (messages c') = Some (assistant_says text))
  /\ alternating (messages (reset_conversation c')) = true.
Proof.
  intros Halt Hturn.
  destruct (chat_returned fuel u c r c' Hturn) as (i & sess & Hd).
  destruct (chat_unfold fuel u c i sess Hd) as (c1 & Hc1 & Heq).
  rewrite Heq in Hturn.
  destruct (create (length (requests c))) as [b|]; [|done].
  destruct (loop fuel (context_info sess i) b c1) as [[text| |] c2] eqn:Hloop;
    [|done..].
  inversion Hturn; subst r c'; clear Hturn.
  apply tool_loop_spec in Hloop
    as (rounds & pending & later & Hm & Hp & _).
  simpl in Hp. subst pending.
  assert (Hmsgs : messages (append_message (assistant_says text) c2)
                  = messages c
                    ++ user_says u :: flat_map round_messages rounds
                    ++ [assistant_says text]).
  { cbn [messages append_message]. rewrite Hm, Hc1. cbn [messages].
    by rewrite app_nil_r, <- !app_assoc. }
  split_and!; [| |done].
  - rewrite Hmsgs, alternating_app by done. by apply alternating_rounds.
  - exists text. cbn [messages append_message]. by rewrite last_snoc.
Qed.


End ChatFacts.

Lemma demo_turn_eq : demo_turn = (Returned demo_response, snd demo_turn).
Proof. vm_compute. reflexivity. Qed.


Lemma transcript_alternates_witness :
  alternating (messages (snd demo_turn)) = true
  /\ (exists text, last (messages (snd demo_turn)) = Some (assistant_says text))
  /\ alternating (messages (reset_conversation (snd demo_turn))) = true.
Proof.
  apply (transcript_alternates ascii_db remove_dups demo_create demo_tools 1
           (str "a wireless mouse under $30") new_conversation (snd demo_turn)
           demo_response).
  - reflexivity.
  - exact demo_turn_eq.
Defined.


(** ** Features and speech *)

Lemma sends_app tr1 tr2 : sends (tr1 ++ tr2) = sends tr1 + sends tr2.
Proof. unfold sends. by rewrite filter_app, length_app. Qed.

Lemma tts_calls_app tr1 tr2 : tts_calls (tr1 ++ tr2) = tts_calls tr1 + tts_calls tr2.
Proof. unfold tts_calls. by rewrite filter_app, length_app. Qed.

Section ServerFacts.
Variable socket : nat -> send_result.
Variable text_to_speech : nat -> option (list (list Byte.byte)).

Local Abbreviation features := (handle_enhanced_features socket).
Local Abbreviation speak := (generate_and_send_audio socket text_to_speech).

Lemma handle_enhanced_features_eq r tr :
  features r tr = send_features socket (features_of r) tr.
Proof.
  unfold handle_enhanced_features, features_of.
  destruct (Response.product_cards r) as [|card cards] eqn:Ec;
    destruct (Response.purchase_intent_data r) as [p|] eqn:Ep;
    destruct (Response.comparison_data r) as [[|ch data]|] eqn:Ecmp;
    destruct (Response.links_to_display r) as [|l ls] eqn:El;
    cbn [app send_features];
    repeat match goal with
           | |- context [send_and_sleep socket ?f ?ms ?t] =>
               destruct (send_and_sleep socket f ms t) as [[|] ?]; cbn [snd]
           end; reflexivity.
Qed.

Lemma send_features_spec fs : forall tr,
  exists n,
    n <= length fs
    /\ send_features socket fs tr
       = tr ++ feature_events (take n fs)
         ++ match fs !! n with
            | Some (m, _) => [send_failed (json_frame m)]
            | None => []
            end
    /\ (forall j, j < n -> socket (sends tr + j) = delivered)
    /\ (n < length fs -> socket (sends tr + n) <> delivered).
Proof.
  induction fs as [|[m ms] fs IH]; intros tr.
  - exists 0. simpl. rewrite app_nil_r. split_and!; [lia|done|intros; lia|lia].
  - cbn [send_features]. unfold send_and_sleep, send.
    destruct (socket (sends tr)) eqn:Es.
    + destruct (IH ((tr ++ [sent (json_frame m)]) ++ [slept ms]))
        as (n & Hn & Heq & Hok & Hfail).
      rewrite !sends_app in Hok, Hfail. cbn in Hok, Hfail.
      exists (S n). split_and!.
      * simpl. lia.
      * rewrite Heq. cbn [take lookup list_lookup feature_events flat_map fst snd app].
        by rewrite <- !app_assoc.
      * intros [|j] Hj; [by rewrite Nat.add_0_r|].
        replace (sends tr + S j) with (sends tr + 1 + 0 + j) by lia.
        apply Hok. lia.
      * intros Hlt. replace (sends tr + S n) with (sends tr + 1 + 0 + n) by lia.
        apply Hfail. simpl in Hlt. lia.
    + exists 0. rewrite Nat.add_0_r. simpl.
      split_and!; [lia|done|intros; lia|by rewrite Es].
    + exists 0. rewrite Nat.add_0_r. simpl.
      split_and!; [lia|done|intros; lia|by rewrite Es].
Qed.

(** X22: showing the features of a response never raises, and it sends, in
    this order, the product cards if there are any, the purchase intent
    if there is one, the comparison if there is one and it is not empty,
    and the links if there are any and no cards - each followed by its
    pause.  The first send that fails ends it silently: what was to come
    after is not sent. *)
Theorem features_sent_in_order (r : Response.t) (tr : list event) :
  exists n,
    n <= length (features_of r)
    /\ features r tr
       = tr ++ feature_events (take n (features_of r))
         ++ match features_of r !! n with
            | Some (m, _) => [send_failed (json_frame m)]
            | None => []
            end
    /\ (forall j, j < n -> socket (sends tr + j) = delivered)
    /\ (n < length (features_of r) -> socket (sends tr + n) <> delivered).
Proof. rewrite handle_enhanced_features_eq. apply send_features_spec. Qed.

Lemma tts_attempt_spec text tr :
  tts_attempt socket text_to_speech text tr
  = if usable (text_to_speech (tts_calls tr)) then
      match socket (sends tr) with
      | delivered =>
          (true, tr ++ [tts_called text;
                        sent (audio_of (text_to_speech (tts_calls tr)))])
      | _ =>
          (false, tr ++ [tts_called text;
                         send_failed (audio_of (text_to_speech (tts_calls tr)))])
      end
    else (false, tr ++ [tts_called text]).
Proof.
  unfold tts_attempt, usable, audio_of, send.
  destruct (text_to_speech (tts_calls tr)) as [[|c cs]|]; try done.
  cbn [length Nat.eqb from_option id].
  destruct (length (concat (c :: cs)) <? 100) eqn:E.
  - apply Nat.ltb_lt in E. by rewrite (proj2 (Nat.leb_gt _ _)) by lia.
  - apply Nat.ltb_ge in E. rewrite (proj2 (Nat.leb_le _ _)) by lia.
    rewrite sends_app. cbn. rewrite Nat.add_0_r.
    destruct (socket (sends tr)); by rewrite <- app_assoc.
Qed.

Lemma tts_attempt_events text tr :
  tts_attempt socket text_to_speech text tr
  = (attempt_succeeds (text_to_speech (tts_calls tr)) (socket (sends tr)),
     tr ++ attempt_events text (text_to_speech (tts_calls tr))
             (socket (sends tr))).
Proof.
  rewrite tts_attempt_spec. unfold attempt_succeeds, attempt_events.
  destruct (usable _); [|done]. by destruct (socket _).
Qed.

Lemma sends_attempt text chunks s :
  sends (attempt_events text chunks s) = if usable chunks then 1 else 0.
Proof. unfold attempt_events. destruct (usable chunks); [by destruct s|done]. Qed.

Lemma tts_calls_attempt text chunks s :
  tts_calls (attempt_events text chunks s) = 1.
Proof. unfold attempt_events. destruct (usable chunks); [by destruct s|done]. Qed.

(** The trace of [generate_and_send_audio] in closed form. *)
Lemma generate_and_send_audio_trace text tr :
  let c1 := text_to_speech (tts_calls tr) in
  let s1 := socket (sends tr) in
  let c2 := text_to_speech (tts_calls tr + 1) in
  let s2 := socket (sends tr + if usable c1 then 1 else 0) in
  let s3 := socket (sends tr + (if usable c1 then 1 else 0)
                    + (if usable c2 then 1 else 0)) in
  speak text tr
  = tr ++ attempt_events text c1 s1
    ++ (if attempt_succeeds c1 s1 then []
        else slept 1000%N :: attempt_events text c2 s2
             ++ (if attempt_succeeds c2 s2 then []
                 else [match s3 with
                       | delivered => sent (text_frame (audio_fallback text))
                       | _ => send_failed (text_frame (audio_fallback text))
                       end])).
Proof.
  intros c1 s1 c2 s2 s3.
  unfold generate_and_send_audio, max_retries. cbn [tts_attempts].
  rewrite tts_attempt_events. fold c1 s1.
  destruct (attempt_succeeds c1 s1); [by rewrite app_nil_r|].
  rewrite tts_attempt_events.
  rewrite !tts_calls_app, !sends_app, sends_attempt, tts_calls_attempt.
  change (tts_calls [slept 1000%N]) with 0. change (sends [slept 1000%N]) with 0.
  rewrite !Nat.add_0_r. fold c2 s2.
  destruct (attempt_succeeds c2 s2).
  - by rewrite app_nil_r, <- !app_assoc.
  - unfold send. rewrite !sends_app, !sends_attempt.
    change (sends [slept 1000%N]) with 0. rewrite !Nat.add_0_r. fold c2 s3.
    cbn [snd]. destruct s3; by rewrite <- !app_assoc.
Qed.

Lemma usable_audio chunks :
  usable chunks = true ->
  exists b, audio_of chunks = bytes_frame b /\ 100 <= length b.
Proof.
  destruct chunks as [[|c cs]|]; try done. unfold usable, audio_of.
  intros H. apply Nat.leb_le in H. eauto.
Qed.

Lemma attempt_cases text c s :
  (attempt_succeeds c s = true
   /\ exists b, 100 <= length b
                /\ attempt_events text c s = [tts_called text; sent (bytes_frame b)])
  \/ (attempt_succeeds c s = false
      /\ (attempt_events text c s = [tts_called text]
          \/ exists b, 100 <= length b
                       /\ attempt_events text c s
                          = [tts_called text; send_failed (bytes_frame b)])).
Proof.
  unfold attempt_succeeds, attempt_events.
  destruct (usable c) eqn:E; [|right; split; [done|by left]].
  destruct (usable_audio _ E) as (b & -> & Hb).
  destruct s; [left|right..]; (split; [done|]); eauto.
Qed.

Ltac by_cases :=
  cbn [app];
  split_and!;
  [ vm_compute; lia
  | vm_compute; lia
  | repeat (apply List.Forall_cons;
            [intros ? [H|H]; inversion H; subst; assumption|]);
    apply List.Forall_nil
  | repeat (apply List.Forall_cons;
            [intros ? [H|H]; inversion H; subst; reflexivity|]);
    apply List.Forall_nil
  | vm_compute; lia
  | first
      [ left; eexists; reflexivity
      | right; split_and!;
        [ vm_compute; reflexivity
        | rewrite !elem_of_cons; auto 10
        | first [left; reflexivity|right; reflexivity]
        | repeat (apply List.Forall_cons; [intros ? H; inversion H|]);
          apply List.Forall_nil ] ] ].

(** X23: speaking a text never raises.  Speech is asked for once or twice;
    only an audio of at least 100 bytes is ever put on the socket, and
    the only text ever put on it is the text to speak after "I'm having
    trouble with audio right now. "; at most one frame goes out.  Either
    the last thing done is the sending of the audio, or speech was asked
    for twice, one second apart, no audio went out, and the last thing done
    is the attempt to send that text. *)
Theorem audio_or_fallback (text : pystr) (tr : list event) :
  exists new,
    speak text tr = tr ++ new
    /\ 1 <= tts_calls new <= 2
    /\ Forall (fun e => forall b,
                 e = sent (bytes_frame b) \/ e = send_failed (bytes_frame b) ->
                 100 <= length b) new
    /\ Forall (fun e => forall s,
                 e = sent (text_frame s) \/ e = send_failed (text_frame s) ->
                 s = audio_fallback text) new
    /\ length (filter (fun e => is_sent e = true) new) <= 1
    /\ ((exists b, last new = Some (sent (bytes_frame b)))
        \/ (tts_calls new = 2
            /\ slept 1000%N ∈ new
            /\ (last new = Some (sent (text_frame (audio_fallback text)))
                \/ last new = Some (send_failed (text_frame (audio_fallback text))))
            /\ Forall (fun e => forall b, e <> sent (bytes_frame b)) new)).
Proof.
  pose proof (generate_and_send_audio_trace text tr) as Heq. cbv zeta in Heq.
  eexists. split; [exact Heq|]. clear Heq.
  generalize (socket (sends tr
                      + (if usable (text_to_speech (tts_calls tr)) then 1 else 0)
                      + (if usable (text_to_speech (tts_calls tr + 1))
                         then 1 else 0))) as s3.
  intros s3.
  destruct (attempt_cases text (text_to_speech (tts_calls tr)) (socket (sends tr)))
    as [(-> & b1 & Hb1 & ->)|(-> & [->|(b1 & Hb1 & ->)])].
  - by_cases.
  - destruct (attempt_cases text (text_to_speech (tts_calls tr + 1))
                (socket (sends tr + (if usable (text_to_speech (tts_calls tr))
                                     then 1 else 0))))
      as [(-> & b2 & Hb2 & ->)|(-> & [->|(b2 & Hb2 & ->)])];
      [|destruct s3..]; by_cases.
  - destruct (attempt_cases text (text_to_speech (tts_calls tr + 1))
                (socket (sends tr + (if usable (text_to_speech (tts_calls tr))
                                     then 1 else 0))))
      as [(-> & b2 & Hb2 & ->)|(-> & [->|(b2 & Hb2 & ->)])];
      [|destruct s3..]; by_cases.
Qed.

Lemma send_features_all fs : forall tr,
  (forall n, socket n = delivered) ->
  send_features socket fs tr = tr ++ feature_events fs.
Proof.
  induction fs as [|[m ms] fs IH]; intros tr Hup.
  - simpl. by rewrite app_nil_r.
  - cbn [send_features]. unfold send_and_sleep, send. rewrite Hup.
    rewrite IH by done. simpl. by rewrite <- !app_assoc.
Qed.

Lemma feature_events_sent m fs :
  sent (json_frame m) ∈ feature_events fs <-> exists ms, (m, ms) ∈ fs.
Proof.
  induction fs as [|[m' ms'] fs IH]; simpl.
  - split; [by intros ?%elem_of_nil|]. by intros [? ?%elem_of_nil].
  - rewrite !elem_of_cons, IH. split.
    + intros [[= <-]|[[=]|[ms H]]]; [exists ms'|exists ms].
      * apply list_elem_of_here.
      * by apply list_elem_of_further.
    + intros [ms [[= <- <-]|H]%elem_of_cons]; [by left|]. right; right. eauto.
Qed.

(** X24: an audio that the socket refuses is synthesized again: when the
    speech service gives a usable audio and the send of it fails, the
    failure is handled like a failure of the speech service - one second
    later speech is asked for a second time. *)
Theorem refused_audio_is_synthesized_again (text : pystr) (tr : list event) :
  usable (text_to_speech (tts_calls tr)) = true ->
  socket (sends tr) <> delivered ->
  exists b rest,
    100 <= length b
    /\ speak text tr
       = tr ++ [tts_called text; send_failed (bytes_frame b); slept 1000%N;
                tts_called text] ++ rest.
Proof.
  intros Hu Hs.
  rewrite generate_and_send_audio_trace. cbv zeta.
  unfold attempt_succeeds at 1. unfold attempt_events at 1. rewrite Hu.
  destruct (usable_audio _ Hu) as (b & -> & Hb).
  exists b. eexists. split; [done|].
  destruct (socket (sends tr)); [done|..]; cbn [andb app];
    unfold attempt_events; reflexivity.
Qed.
End ServerFacts.

Lemma refused_audio_is_synthesized_again_witness :
  exists b rest,
    100 <= length b
    /\ generate_and_send_audio dead_socket steady_speech (str "Hello") []
       = [] ++ [tts_called (str "Hello"); send_failed (bytes_frame b);
                slept 1000%N; tts_called (str "Hello")] ++ rest.
Proof.
  apply (refused_audio_is_synthesized_again dead_socket steady_speech
           (str "Hello") []).
  - reflexivity.
  - discriminate.
Defined.

Section Display.
Variable U : unicode_db.
Variable socket : nat -> send_result.

Lemma comparison_group_inv s caps rest :
  rmatch U pat_compare_products s = Some (caps, rest) ->
  exists a, caps = [a] /\ a <> [].
Proof.
  unfold rmatch, pat_compare_products. intros H.
  replace (lit "[COMPARE_PRODUCTS:" ++ [ws] ++ grp not_close QPlus ++ lit "]")
    with ((lit "[COMPARE_PRODUCTS:" ++ [ws]) ++ grp not_close QPlus ++ lit "]")
    in H by (by rewrite <- app_assoc).
  apply m_items_group_free_suffix in H as (t & s1 & -> & H);
    [|apply group_free_app; [apply group_free_lit|apply group_free_cls]].
  unfold grp in H. cbn [app m_items] in H.
  apply m_quant_inv in H as (xs & s2 & -> & _ & Hlen & H).
  rewrite take_app_diff in H.
  apply m_items_group_free_caps in H; [|apply group_free_lit].
  exists xs. split; [done|]. intros ->. simpl in Hlen. lia.
Qed.

Lemma comparison_nonempty text a :
  Response.comparison_data (process_response_for_enhanced_features U text)
    = Some a -> a <> [].
Proof.
  rewrite process_comparison.
  destruct (findall U pat_compare_products text) as [|m0 ms] eqn:E; [done|].
  intros [= <-].
  assert (Hin : m0 ∈ findall_go U pat_compare_products 0 text).
  { unfold findall in E. rewrite E. apply list_elem_of_here. }
  apply findall_go_inv in Hin as (s1 & rest & Hm).
  by apply comparison_group_inv in Hm as (a & -> & Ha).
Qed.

(** X25: with a socket that lets everything through, what the parser finds
    in a response reaches the client: the cards whenever there is one,
    the purchase intent and the comparison whenever one is found - a
    comparison found is never empty - and the links whenever there is
    one and no card; with a card in the response the links are not
    sent. *)
Theorem parsed_features_reach_client (text : pystr) (tr : list event) :
  (forall n, socket n = delivered) ->
  let r := process_response_for_enhanced_features U text in
  let tr' := handle_enhanced_features socket r tr in
  (Response.product_cards r <> [] ->
     sent (json_frame (product_cards_feature (Response.product_cards r))) ∈ tr')
  /\ (forall p, Response.purchase_intent_data r = Some p ->
        sent (json_frame (purchase_intent_feature p)) ∈ tr')
  /\ (forall a, Response.comparison_data r = Some a ->
        sent (json_frame (comparison_feature a)) ∈ tr')
  /\ (Response.links_to_display r <> [] -> Response.product_cards r = [] ->
        sent (json_frame (display_links_feature (Response.links_to_display r)))
          ∈ tr')
  /\ (Response.product_cards r <> [] ->
        exists new, tr' = tr ++ new
          /\ forall links,
               sent (json_frame (display_links_feature links)) ∉ new).
Proof.
  intros Hup r tr'. subst tr'.
  rewrite handle_enhanced_features_eq, send_features_all by done.
  assert (Hin : forall m ms, (m, ms) ∈ features_of r ->
            sent (json_frame m) ∈ tr ++ feature_events (features_of r)).
  { intros m ms H. apply elem_of_app. right. apply feature_events_sent. eauto. }
  unfold features_of in *. split_and!.
  - intros Hc. destruct (Response.product_cards r) eqn:E; [done|].
    rewrite <- E in *. eapply Hin.
    rewrite E. apply elem_of_app. left. rewrite <- E. apply list_elem_of_here.
  - intros p Hp. eapply Hin. rewrite Hp.
    apply elem_of_app. right. apply elem_of_app. left. apply list_elem_of_here.
  - intros a Ha. pose proof (comparison_nonempty text a Ha) as Hne.
    eapply Hin. fold r in Ha. rewrite Ha. destruct a as [|c a]; [done|].
    apply elem_of_app. right. apply elem_of_app. right.
    apply elem_of_app. left. apply list_elem_of_here.
  - intros Hl Hc. eapply Hin. rewrite Hc.
    destruct (Response.links_to_display r) eqn:E; [done|].
    rewrite !elem_of_app. right; right; right. apply list_elem_of_here.
  - intros Hc. eexists. split; [reflexivity|]. intros links.
    rewrite feature_events_sent. intros [ms H].
    destruct (Response.product_cards r) eqn:E; [done|].
    destruct (Response.purchase_intent_data r), (Response.comparison_data r) as [[|]|],
      (Response.links_to_display r); simpl in H;
      repeat (apply elem_of_cons in H as [H|H]; [done|]);
      by apply elem_of_nil in H.
Qed.
End Display.

Lemma parsed_features_reach_client_witness :
  let r := process_response_for_enhanced_features ascii_db
             (str "Compare: [COMPARE_PRODUCTS: A vs B]") in
  let tr' := handle_enhanced_features (fun _ => delivered) r [] in
  (Response.product_cards r <> [] ->
     sent (json_frame (product_cards_feature (Response.product_cards r))) ∈ tr')
  /\ (forall p, Response.purchase_intent_data r = Some p ->
        sent (json_frame (purchase_intent_feature p)) ∈ tr')
  /\ (forall a, Response.comparison_data r = Some a ->
        sent (json_frame (comparison_feature a)) ∈ tr')
  /\ (Response.links_to_display r <> [] -> Response.product_cards r = [] ->
        sent (json_frame (display_links_feature (Response.links_to_display r)))
          ∈ tr')
  /\ (Response.product_cards r <> [] ->
        exists new, tr' = [] ++ new
          /\ forall links,
               sent (json_frame (display_links_feature links)) ∉ new).
Proof.
  apply (parsed_features_reach_client ascii_db (fun _ => delivered)
           (str "Compare: [COMPARE_PRODUCTS: A vs B]") []).
  reflexivity.
Defined.

(** ** Messages with audio *)

Section EndpointFacts.
Variable U : unicode_db.
Variable set_to_list : list pystr -> list pystr.
Variable create : nat -> option content_block.
Variable handle_function_call : nat -> option pyval.
Variable socket : nat -> send_result.
Variable text_to_speech : nat -> option (list (list Byte.byte)).
Variable speech_to_text : nat -> option pystr.
Variable fuel : nat.

Local Abbreviation receive :=
  (receive_audio U set_to_list create handle_function_call socket
     text_to_speech speech_to_text fuel).
Local Abbreviation turn := (chat U set_to_list create handle_function_call).

Lemma audio_error_spec sv :
  exists new,
    snd (audio_error socket sv)
    = {| conversation_of := conversation_of sv;
         trace := trace sv ++ new;
         transcriptions := transcriptions sv |}
    /\ 1 <= length new <= 2
    /\ Forall (fun e => is_text_event e = true) new
    /\ (head new = Some (sent (text_frame audio_trouble))
        \/ head new = Some (send_failed (text_frame audio_trouble)))
    /\ fst (audio_error socket sv) <> unfinished.
Proof.
  unfold audio_error, send_text. cbn [trace conversation_of transcriptions].
  destruct (socket (sends (trace sv))) eqn:E1; cbn [fst snd].
  - eexists [_]. split_and!; [done|simpl; lia..|by repeat constructor|by left|done].
  - eexists [_]. split_and!; [done|simpl; lia..|by repeat constructor|by right|done].
  - destruct (socket (sends (trace sv ++ [_]))) eqn:E2; cbn [fst snd];
      eexists [_; _]; rewrite <- !app_assoc;
      (split_and!; [done|simpl; lia..|by repeat constructor|by right|done]).
Qed.

Lemma tell_and_continue_spec s sv :
  exists new,
    snd (tell_and_continue socket s sv)
    = {| conversation_of := conversation_of sv;
         trace := trace sv ++ new;
         transcriptions := transcriptions sv |}
    /\ 1 <= length new <= 3
    /\ Forall (fun e => is_text_event e = true) new
    /\ (head new = Some (sent (text_frame s))
        \/ head new = Some (send_failed (text_frame s)))
    /\ fst (tell_and_continue socket s sv) <> unfinished.
Proof.
  unfold tell_and_continue, send_text.
  destruct (socket (sends (trace sv))) eqn:E1.
  - eexists [_]. cbn [fst snd].
    split_and!; [done|simpl; lia..|by repeat constructor|by left|done].
  - match goal with
    | |- context [audio_error socket ?sv1] =>
        destruct (audio_error_spec sv1) as (new & -> & Hlen & Hall & _ & Hc)
    end.
    cbn [trace conversation_of transcriptions].
    eexists (_ :: new). rewrite <- app_assoc.
    split_and!; [done|simpl; lia..|by constructor|by right|done].
  - match goal with
    | |- context [audio_error socket ?sv1] =>
        destruct (audio_error_spec sv1) as (new & -> & Hlen & Hall & _ & Hc)
    end.
    cbn [trace conversation_of transcriptions].
    eexists (_ :: new). rewrite <- app_assoc.
    split_and!; [done|simpl; lia..|by constructor|by right|done].
Qed.

(** X26: audio that cannot be used never reaches the agent.  A message of
    fewer than 1000 bytes is not even transcribed; one whose
    transcription fails or is blank is transcribed once.  In all three
    cases the conversation is left as it is, no speech is made and
    nothing but text goes to the client: one to three text frames, the
    first of which says what went wrong. *)
Theorem unusable_audio_never_reaches_agent (audio_data : list Byte.byte)
    (sv : server) :
  let sv' := snd (receive audio_data sv) in
  ((N.of_nat (length audio_data) < 1000)%N ->
     transcriptions sv' = transcriptions sv
     /\ conversation_of sv' = conversation_of sv
     /\ exists new,
          trace sv' = trace sv ++ new
          /\ 1 <= length new <= 3
          /\ Forall (fun e => is_text_event e = true) new
          /\ (head new = Some (sent (text_frame audio_too_short))
              \/ head new = Some (send_failed (text_frame audio_too_short))))
  /\ ((1000 <= N.of_nat (length audio_data))%N ->
      speech_to_text (transcriptions sv) = None ->
      transcriptions sv' = S (transcriptions sv)
      /\ conversation_of sv' = conversation_of sv
      /\ exists new,
           trace sv' = trace sv ++ new
           /\ 1 <= length new <= 3
           /\ Forall (fun e => is_text_event e = true) new
           /\ (head new = Some (sent (text_frame audio_trouble))
               \/ head new = Some (send_failed (text_frame audio_trouble))))
  /\ (forall text,
        (1000 <= N.of_nat (length audio_data))%N ->
        speech_to_text (transcriptions sv) = Some text ->
        strip text = [] ->
        transcriptions sv' = S (transcriptions sv)
        /\ conversation_of sv' = conversation_of sv
        /\ exists new,
             trace sv' = trace sv ++ new
             /\ 1 <= length new <= 3
             /\ Forall (fun e => is_text_event e = true) new
             /\ (head new = Some (sent (text_frame not_caught))
                 \/ head new = Some (send_failed (text_frame not_caught)))).
Proof.
  intros sv'. subst sv'. unfold receive_audio. split_and!.
  - intros Hshort. rewrite (proj2 (N.ltb_lt _ _) Hshort).
    destruct (tell_and_continue_spec audio_too_short sv)
      as (new & -> & Hlen & Hall & Hhead & _).
    cbn [trace conversation_of transcriptions]. split_and!; [done..|].
    by exists new.
  - intros Hlong Hstt. rewrite (proj2 (N.ltb_ge _ _) Hlong), Hstt.
    match goal with
    | |- context [audio_error socket ?sv1] =>
        destruct (audio_error_spec sv1) as (new & -> & Hlen & Hall & Hhead & _)
    end.
    cbn [trace conversation_of transcriptions]. split_and!; [done..|].
    exists new. split_and!; [done|lia..|done|done].
  - intros text Hlong Hstt Hblank.
    rewrite (proj2 (N.ltb_ge _ _) Hlong), Hstt, Hblank.
    match goal with
    | |- context [tell_and_continue socket ?s ?sv1] =>
        destruct (tell_and_continue_spec s sv1)
          as (new & -> & Hlen & Hall & Hhead & _)
    end.
    cbn [trace conversation_of transcriptions]. split_and!; [done..|].
    by exists new.
Qed.



End EndpointFacts.

Lemma unusable_audio_never_reaches_agent_witness :
  let sv' := snd (receive_audio ascii_db remove_dups listing_service no_tools
                    open_socket (fun _ => None) hears_mice 1
                    (replicate 10 Byte.x00) new_server) in
  transcriptions sv' = transcriptions new_server
  /\ conversation_of sv' = conversation_of new_server
  /\ exists new,
       trace sv' = trace new_server ++ new
       /\ 1 <= length new <= 3
       /\ Forall (fun e => is_text_event e = true) new
       /\ (head new = Some (sent (text_frame audio_too_short))
           \/ head new = Some (send_failed (text_frame audio_too_short))).
Proof.
  apply (proj1 (unusable_audio_never_reaches_agent ascii_db remove_dups
                  listing_service no_tools open_socket (fun _ => None)
                  hears_mice 1 (replicate 10 Byte.x00) new_server)).
  vm_compute. reflexivity.
Defined.

